(** * Bookworm: pagination and translation-sync core

    A shallow embedding of the reader's pagination engine
    ([bookworm/ui/screens/reader_screen.py]), of the translation engine
    ([bookworm/translation/engine.py]) together with the cache table it
    uses ([bookworm/library/database.py]), and of the library screen's
    deletion handler ([bookworm/ui/screens/library_screen.py]).

    Python [int] is [Z]; a Python [str] is the list of its Unicode code
    points; list indices and lengths are [nat]. *)

From Stdlib Require Import ZArith NArith String Ascii DecimalString Lia.
From stdpp Require Import base option list gmap.

Local Open Scope Z_scope.

(** ** Python strings *)

Module PyStr.

(** A code point. *)
Definition char := N.
Definition str := list char.

(** A literal of the source, given by its ASCII text. *)
Definition lit (s : string) : str :=
  map N_of_ascii (list_ascii_of_string s).

Definition SPACE : char := 32%N.
Definition NEWLINE : char := 10%N.

(** [ch.isspace()]: the code points CPython classifies as whitespace. *)
Definition isspace (c : char) : bool :=
  ((9 <=? c) && (c <=? 13) || (28 <=? c) && (c <=? 32)
   || (c =? 133) || (c =? 160) || (c =? 5760)
   || (8192 <=? c) && (c <=? 8202)
   || (c =? 8232) || (c =? 8233) || (c =? 8239) || (c =? 8287)
   || (c =? 12288))%N.

(** [s.isascii()] *)
Definition isascii (s : str) : bool := forallb (fun c => (c <? 128)%N) s.

Fixpoint lstrip (s : str) : str :=
  match s with
  | c :: s' => if isspace c then lstrip s' else s
  | [] => []
  end.

Definition rstrip (s : str) : str := reverse (lstrip (reverse s)).

(** [s.strip()] *)
Definition strip (s : str) : str := rstrip (lstrip s).

(** [not s.strip()]: the string is empty or whitespace only. *)
Definition blank (s : str) : bool := forallb isspace s.

(** [sep.join(parts)] *)
Fixpoint join (sep : str) (parts : list str) : str :=
  match parts with
  | [] => []
  | [p] => p
  | p :: rest => p ++ sep ++ join sep rest
  end.

Fixpoint starts_with (pre s : str) : bool :=
  match pre, s with
  | [], _ => true
  | a :: pre', b :: s' => (a =? b)%N && starts_with pre' s'
  | _ :: _, [] => false
  end.

(** [s.split(sep)] for a non-empty [sep]: a left-to-right scan that cuts
    at every occurrence of [sep] and resumes after it.  [skip] counts the
    characters of a matched separator still to be passed over, [acc] is
    the current piece, reversed. *)
Fixpoint split_go (sep : str) (skip : nat) (acc : str) (s : str)
  : list str :=
  match s with
  | [] => [reverse acc]
  | c :: s' =>
      match skip with
      | S k => split_go sep k acc s'
      | O =>
          if starts_with sep s
          then reverse acc :: split_go sep (Nat.pred (length sep)) [] s'
          else split_go sep O (c :: acc) s'
      end
  end.

Definition split (sep : str) (s : str) : list str := split_go sep O [] s.

(** [sub in s] *)
Fixpoint contains (sub s : str) : bool :=
  starts_with sub s ||
  match s with
  | [] => false
  | _ :: s' => contains sub s'
  end.

(** [str(n)] for a non-negative integer. *)
Definition str_of_nat (n : nat) : str :=
  lit (NilEmpty.string_of_uint (Nat.to_uint n)).

(** [l[i:j]] for [0 <= i]. *)
Definition slice {A} (l : list A) (i j : nat) : list A :=
  take (j - i) (drop i l).

(** [range(0, stop, step)] for a positive [step]. *)
Definition range_step (stop step : nat) : list nat :=
  map (fun k => (k * step)%nat) (seq 0 (Nat.div (stop + Nat.pred step) step)).

End PyStr.
Import PyStr.

(** ** The pagination engine ([reader_screen.py]) *)

Module Paginator.

Record Chapter := mkChapter {
  index : Z;
  title : str;
  paragraphs : list str
}.

Section Layout.

(** [unicodedata.east_asian_width(ch) in ("F", "W")]: the Unicode
    East-Asian-Width table is data of the Python runtime. *)
Variable east_asian_wide : char -> bool.

(** [textwrap.wrap(text, width=width)] of the Python standard library
    (called with a positive width only: [_reflow] clamps it to 20). *)
Variable textwrap_wrap : str -> Z -> list str.

(** [translator.get_cached(para)] as seen by one reflow. *)
Variable get_cached : str -> option str.

Definition char_width (ch : char) : Z :=
  if east_asian_wide ch then 2 else 1.

Fixpoint _display_width (text : str) : Z :=
  match text with
  | [] => 0
  | ch :: rest => char_width ch + _display_width rest
  end.

(** The [for ch in text] loop of [_wrap_cjk]; [current] is the list of
    characters of the line being built. *)
Fixpoint cjk_loop (width : Z) (text : str)
         (lines : list str) (current : str) (current_w : Z)
  : list str * str :=
  match text with
  | [] => (lines, current)
  | ch :: rest =>
      let cw := char_width ch in
      if (current_w + cw >? width) && negb (bool_decide (current = []))
      then
        let lines := lines ++ [current] in
        if (ch =? SPACE)%N
        then cjk_loop width rest lines [] 0
        else cjk_loop width rest lines [ch] cw
      else cjk_loop width rest lines (current ++ [ch]) (current_w + cw)
  end.

(** The lines the CJK path has collected when the loop and the final
    [if current:] are done. *)
Definition cjk_lines (width : Z) (text : str) : list str :=
  let '(lines, current) := cjk_loop width text [] [] 0 in
  if bool_decide (current = []) then lines else lines ++ [current].

Definition or_blank (lines : list str) : list str :=
  match lines with [] => [[]] | _ => lines end.

Definition _wrap_cjk (text : str) (width : Z) : list str :=
  if blank text then [[]]
  else if isascii text then or_blank (textwrap_wrap text width)
  else or_blank (cjk_lines width text).

Definition _pad_to_width (text : str) (width : Z) : str :=
  let dw := _display_width text in
  text ++ replicate (Z.to_nat (Z.max 0 (width - dw))) SPACE.

(** [widget.size] of the content widget, [None] when the query fails. *)
Definition _get_content_dimensions (size : option (Z * Z)) : Z * Z :=
  match size with
  | Some (width, height) =>
      let w := width - 4 in
      let h := height in
      if (w <? 10) || (h <? 3) then (72, 20) else (w, h)
  | None => (72, 20)
  end.

Definition page_width_of (dual_mode : bool) (content_w : Z) : Z :=
  if dual_mode then Z.max 20 ((content_w - 3) / 2)
  else Z.max 20 content_w.

(** The translation marker ["  ▸ "] (U+25B8). *)
Definition TRANS_PREFIX : str := [32; 32; 9656; 32]%N.

(** One iteration of the loop of [_wrap_chapter] at paragraph [i] of
    [n]. *)
Definition wrap_paragraph (translate_mode : bool) (line_spacing : Z)
           (width : Z) (n i : nat) (para : str)
  : list str * list nat :=
  let wrapped := _wrap_cjk para width in
  let lines := wrapped in
  let l2p := replicate (length wrapped) i in
  let '(lines, l2p) :=
    if translate_mode then
      match get_cached para with
      | Some cached =>
          if bool_decide (cached = []) then (lines, l2p)
          else
            let trans_wrapped := _wrap_cjk (TRANS_PREFIX ++ cached) width in
            (lines ++ trans_wrapped,
             l2p ++ replicate (length trans_wrapped) i)
      | None => (lines, l2p)
      end
    else (lines, l2p) in
  if (Z.of_nat i <? Z.of_nat n - 1)
  then (lines ++ replicate (Z.to_nat line_spacing) [],
        l2p ++ replicate (Z.to_nat line_spacing) i)
  else (lines, l2p).

Fixpoint wrap_from (translate_mode : bool) (line_spacing : Z)
         (width : Z) (n i : nat) (paras : list str)
  : list str * list nat :=
  match paras with
  | [] => ([], [])
  | para :: rest =>
      let '(l1, p1) :=
        wrap_paragraph translate_mode line_spacing width n i para in
      let '(l2, p2) :=
        wrap_from translate_mode line_spacing width n (S i) rest in
      (l1 ++ l2, p1 ++ p2)
  end.

Definition _wrap_chapter (translate_mode : bool) (line_spacing : Z)
           (chapter : Chapter) (width : Z) : list str * list nat :=
  wrap_from translate_mode line_spacing width
            (length (paragraphs chapter)) 0 (paragraphs chapter).

Definition EMPTY_PAGE : str := lit "(empty)".

(** The paragraph range of the page that starts at line [i]. *)
Definition page_range (line_to_para : list nat) (page_height i : nat)
  : nat * nat :=
  let start_line := Z.of_nat i in
  let end_line :=
    Z.min (Z.of_nat i + Z.of_nat page_height - 1)
          (Z.of_nat (length line_to_para) - 1) in
  if (start_line <? Z.of_nat (length line_to_para)) && (0 <=? end_line)
  then (nth i line_to_para O,
        nth (Z.to_nat (Z.max 0 end_line)) line_to_para O)
  else (O, O).

(** The loop of [_reflow] over [range(0, len(all_lines), page_height)]
    and the placeholder page that replaces an empty result. *)
Definition paginate (all_lines : list str) (line_to_para : list nat)
           (page_height : nat) : list (list str) * list (nat * nat) :=
  let starts := range_step (length all_lines) page_height in
  let pages :=
    map (fun i => slice all_lines i (i + page_height)) starts in
  let ranges :=
    map (fun i => page_range line_to_para page_height i) starts in
  match pages with
  | [] => ([[EMPTY_PAGE]], [(O, O)])
  | _ => (pages, ranges)
  end.

(** [_reflow]: the new values of [_pages] and [_page_para_ranges]. *)
Definition _reflow (translate_mode dual_mode : bool) (line_spacing : Z)
           (size : option (Z * Z)) (chapter : option Chapter)
  : list (list str) * list (nat * nat) :=
  match chapter with
  | None => ([[EMPTY_PAGE]], [(O, O)])
  | Some chapter =>
      let '(content_w, content_h) := _get_content_dimensions size in
      let page_width := page_width_of dual_mode content_w in
      let page_height := Z.to_nat (Z.max 3 content_h) in
      let '(all_lines, line_to_para) :=
        _wrap_chapter translate_mode line_spacing chapter page_width in
      paginate all_lines line_to_para page_height
  end.

(** The rows [_render_page] joins with newlines and hands to the
    content widget; [None] when it returns without updating. *)
Definition _render_rows (dual_mode : bool) (size : option (Z * Z))
           (pages : list (list str)) (page_idx : nat)
  : option (list str) :=
  match pages with
  | [] => None
  | _ =>
      let '(content_w, content_h) := _get_content_dimensions size in
      if dual_mode then
        let page_width := Z.max 20 ((content_w - 3) / 2) in
        let left_page := default [] (pages !! page_idx) in
        let right_page := default [] (pages !! S page_idx) in
        Some (map (fun j =>
                     let left := default [] (left_page !! j) in
                     let right := default [] (right_page !! j) in
                     _pad_to_width left page_width
                       ++ [32; 9474; 32]%N ++ right)
                  (seq 0 (Z.to_nat content_h)))
      else
        let page := default [[]] (pages !! page_idx) in
        Some (page ++ replicate
                (Z.to_nat (Z.max 0 (content_h - Z.of_nat (length page))))
                [])
  end.

Definition _render_page (dual_mode : bool) (size : option (Z * Z))
           (pages : list (list str)) (page_idx : nat) : option str :=
  join [NEWLINE] <$> _render_rows dual_mode size pages page_idx.

End Layout.

End Paginator.

(** ** The translation cache table ([database.py]) *)

Module Database.

(** A row of [translation_cache], keyed by [hash].  The column
    [created_at] holds the wall-clock time of the write and is left out. *)
Record CacheRow := mkCacheRow {
  source_text : str;
  translated_text : str;
  target_lang : str;
  provider : str
}.

Definition get_cached_translation (db : gmap str CacheRow) (text_hash : str)
  : option str :=
  translated_text <$> db !! text_hash.

(** [INSERT OR REPLACE] *)
Definition cache_translation (db : gmap str CacheRow)
           (text_hash source_text translated_text target_lang provider : str)
  : gmap str CacheRow :=
  <[text_hash := mkCacheRow source_text translated_text target_lang provider]> db.

End Database.

(** ** The translation engine ([engine.py]) *)

Module Engine.

Definition DASHES : str := lit "---".
Definition BATCH_SEPARATOR : str := [NEWLINE] ++ DASHES ++ [NEWLINE].
Definition BATCH_MAX_PARAGRAPHS : nat := 20.

Record TranslationProviderConfig := mkProvider {
  name : str;
  api_key : str;
  base_url : str;
  model : str
}.

(** The exceptions that come out of the engine: [RuntimeError], which
    [_call_api] raises itself, and those the request can end in. *)
Inductive exn :=
| RuntimeError
| HTTPStatusError | RequestError | KeyError | IndexError
| JSONDecodeError | TypeError | AttributeError.

(** What the [try] block of [_call_api] ends in: the text
    [data["choices"][0]["message"]["content"]] of the response, or an
    exception (of the POST, of [raise_for_status], of [resp.json()] or
    of picking the content out of the decoded body). *)
Inductive reply :=
| Answered (content : str)
| Failed (e : exn).

(** The exceptions [_call_api] has an [except] clause for; each clause
    raises a [RuntimeError].  Any other exception passes through. *)
Definition converted (e : exn) : bool :=
  match e with
  | HTTPStatusError | KeyError | IndexError | RequestError => true
  | _ => false
  end.

Inductive outcome (A : Type) :=
| Returns (a : A)
| Raises (e : exn).
Arguments Returns {A} a.
Arguments Raises {A} e.

(** What an observer of the engine sees happen, in order (ghost state). *)
Inductive event :=
| ERequest (system_prompt text : str)   (* the POST of [_call_api] *)
| ECached (text_hash : str) (row : Database.CacheRow)
                                        (* a [cache_translation] call *)
| EProgress (done total : nat)          (* [on_progress(done, total)] *)
| ECancelSeen.                          (* [self._cancel] was read as true *)

(** The engine and its surroundings.  [suspensions] counts the points
    passed so far at which other code may have run (an [await], or the
    caller's progress callback); [events] is the ghost log. *)
Record World := mkWorld {
  cache : gmap str Database.CacheRow;
  _cancel : bool;
  suspensions : nat;
  events : list event
}.

Definition M (A : Type) : Type := World -> outcome A * World.

Definition ret {A} (a : A) : M A := fun w => (Returns a, w).
Definition raise {A} (e : exn) : M A := fun w => (Raises e, w).
Definition bind {A B} (m : M A) (k : A -> M B) : M B :=
  fun w =>
    match m w with
    | (Returns a, w') => k a w'
    | (Raises e, w') => (Raises e, w')
    end.

Notation "x <- m ;; k" := (bind m (fun x => k))
  (at level 62, m at next level, right associativity).
Notation "m ;;; k" := (bind m (fun _ => k))
  (at level 62, right associativity).

Definition log (e : event) : M unit :=
  fun w => (Returns tt,
            mkWorld (cache w) (_cancel w) (suspensions w) (events w ++ [e])).

Section Engine.

(** [hashlib.sha256(raw.encode()).hexdigest()] *)
Variable sha256_hexdigest : str -> str.

(** [self._config.get_active_provider()] and
    [self._config.translate_target_lang] *)
Variable provider : option TranslationProviderConfig.
Variable target_lang : str.

(** The HTTP exchange of [_call_api] with the configured provider,
    for a system prompt and a text. *)
Variable http_post : str -> str -> reply.

(** What the rest of the program does to the cancellation flag while
    this coroutine is suspended for the [k]-th time: [cancel()] makes
    it true, [reset_cancel()] false. *)
Variable interference : nat -> bool -> bool.

Definition suspend : M unit :=
  fun w => (Returns tt,
            mkWorld (cache w) (interference (suspensions w) (_cancel w))
                    (S (suspensions w)) (events w)).

Definition cancel : M unit :=
  fun w => (Returns tt, mkWorld (cache w) true (suspensions w) (events w)).

Definition reset_cancel : M unit :=
  fun w => (Returns tt, mkWorld (cache w) false (suspensions w) (events w)).

Definition read_cancel : M bool := fun w => (Returns (_cancel w), w).

Definition _make_hash (text target_lang : str) : str :=
  take 20 (sha256_hexdigest (text ++ lit ":" ++ target_lang)).

(** [is_translated], [get_cached] and [count_translated] only read the
    cache table. *)
Definition is_translated_in (db : gmap str Database.CacheRow) (text : str)
  : bool :=
  if blank text then true
  else
    match Database.get_cached_translation db (_make_hash text target_lang) with
    | Some _ => true
    | None => false
    end.

Definition get_cached_in (db : gmap str Database.CacheRow) (text : str)
  : option str :=
  if blank text then Some []
  else Database.get_cached_translation db (_make_hash text target_lang).

Fixpoint count_translated_in (db : gmap str Database.CacheRow)
         (paragraphs : list str) : nat :=
  match paragraphs with
  | [] => O
  | p :: rest =>
      ((if is_translated_in db p then 1 else 0)
       + count_translated_in db rest)%nat
  end.

Definition get_cached (text : str) : M (option str) :=
  fun w => (Returns (get_cached_in (cache w) text), w).

Definition db_cache_translation
           (text_hash source_text translated_text target_lang provider : str)
  : M unit :=
  fun w =>
    let row :=
      Database.mkCacheRow source_text translated_text target_lang provider in
    (Returns tt,
     mkWorld (Database.cache_translation (cache w) text_hash source_text
                translated_text target_lang provider)
             (_cancel w) (suspensions w)
             (events w ++ [ECached text_hash row])).

Definition default_prompt : str :=
  lit "You are a professional translator. Translate the following text to "
  ++ target_lang
  ++ lit ". Preserve the original meaning, tone, and style. Only output the translation, nothing else.".

Definition _call_api (text : str) (system_prompt : option str) : M str :=
  match provider with
  | None => raise RuntimeError
  | Some p =>
      let system_prompt := default default_prompt system_prompt in
      log (ERequest system_prompt text) ;;;
      suspend ;;;
      match http_post system_prompt text with
      | Answered content => ret (strip content)
      | Failed e => if converted e then raise RuntimeError else raise e
      end
  end.

Definition batch_prompt (n : nat) : str :=
  lit "Translate each paragraph to " ++ target_lang
  ++ lit ". Paragraphs are separated by '---'. Output translations in the same order, separated by '---'. Keep exactly "
  ++ str_of_nat n
  ++ lit " translated paragraphs. Only output translations, no explanations.".

Definition _call_api_batch (texts : list str) : M (list str) :=
  let combined := join BATCH_SEPARATOR texts in
  let prompt := batch_prompt (length texts) in
  result <- _call_api combined (Some prompt) ;;
  let parts := map strip (split DASHES result) in
  let parts :=
    if (length parts <? length texts)%nat
    then parts ++ replicate (length texts - length parts) []
    else parts in
  ret (take (length texts) parts).

Definition provider_name : str :=
  match provider with
  | Some p => name p
  | None => lit "unknown"
  end.

(** The loop [for j, idx in enumerate(indices)] that stores a batch:
    it is written out three times in the source, with [results] a list
    of optional strings in [translate_batch] ([inj := Some]) and a list
    of strings in [translate_all] ([inj := id]). *)
Fixpoint store_batch {A} (inj : str -> A) (paragraphs : list str)
         (translated : list str) (j : nat) (indices : list nat)
         (results : list A) : M (list A) :=
  match indices with
  | [] => ret results
  | idx :: rest =>
      let trans :=
        if (j <? length translated)%nat then nth j translated [] else [] in
      let results := <[idx := inj trans]> results in
      db_cache_translation
        (_make_hash (nth idx paragraphs []) target_lang)
        (nth idx paragraphs []) trans target_lang provider_name ;;;
      store_batch inj paragraphs translated (S j) rest results
  end.

(** The first loop of [translate_batch]. *)
Fixpoint batch_scan (i : nat) (paras : list str)
         (results : list (option str))
         (uncached_indices : list nat) (uncached_texts : list str)
  : M (list (option str) * list nat * list str) :=
  match paras with
  | [] => ret (results, uncached_indices, uncached_texts)
  | para :: rest =>
      if blank para
      then batch_scan (S i) rest (<[i := Some []]> results)
                      uncached_indices uncached_texts
      else
        cached <- get_cached para ;;
        match cached with
        | Some c =>
            batch_scan (S i) rest (<[i := Some c]> results)
                       uncached_indices uncached_texts
        | None =>
            batch_scan (S i) rest results
                       (uncached_indices ++ [i]) (uncached_texts ++ [para])
        end
  end.

Definition translate_batch (paragraphs : list str) : M (list str) :=
  let results := replicate (length paragraphs) None in
  scanned <- batch_scan O paragraphs results [] [] ;;
  let '(results, uncached_indices, uncached_texts) := scanned in
  results <-
    match uncached_texts with
    | [] => ret results
    | _ =>
        translated_parts <- _call_api_batch uncached_texts ;;
        store_batch Some paragraphs translated_parts O
                    uncached_indices results
    end ;;
  ret (map (fun r => default [] r) results).

(** The first loop of [translate_all]. *)
Fixpoint all_cached (i : nat) (paras : list str)
         (results : list str) (done : nat) : M (list str * nat) :=
  match paras with
  | [] => ret (results, done)
  | para :: rest =>
      cached <- get_cached para ;;
      match cached with
      | Some c => all_cached (S i) rest (<[i := c]> results) (S done)
      | None => all_cached (S i) rest results done
      end
  end.

(** [if on_progress: on_progress(done, total)]; the callback is the
    caller's code and may touch the flag. *)
Definition report (on_progress : bool) (done total : nat) : M unit :=
  if on_progress then log (EProgress done total) ;;; suspend else ret tt.

Record locals := mkLocals {
  results : list str;
  done : nat;
  batch_indices : list nat;
  batch_texts : list str
}.

(** One chunk: the call, the stores, the progress report. *)
Definition dispatch (on_progress : bool) (paragraphs : list str)
           (total : nat) (st : locals) : M locals :=
  translated <- _call_api_batch (batch_texts st) ;;
  results <- store_batch id paragraphs translated O
                         (batch_indices st) (results st) ;;
  let done := (done st + length (batch_indices st))%nat in
  report on_progress done total ;;;
  ret (mkLocals results done (batch_indices st) (batch_texts st)).

(** The second loop of [translate_all]; the result is the locals at
    loop exit (by exhaustion or by [break]). *)
Fixpoint all_loop (on_progress : bool) (paragraphs : list str)
         (total : nat) (i : nat) (paras : list str) (st : locals)
  : M locals :=
  match paras with
  | [] => ret st
  | para :: rest =>
      c <- read_cancel ;;
      if c then log ECancelSeen ;;; ret st
      else if negb (bool_decide (nth i (results st) [] = []))
      then all_loop on_progress paragraphs total (S i) rest st
      else if blank para
      then all_loop on_progress paragraphs total (S i) rest
             (mkLocals (<[i := []]> (results st)) (S (done st))
                       (batch_indices st) (batch_texts st))
      else
        let st := mkLocals (results st) (done st)
                           (batch_indices st ++ [i])
                           (batch_texts st ++ [para]) in
        if (BATCH_MAX_PARAGRAPHS <=? length (batch_texts st))%nat
        then
          st <- dispatch on_progress paragraphs total st ;;
          let st := mkLocals (results st) (done st) [] [] in
          suspend ;;;
          all_loop on_progress paragraphs total (S i) rest st
        else all_loop on_progress paragraphs total (S i) rest st
  end.

Definition translate_all (paragraphs : list str) (on_progress : bool)
  : M (list str) :=
  let results0 := replicate (length paragraphs) [] in
  let total := length paragraphs in
  resolved <- all_cached O paragraphs results0 O ;;
  let '(results0, done0) := resolved in
  report on_progress done0 total ;;;
  st <- all_loop on_progress paragraphs total O paragraphs
                 (mkLocals results0 done0 [] []) ;;
  match batch_texts st with
  | [] => ret (results st)
  | _ =>
      c <- read_cancel ;;
      if c then log ECancelSeen ;;; ret (results st)
      else
        st <- dispatch on_progress paragraphs total st ;;
        ret (results st)
  end.

End Engine.

End Engine.

(** ** Bilingual export ([reader_screen.py]) *)

Module Reader.

Record Book := mkBook {
  id : str;
  file_path : str;
  book_title : str
}.

Record BookContent := mkBookContent {
  metadata : Book;
  chapters : list Paginator.Chapter;
  toc : list (Z * str)
}.

Inductive severity := Information | Warning | Error.

(** What the export can touch: the files on disk and the notifications
    shown to the user. *)
Record Outside := mkOutside {
  files : gmap str str;
  notifications : list (str * severity)
}.

Section Bilingual.

Variable sha256_hexdigest : str -> str.
Variable target_lang : str.

(** The translation cache at the time of the action. *)
Variable db : gmap str Database.CacheRow.

(** [pathlib]: [Path(p).parent / name], [Path(p).stem], [Path(p).name]. *)
Variable path_sibling : str -> str -> str.
Variable path_stem : str -> str.
Variable path_name : str -> str.

Variable _book : Book.
Variable _content : option BookContent.

Definition _all_paragraphs : list str :=
  match _content with
  | None => []
  | Some content => concat (map Paginator.paragraphs (chapters content))
  end.

Definition _total_paragraph_count : nat :=
  match _content with
  | None => O
  | Some content =>
      foldr (fun ch acc => (length (Paginator.paragraphs ch) + acc)%nat) O
            (chapters content)
  end.

Definition _translated_count : nat :=
  match _content with
  | None => O
  | Some _ =>
      Engine.count_translated_in sha256_hexdigest target_lang db
                                 _all_paragraphs
  end.

Definition notify (message : str) (sev : severity) (o : Outside) : Outside :=
  mkOutside (files o) (notifications o ++ [(message, sev)]).

Definition write_text (path text : str) (o : Outside) : Outside :=
  mkOutside (<[path := text]> (files o)) (notifications o).

(** ['=' * 60] *)
Definition RULE : str := replicate 60 61%N.

(** The entries one paragraph adds to [parts]. *)
Definition paragraph_parts (para : str) : list str :=
  [para]
  ++ match Engine.get_cached_in sha256_hexdigest target_lang db para with
     | Some cached =>
         if bool_decide (cached = []) then []
         else [Paginator.TRANS_PREFIX ++ cached]
     | None => []
     end
  ++ [[]].

Definition chapter_parts (ch : Paginator.Chapter) : list str :=
  [RULE; Paginator.title ch; RULE ++ [NEWLINE]]
  ++ concat (map paragraph_parts (Paginator.paragraphs ch)).

Definition export_parts (content : BookContent) : list str :=
  concat (map chapter_parts (chapters content)).

Definition export_path : str :=
  path_sibling (file_path _book)
               (path_stem (file_path _book) ++ lit "_bilingual.txt").

Definition _do_export (o : Outside) : Outside :=
  match _content with
  | None => o
  | Some content =>
      let o := write_text export_path
                          (join [NEWLINE] (export_parts content)) o in
      notify (lit "Exported: " ++ path_name export_path) Information o
  end.

Definition incomplete_message (done total : nat) : str :=
  lit "Translation incomplete: " ++ str_of_nat done ++ lit "/"
  ++ str_of_nat total ++ lit " ("
  ++ str_of_nat (done * 100 / Nat.max 1 total) ++ lit "%)".

Definition action_export_bilingual (o : Outside) : Outside :=
  match _content with
  | None => o
  | Some _ =>
      let total := _total_paragraph_count in
      let done := _translated_count in
      if (done <? total)%nat
      then notify (incomplete_message done total) Warning o
      else _do_export o
  end.

End Bilingual.

End Reader.

(** ** Deleting a book ([library_screen.py]) *)

Module Library.

(** The library screen with the book table of the database behind it. *)
Record Screen := mkScreen {
  books : gmap str Reader.Book;
  table_rows : list str;
  notifications : list str
}.

(** A statement maps the state to the new state and tells whether the
    enclosing function has executed [return]. *)
Definition stmt : Type := Screen -> Screen * bool.

Definition skip : stmt := fun s => (s, false).
Definition return_ : stmt := fun s => (s, true).
Definition seq (a b : stmt) : stmt :=
  fun s => let '(s', returned) := a s in
           if returned then (s', true) else b s'.
Definition if_ (c : bool) (a b : stmt) : stmt := if c then a else b.
Definition call (body : stmt) (s : Screen) : Screen := fst (body s).

Notation "a ;;; b" := (seq a b) (at level 62, right associativity).

Section Delete.

(** [db.list_books(order_by=...)]: the ids in the order of the query. *)
Variable list_books : gmap str Reader.Book -> list str.

Definition get_book (s : Screen) (book_id : str) : option Reader.Book :=
  books s !! book_id.

Definition remove_book (book_id : str) : stmt :=
  fun s => (mkScreen (delete book_id (books s)) (table_rows s)
                     (notifications s), false).

Definition _refresh_books : stmt :=
  fun s => (mkScreen (books s) (list_books (books s)) (notifications s),
            false).

Definition notify (message : str) : stmt :=
  fun s => (mkScreen (books s) (table_rows s) (notifications s ++ [message]),
            false).

(** [not confirmed] for [confirmed : bool | None] *)
Definition falsy (confirmed : option bool) : bool :=
  match confirmed with
  | Some true => false
  | _ => true
  end.

(** The statements after [return] sit inside the [if], as in the
    source. *)
Definition _on_delete_confirmed (confirmed : option bool) (book_id : str)
  : stmt :=
  if_ (falsy confirmed)
      (return_ ;;;
       (fun s =>
          let book := get_book s book_id in
          let title :=
            match book with
            | Some b => Reader.book_title b
            | None => book_id
            end in
          (remove_book book_id ;;;
           _refresh_books ;;;
           notify (lit "Removed: " ++ title)) s))
      skip.

(** [str(row_key)] for the row key of Textual's table, given by the
    value it was made with (the book id, in [_refresh_books]). *)
Variable row_key_str : str -> str.

(** [action_delete_book] with the row under the cursor ([None] for an
    empty table) and the answer the confirmation dialog is dismissed
    with.  The book is looked up under [str(row_key)], not under
    [row_key.value]. *)
Definition action_delete_book (cursor : option str)
           (answer : option bool) : stmt :=
  match cursor with
  | None => return_
  | Some row_key =>
      fun s =>
        match get_book s (row_key_str row_key) with
        | None => return_ s
        | Some book =>
            _on_delete_confirmed answer (Reader.id book) s
        end
  end.

End Delete.

End Library.

(** ** The reader session ([reader_screen.py]): cursor and navigation *)

Module Session.

(** [l[i]] for a Python integer index: a negative index counts from the
    end; [None] is an [IndexError]. *)
Definition py_index {A} (l : list A) (i : Z) : option A :=
  if 0 <=? i then l !! Z.to_nat i
  else if - Z.of_nat (length l) <=? i
       then l !! Z.to_nat (Z.of_nat (length l) + i)
       else None.

(** The fields of [ReaderScreen] that navigation reads and writes,
    together with what it leaves behind outside the object:
    [cancel_flag] is [translator._cancel]; [progress] is the chapter
    index and scroll offset of the row last handed to
    [db.save_progress] (its fraction and time stamp are floating-point
    values and are left out); [prefetches] counts the background tasks
    started by [_translate_current_and_prefetch]; [notifications] are
    the messages given to [notify].  What is drawn on the screen is not
    part of the state; the drawing code is kept as far as it can raise:
    an action gives [None] when it raises, by a subscript out of range
    ([IndexError]) or by the division in the header's percentage
    ([ZeroDivisionError]). *)
Record State := mkState {
  _chapter_idx : Z;
  _page_idx : Z;
  _pages : list (list str);
  _page_para_ranges : list (nat * nat);
  _dual_mode : bool;
  _line_spacing : Z;
  _loaded : bool;
  _translate_mode : bool;
  cancel_flag : bool;
  progress : option (Z * Z);
  prefetches : nat;
  notifications : list (str * Reader.severity)
}.

Definition set_cursor (chapter_idx page_idx : Z) (s : State) : State :=
  mkState chapter_idx page_idx (_pages s) (_page_para_ranges s)
          (_dual_mode s) (_line_spacing s) (_loaded s) (_translate_mode s)
          (cancel_flag s) (progress s) (prefetches s) (notifications s).

Definition set_pages (pages : list (list str)) (ranges : list (nat * nat))
           (s : State) : State :=
  mkState (_chapter_idx s) (_page_idx s) pages ranges
          (_dual_mode s) (_line_spacing s) (_loaded s) (_translate_mode s)
          (cancel_flag s) (progress s) (prefetches s) (notifications s).

Definition set_layout (dual_mode : bool) (line_spacing : Z) (s : State)
  : State :=
  mkState (_chapter_idx s) (_page_idx s) (_pages s) (_page_para_ranges s)
          dual_mode line_spacing (_loaded s) (_translate_mode s)
          (cancel_flag s) (progress s) (prefetches s) (notifications s).

Definition set_loaded (loaded : bool) (s : State) : State :=
  mkState (_chapter_idx s) (_page_idx s) (_pages s) (_page_para_ranges s)
          (_dual_mode s) (_line_spacing s) loaded (_translate_mode s)
          (cancel_flag s) (progress s) (prefetches s) (notifications s).

Definition set_translate (translate_mode cancel : bool) (s : State) : State :=
  mkState (_chapter_idx s) (_page_idx s) (_pages s) (_page_para_ranges s)
          (_dual_mode s) (_line_spacing s) (_loaded s) translate_mode
          cancel (progress s) (prefetches s) (notifications s).

Definition notify (message : str) (sev : Reader.severity) (s : State)
  : State :=
  mkState (_chapter_idx s) (_page_idx s) (_pages s) (_page_para_ranges s)
          (_dual_mode s) (_line_spacing s) (_loaded s) (_translate_mode s)
          (cancel_flag s) (progress s) (prefetches s)
          (notifications s ++ [(message, sev)]).

(** [is_configured] of the translation engine ([engine.py]). *)
Definition is_configured (provider : option Engine.TranslationProviderConfig)
  : bool :=
  match provider with
  | None => false
  | Some p =>
      if bool_decide (Engine.name p = lit "ollama")
      then negb (bool_decide (Engine.base_url p = []))
      else negb (bool_decide (Engine.api_key p = []))
           && negb (bool_decide (Engine.base_url p = []))
  end.

(** The labels [_update_header] picks from by [_line_spacing]. *)
Definition SPACING_LABELS : list str :=
  [lit "Compact"; lit "Normal"; lit "Wide"; lit "X-Wide"].

Section Navigation.

Variable east_asian_wide : char -> bool.
Variable textwrap_wrap : str -> Z -> list str.
Variable sha256_hexdigest : str -> str.
Variable target_lang : str.

(** The translation cache, the size of the content widget and the
    provider configuration at the time of the action. *)
Variable db : gmap str Database.CacheRow.
Variable size : option (Z * Z).
Variable provider : option Engine.TranslationProviderConfig.

(** [self.bw.config.translate_provider] *)
Variable translate_provider : str.

(** [self._content]: set once by [_load_book]. *)
Variable _content : option Reader.BookContent.

Definition chapters : list Paginator.Chapter :=
  match _content with
  | Some content => Reader.chapters content
  | None => []
  end.

Definition current_chapter (s : State) : option Paginator.Chapter :=
  match _content with
  | Some content =>
      if (0 <=? _chapter_idx s)
         && (_chapter_idx s <? Z.of_nat (length (Reader.chapters content)))
      then Reader.chapters content !! Z.to_nat (_chapter_idx s)
      else None
  | None => None
  end.

Definition _reflow (s : State) : State :=
  let '(pages, ranges) :=
    Paginator._reflow east_asian_wide textwrap_wrap
      (Engine.get_cached_in sha256_hexdigest target_lang db)
      (_translate_mode s) (_dual_mode s) (_line_spacing s) size
      (current_chapter s) in
  set_pages pages ranges s.

(** The subscripts of [_render_page]:
    [self._pages[i] if i < len(self._pages) else ...]. *)
Definition page_at (s : State) (i : Z) : option (list str) :=
  if i <? Z.of_nat (length (_pages s)) then py_index (_pages s) i
  else Some [].

Definition _render_page (s : State) : option unit :=
  match _pages s with
  | [] => Some tt
  | _ =>
      if _dual_mode s then
        _ ← page_at s (_page_idx s);
        _ ← page_at s (_page_idx s + 1);
        Some tt
      else
        _ ← page_at s (_page_idx s);
        Some tt
  end.

(** [_update_header] as far as it can raise: the division
    [(self._page_idx + 1) / total_pages / total_ch], made whenever
    there is a page, and the subscript of the spacing labels. *)
Definition _update_header (s : State) : option unit :=
  match _content with
  | None => Some tt
  | Some content =>
      let total_ch := length (Reader.chapters content) in
      let total_pages := length (_pages s) in
      if (0 <? total_pages)%nat && (total_ch =? 0)%nat then None
      else
        _ ← py_index SPACING_LABELS (_line_spacing s);
        Some tt
  end.

(** [self._render_page(); self._update_header()] *)
Definition draw (s : State) : option State :=
  _ ← _render_page s;
  _ ← _update_header s;
  Some s.

Definition _reflow_and_render (s : State) : option State :=
  if negb (_loaded s) || negb (bool_decide (is_Some _content))
  then Some s
  else
    let s := _reflow s in
    let page_idx :=
      Z.max 0 (Z.min (_page_idx s) (Z.of_nat (length (_pages s)) - 1)) in
    let page_idx :=
      if _dual_mode s && negb (page_idx mod 2 =? 0)
      then Z.max 0 (page_idx - 1) else page_idx in
    draw (set_cursor (_chapter_idx s) page_idx s).

Definition _save_progress (s : State) : State :=
  match _content with
  | None => s
  | Some _ =>
      mkState (_chapter_idx s) (_page_idx s) (_pages s)
              (_page_para_ranges s) (_dual_mode s) (_line_spacing s)
              (_loaded s) (_translate_mode s) (cancel_flag s)
              (Some (_chapter_idx s, _page_idx s))
              (prefetches s) (notifications s)
  end.

Definition _translate_current_and_prefetch (s : State) : State :=
  if _translate_mode s
  then mkState (_chapter_idx s) (_page_idx s) (_pages s)
               (_page_para_ranges s) (_dual_mode s) (_line_spacing s)
               (_loaded s) (_translate_mode s) (cancel_flag s)
               (progress s) (S (prefetches s)) (notifications s)
  else s.

(** [if self._translate_mode: self._translate_current_and_prefetch()] *)
Definition prefetch_if_translating (s : State) : State :=
  if _translate_mode s then _translate_current_and_prefetch s else s.

Definition step (s : State) : Z := if _dual_mode s then 2 else 1.

Definition action_next_page (s : State) : option State :=
  let new_idx := _page_idx s + step s in
  if new_idx <? Z.of_nat (length (_pages s)) then
    s ← draw (set_cursor (_chapter_idx s) new_idx s);
    Some (prefetch_if_translating (_save_progress s))
  else if bool_decide (is_Some _content)
          && (_chapter_idx s <? Z.of_nat (length chapters) - 1) then
    s ← _reflow_and_render (set_cursor (_chapter_idx s + 1) 0 s);
    Some (prefetch_if_translating (_save_progress s))
  else Some s.

Definition action_prev_page (s : State) : option State :=
  let new_idx := _page_idx s - step s in
  if 0 <=? new_idx then
    s ← draw (set_cursor (_chapter_idx s) new_idx s);
    Some (_save_progress s)
  else if 0 <? _chapter_idx s then
    let s := set_cursor (_chapter_idx s - 1) (_page_idx s) s in
    let s := _reflow s in
    let last := Z.max 0 (Z.of_nat (length (_pages s)) - 1) in
    let last :=
      if _dual_mode s && negb (last mod 2 =? 0)
      then Z.max 0 (last - 1) else last in
    s ← draw (set_cursor (_chapter_idx s) last s);
    Some (_save_progress s)
  else Some s.

Definition action_next_chapter (s : State) : option State :=
  if bool_decide (is_Some _content)
     && (_chapter_idx s <? Z.of_nat (length chapters) - 1) then
    s ← _reflow_and_render (set_cursor (_chapter_idx s + 1) 0 s);
    Some (prefetch_if_translating (_save_progress s))
  else Some s.

Definition action_prev_chapter (s : State) : option State :=
  if 0 <? _chapter_idx s then
    s ← _reflow_and_render (set_cursor (_chapter_idx s - 1) 0 s);
    Some (_save_progress s)
  else Some s.

(** [on_toc_selected] with the chapter index stored in the item, and
    [on_bookmark_selected] with the bookmark's chapter index and
    scroll offset. *)
Definition on_toc_selected (ch_idx : Z) (s : State) : option State :=
  s ← _reflow_and_render (set_cursor ch_idx 0 s);
  Some (_save_progress s).

Definition on_bookmark_selected (chapter_index scroll_offset : Z)
           (s : State) : option State :=
  s ← _reflow_and_render (set_cursor chapter_index scroll_offset s);
  Some (_save_progress s).

(** [_after_load] with the row [db.get_progress] returned. *)
Definition _after_load (stored : option (Z * Z)) (s : State)
  : option State :=
  match _content with
  | None => Some s
  | Some _ =>
      let s :=
        match stored with
        | Some (chapter_index, scroll_offset) =>
            set_cursor (Z.min chapter_index (Z.of_nat (length chapters) - 1))
                       scroll_offset s
        | None => set_cursor 0 0 s
        end in
      _reflow_and_render (set_loaded true s)
  end.

Definition action_increase_spacing (s : State) : option State :=
  if _line_spacing s <? 3
  then _reflow_and_render (set_layout (_dual_mode s) (_line_spacing s + 1) s)
  else Some s.

Definition action_decrease_spacing (s : State) : option State :=
  if 0 <? _line_spacing s
  then _reflow_and_render (set_layout (_dual_mode s) (_line_spacing s - 1) s)
  else Some s.

Definition action_toggle_dual (s : State) : option State :=
  _reflow_and_render (set_layout (negb (_dual_mode s)) (_line_spacing s) s).

Definition on_resize (s : State) : option State := _reflow_and_render s.

(** [_get_page_paragraphs]; [None] is an [IndexError]. *)
Definition _get_page_paragraphs (s : State) (page_idx : Z)
  : option (list str) :=
  match current_chapter s with
  | None => Some []
  | Some chapter =>
      if Z.of_nat (length (_page_para_ranges s)) <=? page_idx then Some []
      else
        match py_index (_page_para_ranges s) page_idx with
        | None => None
        | Some (start, end_) =>
            Some (slice (Paginator.paragraphs chapter) start (end_ + 1))
        end
  end.

(** The pages [_do_translate_pages] collects paragraphs from. *)
Definition pages_to_translate (s : State) : list Z :=
  _page_idx s
    :: List.filter (fun nxt => nxt <? Z.of_nat (length (_pages s)))
                   [_page_idx s + 1; _page_idx s + 2].

Definition untranslated (para : str) : bool :=
  negb (Engine.is_translated_in sha256_hexdigest target_lang db para).

(** The loop of [_has_untranslated_before_current] over the earlier
    chapters: [Some true] when it returned [True], [Some false] when it
    ran through, [None] when [chapters[ci]] raised. *)
Fixpoint earlier_chapters (cis : list nat) : option bool :=
  match cis with
  | [] => Some false
  | ci :: rest =>
      match chapters !! ci with
      | None => None
      | Some ch =>
          if existsb untranslated (Paginator.paragraphs ch) then Some true
          else earlier_chapters rest
      end
  end.

(** Its loop over the first paragraphs of the current chapter. *)
Fixpoint earlier_paragraphs (paragraphs : list str) (pis : list nat)
  : option bool :=
  match pis with
  | [] => Some false
  | pi :: rest =>
      match paragraphs !! pi with
      | None => None
      | Some para =>
          if untranslated para then Some true
          else earlier_paragraphs paragraphs rest
      end
  end.

Definition _has_untranslated_before_current (s : State) : option bool :=
  match _content with
  | None => Some false
  | Some _ =>
      match earlier_chapters (seq 0 (Z.to_nat (_chapter_idx s))) with
      | None => None
      | Some true => Some true
      | Some false =>
          match py_index chapters (_chapter_idx s) with
          | None => None
          | Some ch =>
              let current_para_end :=
                if _page_idx s <? Z.of_nat (length (_page_para_ranges s))
                then fst <$> py_index (_page_para_ranges s) (_page_idx s)
                else Some O in
              match current_para_end with
              | None => None
              | Some current_para_end =>
                  earlier_paragraphs (Paginator.paragraphs ch)
                                     (seq 0 current_para_end)
              end
          end
      end
  end.

Definition not_configured_message : str :=
  lit "Provider ["
  ++ match provider with
     | Some p => Engine.name p
     | None => translate_provider
     end
  ++ lit "] not configured. Set API key in .env".

(** [action_toggle_translate]; [None] when it raised. *)
Definition action_toggle_translate (s : State) : option State :=
  if negb (is_configured provider)
  then Some (notify not_configured_message Reader.Error s)
  else if _translate_mode s then
    s ← _reflow_and_render (set_translate false true s);
    Some (notify (lit "Translation mode OFF") Reader.Information s)
  else
    let s := set_translate true (cancel_flag s) s in
    let s := notify (lit "Translation mode ON") Reader.Information s in
    has_gap ← _has_untranslated_before_current s;
    s ← (if has_gap : bool then
           s ← _reflow_and_render (set_cursor 0 0 s);
           Some (notify (lit "Jumped to start " ++ [8212%N]
                           ++ lit " untranslated content ahead")
                        Reader.Information (_save_progress s))
         else Some s);
    Some (_translate_current_and_prefetch
            (set_translate (_translate_mode s) false s)).

End Navigation.

End Session.

(** ** Choosing a parser ([parsers/base.py], [library_screen.py]) *)

Module Parsers.

Inductive parser :=
| EpubParser | PdfParser | DocxParser | MarkdownParser | TxtParser
| MobiParser.

Definition SUPPORTED_EXTENSIONS (p : parser) : list str :=
  match p with
  | EpubParser => [lit ".epub"]
  | PdfParser => [lit ".pdf"]
  | DocxParser => [lit ".docx"]
  | MarkdownParser => [lit ".md"; lit ".markdown"]
  | TxtParser => [lit ".txt"; lit ".text"]
  | MobiParser => [lit ".mobi"; lit ".azw"; lit ".azw3"]
  end.

(** The list [parsers] of [get_parser], in its order. *)
Definition parsers : list parser :=
  [EpubParser; PdfParser; DocxParser; MarkdownParser; TxtParser; MobiParser].

(** [BOOK_EXTENSIONS] of the file picker. *)
Definition BOOK_EXTENSIONS : list str :=
  [lit ".epub"; lit ".mobi"; lit ".pdf"; lit ".docx"; lit ".md"; lit ".txt"].

Section Dispatch.

(** [str.lower] *)
Variable lower : str -> str.

(** [can_handle] on [file_path.suffix] *)
Definition can_handle (p : parser) (suffix : str) : bool :=
  bool_decide (lower suffix ∈ SUPPORTED_EXTENSIONS p).

(** [get_parser] on [file_path.suffix]; [None] is the [ValueError]. *)
Definition get_parser (suffix : str) : option parser :=
  List.find (fun p => can_handle p suffix) parsers.

(** What [BookDirectoryTree.filter_paths] keeps. *)
Definition shown_in_picker (is_dir : bool) (suffix : str) : bool :=
  is_dir || bool_decide (lower suffix ∈ BOOK_EXTENSIONS).

End Dispatch.

End Parsers.

(** ** Vocabulary of the statements

    Notions the properties below are stated with; none of them is part of
    the program. *)

Module Terms.

(** [pre] glued in front of the first piece, [post] behind the last. *)
Definition cons_head (pre : str) (pieces : list str) : list str :=
  match pieces with
  | [] => []
  | p :: rest => (pre ++ p) :: rest
  end.

Fixpoint snoc_last (pieces : list str) (post : str) : list str :=
  match pieces with
  | [] => []
  | [p] => [p ++ post]
  | p :: rest => p :: snoc_last rest post
  end.

Section Batch.
Variable sha256_hexdigest : str -> str.
Variable provider : option Engine.TranslationProviderConfig.
Variable target_lang : str.

(** A paragraph [translate_batch] has to send out: not blank and not in
    the cache. *)
Definition is_miss (db : gmap str Database.CacheRow) (para : str) : bool :=
  negb (blank para) &&
  match Engine.get_cached_in sha256_hexdigest target_lang db para with
  | Some _ => false
  | None => true
  end.

Definition misses (db : gmap str Database.CacheRow) (paras : list str)
  : list str :=
  List.filter (is_miss db) paras.

(** The positions of the misses among [paras], counted from [i]. *)
Fixpoint miss_indices (db : gmap str Database.CacheRow) (i : nat)
         (paras : list str) : list nat :=
  match paras with
  | [] => []
  | para :: rest =>
      if is_miss db para then i :: miss_indices db (S i) rest
      else miss_indices db (S i) rest
  end.

(** How many misses come before position [i]. *)
Definition miss_rank (db : gmap str Database.CacheRow) (paras : list str)
           (i : nat) : nat :=
  length (misses db (take i paras)).

(** The rows one stored batch writes, in order. *)
Fixpoint written_rows (paragraphs translated : list str) (j : nat)
         (indices : list nat) : list (str * Database.CacheRow) :=
  match indices with
  | [] => []
  | idx :: rest =>
      let para := nth idx paragraphs [] in
      (Engine._make_hash sha256_hexdigest para target_lang,
       Database.mkCacheRow para (nth j translated []) target_lang
                           (Engine.provider_name provider))
        :: written_rows paragraphs translated (S j) rest
  end.

Definition apply_rows (db : gmap str Database.CacheRow)
           (rows : list (str * Database.CacheRow))
  : gmap str Database.CacheRow :=
  foldl (fun db row => <[row.1 := row.2]> db) db rows.

Definition cached_events (rows : list (str * Database.CacheRow))
  : list Engine.event :=
  map (fun row => Engine.ECached row.1 row.2) rows.

(** The segments of a response as [_call_api_batch] reads them. *)
Definition segments (content : str) : list str :=
  map strip (split Engine.DASHES (strip content)).

(** [parts] padded with empty strings or cut to [n] entries. *)
Definition fit (n : nat) (parts : list str) : list str :=
  take n (parts ++ replicate (n - length parts) []).

(** [results] after a batch has been stored into it. *)
Fixpoint stored {A} (inj : str -> A) (translated : list str) (j : nat)
         (indices : list nat) (results : list A) : list A :=
  match indices with
  | [] => results
  | idx :: rest =>
      stored inj translated (S j) rest
             (<[idx := inj (nth j translated [])]> results)
  end.

(** [results] after the first loop of [translate_batch]. *)
Fixpoint scanned (db : gmap str Database.CacheRow) (i : nat)
         (paras : list str) (results : list (option str))
  : list (option str) :=
  match paras with
  | [] => results
  | para :: rest =>
      if blank para then scanned db (S i) rest (<[i := Some []]> results)
      else
        match Engine.get_cached_in sha256_hexdigest target_lang db para with
        | Some c => scanned db (S i) rest (<[i := Some c]> results)
        | None => scanned db (S i) rest results
        end
  end.

(** What [translate_batch] owes position [i]: nothing for a blank
    paragraph, the cached text for a hit, and for a miss the segment of
    its rank, or nothing when the response has no such segment. *)
Definition expected (db : gmap str Database.CacheRow) (segs : list str)
           (paragraphs : list str) (i : nat) (para : str) : str :=
  if blank para then []
  else
    match Engine.get_cached_in sha256_hexdigest target_lang db para with
    | Some cached => cached
    | None => nth (miss_rank db paragraphs i) segs []
    end.

End Batch.

(** The request was answered. *)
Definition answered (r : Engine.reply) : Prop :=
  exists content, r = Engine.Answered content.

Section Trace.
Variable sha256_hexdigest : str -> str.
Variable provider : option Engine.TranslationProviderConfig.
Variable target_lang : str.
Variable http_post : str -> str -> Engine.reply.

(** The rows the store loop writes for a chunk of [texts], the text
    numbered [j] onwards getting entry [j] onwards of [translated]. *)
Fixpoint chunk_rows (translated : list str) (j : nat) (texts : list str)
  : list (str * Database.CacheRow) :=
  match texts with
  | [] => []
  | text :: rest =>
      (Engine._make_hash sha256_hexdigest text target_lang,
       Database.mkCacheRow text (nth j translated []) target_lang
                           (Engine.provider_name provider))
        :: chunk_rows translated (S j) rest
  end.

Definition is_request (e : Engine.event) : bool :=
  match e with
  | Engine.ERequest _ _ => true
  | _ => false
  end.

Definition progress_events (on_progress : bool) (done total : nat)
  : list Engine.event :=
  if on_progress then [Engine.EProgress done total] else [].

(** The cache after the writes among [evs]. *)
Definition replay (db : gmap str Database.CacheRow)
           (evs : list Engine.event) : gmap str Database.CacheRow :=
  foldl (fun db e =>
           match e with
           | Engine.ECached h row => <[h := row]> db
           | _ => db
           end) db evs.

(** A stretch of the log in which every chunk that was requested was
    answered and stored: progress reports and, per chunk of at most
    [BATCH_MAX_PARAGRAPHS] texts, the request followed by the cache
    writes of all its texts. *)
Inductive completed : list Engine.event -> Prop :=
| completed_nil : completed []
| completed_progress done total rest :
    completed rest -> completed (Engine.EProgress done total :: rest)
| completed_chunk texts content rest :
    texts <> [] ->
    (length texts <= Engine.BATCH_MAX_PARAGRAPHS)%nat ->
    http_post (Engine.batch_prompt target_lang (length texts))
              (join Engine.BATCH_SEPARATOR texts)
    = Engine.Answered content ->
    completed rest ->
    completed
      (Engine.ERequest (Engine.batch_prompt target_lang (length texts))
                       (join Engine.BATCH_SEPARATOR texts)
         :: cached_events
              (chunk_rows (fit (length texts) (segments content)) O texts)
         ++ rest).

End Trace.

(** The number of requests among [evs]. *)
Definition requests (evs : list Engine.event) : nat :=
  length (List.filter is_request evs).

(** [cancel()] is called during the await numbered [n], whatever the
    flag was, and [reset_cancel()] during no later one. *)
Definition cancel_sticks (interference : nat -> bool -> bool) (n : nat)
  : Prop :=
  (forall flag, interference n flag = true) /\
  (forall k, (n < k)%nat -> interference k true = true).

(** Once the await numbered [n] is over, the flag is set. *)
Definition cancelled_since (n : nat) (w : Engine.World) : Prop :=
  (n < Engine.suspensions w)%nat -> Engine._cancel w = true.

End Terms.

(** ** More vocabulary: results of [translate_all], the cursor *)

Module MoreTerms.

Section Resolved.
Variable sha256_hexdigest : str -> str.
Variable target_lang : str.

(** [results] after the first loop of [translate_all]. *)
Fixpoint resolved (db : gmap str Database.CacheRow) (i : nat)
         (paras : list str) (results : list str) : list str :=
  match paras with
  | [] => results
  | para :: rest =>
      match Engine.get_cached_in sha256_hexdigest target_lang db para with
      | Some c => resolved db (S i) rest (<[i := c]> results)
      | None => resolved db (S i) rest results
      end
  end.

(** A paragraph the second loop of [translate_all] puts in a batch:
    not blank, and with no result or an empty one after the first
    loop. *)
Definition to_send (db : gmap str Database.CacheRow) (para : str) : bool :=
  negb (blank para)
  && bool_decide
       (default [] (Engine.get_cached_in sha256_hexdigest target_lang
                                         db para) = []).

Fixpoint send_indices (db : gmap str Database.CacheRow) (i : nat)
         (paras : list str) : list nat :=
  match paras with
  | [] => []
  | para :: rest =>
      if to_send db para then i :: send_indices db (S i) rest
      else send_indices db (S i) rest
  end.

End Resolved.

(** The world with [evs] added to the log and nothing else changed. *)
Definition logged (w : Engine.World) (evs : list Engine.event)
  : Engine.World :=
  Engine.mkWorld (Engine.cache w) (Engine._cancel w) (Engine.suspensions w)
                 (Engine.events w ++ evs).

(** The cursor points at a page, and at an even one in dual-page mode. *)
Definition cursor_ok (s : Session.State) : Prop :=
  0 <= Session._page_idx s < Z.of_nat (length (Session._pages s)) /\
  (Session._dual_mode s = true -> Session._page_idx s mod 2 = 0).

(** A loaded reader whose cursor is on a page and whose line spacing
    is one of the four the header has a label for. *)
Definition well_formed (s : Session.State) : Prop :=
  cursor_ok s /\
  0 <= Session._line_spacing s <= 3 /\
  Session._loaded s = true.

(** What moves the reader: the keys bound to page, chapter, spacing
    and dual-page actions, a resize of the terminal, and a selection
    in the table of contents or in the bookmark list. *)
Inductive key :=
| KeyLeft | KeyRight | KeyComma | KeyFullStop
| KeyEquals | KeyMinus | KeyD
| Resized
| TocItem (ch_idx : Z)
| BookmarkItem (chapter_index scroll_offset : Z).

Section Keys.
Variable east_asian_wide : char -> bool.
Variable textwrap_wrap : str -> Z -> list str.
Variable sha256_hexdigest : str -> str.
Variable target_lang : str.
Variable db : gmap str Database.CacheRow.
Variable size : option (Z * Z).
Variable _content : option Reader.BookContent.

(** The header can be drawn: the book has a chapter and the line
    spacing a label. *)
Definition header_ok (s : Session.State) : Prop :=
  is_Some _content ->
  Session.chapters _content <> [] /\
  -4 <= Session._line_spacing s <= 3.

Definition press (k : key) (s : Session.State) : option Session.State :=
  match k with
  | KeyLeft => Session.action_prev_page east_asian_wide textwrap_wrap
                 sha256_hexdigest target_lang db size _content s
  | KeyRight => Session.action_next_page east_asian_wide textwrap_wrap
                  sha256_hexdigest target_lang db size _content s
  | KeyComma => Session.action_prev_chapter east_asian_wide textwrap_wrap
                  sha256_hexdigest target_lang db size _content s
  | KeyFullStop => Session.action_next_chapter east_asian_wide
                     textwrap_wrap sha256_hexdigest target_lang db size
                     _content s
  | KeyEquals => Session.action_increase_spacing east_asian_wide
                   textwrap_wrap sha256_hexdigest target_lang db size
                   _content s
  | KeyMinus => Session.action_decrease_spacing east_asian_wide
                  textwrap_wrap sha256_hexdigest target_lang db size
                  _content s
  | KeyD => Session.action_toggle_dual east_asian_wide textwrap_wrap
              sha256_hexdigest target_lang db size _content s
  | Resized => Session.on_resize east_asian_wide textwrap_wrap
                 sha256_hexdigest target_lang db size _content s
  | TocItem ch_idx =>
      Session.on_toc_selected east_asian_wide textwrap_wrap
        sha256_hexdigest target_lang db size _content ch_idx s
  | BookmarkItem chapter_index scroll_offset =>
      Session.on_bookmark_selected east_asian_wide textwrap_wrap
        sha256_hexdigest target_lang db size _content
        chapter_index scroll_offset s
  end.

End Keys.

(** [sep] between consecutive blocks of lines. *)
Fixpoint join_blocks {A} (sep : list A) (blocks : list (list A)) : list A :=
  match blocks with
  | [] => []
  | [b] => b
  | b :: rest => b ++ sep ++ join_blocks sep rest
  end.

Section Blocks.
Variable east_asian_wide : char -> bool.
Variable textwrap_wrap : str -> Z -> list str.
Variable get_cached : str -> option str.

(** The lines of one paragraph: its own, then in translate mode those
    of its cached translation when there is a non-empty one. *)
Definition paragraph_block (translate_mode : bool) (width : Z)
           (para : str) : list str :=
  Paginator._wrap_cjk east_asian_wide textwrap_wrap para width
  ++ (if translate_mode then
        match get_cached para with
        | Some cached =>
            if bool_decide (cached = []) then []
            else Paginator._wrap_cjk east_asian_wide textwrap_wrap
                   (Paginator.TRANS_PREFIX ++ cached) width
        | None => []
        end
      else []).

End Blocks.

End MoreTerms.

(** ** Sample data

    Concrete stand-ins for the parts of the runtime the development is
    parametric in, and small inputs, used to run the definitions. *)

Module Samples.

(** CJK ideographs, CJK punctuation and the fullwidth forms: a part of
    the wide ranges of the East-Asian-Width table. *)
Definition wide (c : char) : bool :=
  ((19968 <=? c) && (c <=? 40959) || (12288 <=? c) && (c <=? 12351)
   || (65281 <=? c) && (c <=? 65376))%N.

(** A wrapper that cuts every [width] characters: it meets the length
    bound of [textwrap.wrap] without its word breaking. *)
Fixpoint hard_wrap_fuel (fuel : nat) (text : str) (width : nat) : list str :=
  match fuel with
  | O => []
  | S fuel' =>
      match text with
      | [] => []
      | _ => take width text :: hard_wrap_fuel fuel' (drop width text) width
      end
  end.

Definition hard_wrap (text : str) (width : Z) : list str :=
  hard_wrap_fuel (length text) text (Z.to_nat width).

Definition no_cache (para : str) : option str := None.

(** U+4E2D, repeated. *)
Definition zhong (n : nat) : str := replicate n 20013%N.

Definition chapter_one_glyph : Paginator.Chapter :=
  Paginator.mkChapter 0 (lit "One") [zhong 1].

Definition chapter_ten_glyphs : Paginator.Chapter :=
  Paginator.mkChapter 0 (lit "Ten") [zhong 10].

Definition chapter_three : Paginator.Chapter :=
  Paginator.mkChapter 0 (lit "Three") [lit "ab"; zhong 2; lit "cd"].

(** A digest stand-in that keeps the text: distinct short texts get
    distinct hashes. *)
Definition plain_digest (raw : str) : str := raw.

Definition openai : Engine.TranslationProviderConfig :=
  Engine.mkProvider (lit "openai") (lit "sk-test")
                    (lit "https://api.openai.com/v1") (lit "gpt-4o-mini").

Definition zh : str := lit "zh-CN".

(** A provider that answers every request with [content], and one that
    cannot be reached. *)
Definition answer (content : str) : str -> str -> Engine.reply :=
  fun _ _ => Engine.Answered content.
Definition offline : str -> str -> Engine.reply :=
  fun _ _ => Engine.Failed Engine.RequestError.

(** Nobody touches the cancellation flag. *)
Definition quiet (k : nat) (flag : bool) : bool := flag.

(** [cancel()] is called during the suspension numbered [n]. *)
Definition cancel_at (n : nat) (k : nat) (flag : bool) : bool :=
  if (k =? n)%nat then true else flag.

Definition fresh : Engine.World := Engine.mkWorld ∅ false 0 [].

(** Three paragraphs to translate and a blank one. *)
Definition four_paragraphs : list str :=
  [lit "Hello"; lit " "; lit "World"; lit "Three"].

(** Two translations, the first with three hyphens inside (a dash as
    typeset in plain text), joined by the batch separator. *)
Definition dashed_translations : list str := [lit "a---b"; lit "c"].

(** Twenty-one paragraphs ["p0"] to ["p20"]: one full chunk and one more. *)
Definition twenty_one : list str :=
  map (fun n => lit "p" ++ str_of_nat n) (seq 0 21).

(** A book of one chapter with the one paragraph ["Hello"]. *)
Definition hello_book : Reader.Book :=
  Reader.mkBook (lit "b1") (lit "/books/hello.txt") (lit "Hello Book").

Definition hello_content : Reader.BookContent :=
  Reader.mkBookContent
    hello_book
    [Paginator.mkChapter 0 (lit "Ch") [lit "Hello"]]
    [(0, lit "Ch")].

(** The cache after a short response left ["Hello"] with the empty
    translation. *)
Definition hello_cached_empty : gmap str Database.CacheRow :=
  Database.cache_translation
    ∅ (Engine._make_hash plain_digest (lit "Hello") zh)
    (lit "Hello") [] zh (lit "openai").

(** The cache with a translation of ["Hello"]. *)
Definition hello_cached : gmap str Database.CacheRow :=
  Database.cache_translation
    ∅ (Engine._make_hash plain_digest (lit "Hello") zh)
    (lit "Hello") [20320; 22909]%N zh (lit "openai").

(** Path arithmetic on sample paths: the sibling keeps the directory
    ["/books/"], the stem drops it and the extension. *)
Definition sibling (path name : str) : str := take 7 path ++ name.
Definition stem (path : str) : str :=
  take (length path - 11) (drop 7 path).
Definition base_name (path : str) : str := drop 7 path.

Definition nothing_outside : Reader.Outside := Reader.mkOutside ∅ [].

(** A library that holds the one book and shows it. *)
Definition shelf : Library.Screen :=
  Library.mkScreen {[ lit "b1" := hello_book ]} [lit "b1"] [].

Definition shelf_order (books : gmap str Reader.Book) : list str :=
  (map_to_list books).*1.

(** [str] of an object whose class defines no [__str__]: the default
    representation, whatever the key's value; and a [str] that gives
    the value. *)
Definition key_repr (value : str) : str :=
  lit "<textual.widgets._data_table.RowKey object at 0x7f3a5c1d2e80>".

Definition key_value (value : str) : str := value.

End Samples.

(** ** More sample data *)

Module MoreSamples.

(** A world whose cache holds the translation of ["Hello"], and one in
    which [cancel()] has been called. *)
Definition hello_world : Engine.World :=
  Engine.mkWorld Samples.hello_cached false 0 [].

Definition cancelled : Engine.World := Engine.mkWorld ∅ true 0 [].

(** A provider whose reply is not JSON. *)
Definition garbled : str -> str -> Engine.reply :=
  fun _ _ => Engine.Failed Engine.JSONDecodeError.

(** A book of two chapters. *)
Definition two_chapters : Reader.BookContent :=
  Reader.mkBookContent
    Samples.hello_book
    [Paginator.mkChapter 0 (lit "One")
                         [lit "ab"; Samples.zhong 2; lit "cd"];
     Paginator.mkChapter 1 (lit "Two") [lit "Hello"]]
    [(0, lit "One"); (1, lit "Two")].

(** The book the text parser makes of an empty file. *)
Definition no_chapters : Reader.BookContent :=
  Reader.mkBookContent Samples.hello_book [] [].

(** A loaded reader on the first of three pages of the first chapter,
    one on the only page of the second chapter, and one whose stored
    page lies beyond the chapter. *)
Definition three_pages : Session.State :=
  Session.mkState 0 0 [[lit "a"]; [lit "b"]; [lit "c"]]
                  [(0, 0); (1, 1); (2, 2)]%nat
                  false 1 true false false None 0 [].

Definition second_chapter : Session.State :=
  Session.mkState 1 0 [[lit "Hello"]] [(0, 0)]%nat
                  false 1 true false false None 0 [].

Definition beyond : Session.State :=
  Session.mkState 0 7 [] [] true 1 true false false None 0 [].

(** Suffixes that are in lower case already. *)
Definition as_is (suffix : str) : str := suffix.

End MoreSamples.

(** * Properties of the pagination engine *)

Module PaginatorFacts.
Import Paginator.

(** *** [range] and slices *)

Lemma div_up_lt (n h k : nat) :
  (0 < h)%nat -> (k < (n + Nat.pred h) / h)%nat <-> (k * h < n)%nat.
Proof.
  intros Hh. split; intros Hk.
  - destruct (Nat.lt_ge_cases (k * h) n) as [|Hge]; [done|].
    exfalso. apply (Nat.lt_irrefl k).
    eapply Nat.lt_le_trans; [exact Hk|].
    apply Nat.lt_succ_r. apply Nat.Div0.div_lt_upper_bound; lia.
  - apply (Nat.div_le_lower_bound _ h (S k)); lia.
Qed.

Lemma range_step_lookup (n h k : nat) :
  (0 < h)%nat ->
  range_step n h !! k = if decide (k * h < n)%nat then Some (k * h)%nat else None.
Proof.
  intros Hh. unfold range_step. rewrite list_lookup_fmap.
  case_decide as Hk.
  - rewrite lookup_seq_lt; [done|]. by apply div_up_lt.
  - rewrite lookup_seq_ge; [done|].
    apply Nat.le_ngt. intros Hlt. apply Hk. by apply div_up_lt in Hlt.
Qed.

Lemma range_step_length_pos (n h : nat) :
  (0 < h)%nat -> (0 < n)%nat -> (0 < length (range_step n h))%nat.
Proof.
  intros Hh Hn. apply lookup_lt_is_Some.
  rewrite range_step_lookup by done. rewrite decide_True by lia. eauto.
Qed.

Lemma slice_length {A} (l : list A) (i h : nat) :
  length (slice l i (i + h)) = Nat.min h (length l - i).
Proof.
  unfold slice. rewrite length_take, length_drop.
  replace (i + h - i)%nat with h by lia. done.
Qed.

(** *** The page loop *)

Section Paginate.
Variables (all_lines : list str) (line_to_para : list nat) (h : nat).
Hypothesis h_pos : (0 < h)%nat.

Lemma paginate_nonempty :
  all_lines <> [] ->
  paginate all_lines line_to_para h =
    (map (fun i => slice all_lines i (i + h))
         (range_step (length all_lines) h),
     map (fun i => page_range line_to_para h i)
         (range_step (length all_lines) h)).
Proof.
  intros Hne. unfold paginate.
  assert (0 < length (range_step (length all_lines) h))%nat as Hpos.
  { apply range_step_length_pos; [done|]. destruct all_lines; simpl; [done|lia]. }
  destruct (range_step (length all_lines) h); simpl in *; [lia|done].
Qed.

Lemma paginate_empty :
  all_lines = [] ->
  paginate all_lines line_to_para h = ([[EMPTY_PAGE]], [(O, O)]).
Proof.
  intros ->. unfold paginate, range_step. simpl length.
  rewrite Nat.div_small by lia. done.
Qed.

Lemma paginate_page (k : nat) (page : list str) :
  all_lines <> [] ->
  (paginate all_lines line_to_para h).1 !! k = Some page ->
  (k * h < length all_lines)%nat /\
  page = slice all_lines (k * h) (k * h + h).
Proof.
  intros Hne. rewrite paginate_nonempty by done. simpl.
  rewrite list_lookup_fmap, range_step_lookup by done.
  case_decide; simpl; [|done]. intros [= <-]. done.
Qed.

Lemma paginate_pages_length :
  all_lines <> [] ->
  forall k, (k < length (paginate all_lines line_to_para h).1)%nat
            <-> (k * h < length all_lines)%nat.
Proof.
  intros Hne k. rewrite paginate_nonempty by done. simpl.
  rewrite length_map. rewrite <- lookup_lt_is_Some.
  rewrite range_step_lookup by done. case_decide; split; intros Hk; done.
Qed.

End Paginate.


(** *** Wrapping a chapter *)

Section Wrap.
Variable east_asian_wide : char -> bool.
Variable textwrap_wrap : str -> Z -> list str.
Variable get_cached : str -> option str.

Abbreviation _wrap_cjk := (_wrap_cjk east_asian_wide textwrap_wrap).
Abbreviation wrap_paragraph :=
  (wrap_paragraph east_asian_wide textwrap_wrap get_cached).
Abbreviation wrap_from := (wrap_from east_asian_wide textwrap_wrap get_cached).
Abbreviation _wrap_chapter :=
  (_wrap_chapter east_asian_wide textwrap_wrap get_cached).
Abbreviation _reflow := (_reflow east_asian_wide textwrap_wrap get_cached).

Lemma or_blank_length (lines : list str) : (1 <= length (or_blank lines))%nat.
Proof. destruct lines; simpl; lia. Qed.

Lemma _wrap_cjk_length (text : str) (width : Z) :
  (1 <= length (_wrap_cjk text width))%nat.
Proof.
  unfold Paginator._wrap_cjk.
  destruct (blank text); [simpl; lia|].
  destruct (isascii text); apply or_blank_length.
Qed.

(** Every line a paragraph contributes is attributed to its index, and
    there is at least one. *)
Lemma wrap_paragraph_spec tm ls width n i para :
  exists m, (1 <= m)%nat /\
    length (wrap_paragraph tm ls width n i para).1 = m /\
    (wrap_paragraph tm ls width n i para).2 = replicate m i.
Proof.
  unfold Paginator.wrap_paragraph.
  pose proof (_wrap_cjk_length para width) as Hw.
  set (wrapped := _wrap_cjk para width) in *.
  set (body :=
         if tm then
           match get_cached para with
           | Some cached =>
               if bool_decide (cached = []) then
                 (wrapped, replicate (length wrapped) i)
               else
                 (wrapped ++ _wrap_cjk (TRANS_PREFIX ++ cached) width,
                  replicate (length wrapped) i ++
                  replicate
                    (length (_wrap_cjk (TRANS_PREFIX ++ cached) width)) i)
           | None => (wrapped, replicate (length wrapped) i)
           end
         else (wrapped, replicate (length wrapped) i)).
  assert (exists m, (1 <= m)%nat /\ length body.1 = m /\
                    body.2 = replicate m i) as (m & Hm & Hl & Hr).
  { subst body. destruct tm; [|by exists (length wrapped)].
    destruct (get_cached para) as [cached|]; [|by exists (length wrapped)].
    case_bool_decide; [by exists (length wrapped)|].
    eexists (length wrapped + _)%nat. simpl.
    rewrite length_app, replicate_add. split; [lia|done]. }
  destruct body as [lines l2p]. simpl in *. subst l2p.
  destruct (Z.of_nat i <? Z.of_nat n - 1).
  - exists (m + Z.to_nat ls)%nat. simpl.
    rewrite length_app, length_replicate, replicate_add. split; [lia|].
    split; [lia|done].
  - exists m. done.
Qed.

Lemma wrap_from_lengths tm ls width n paras i :
  length (wrap_from tm ls width n i paras).1
  = length (wrap_from tm ls width n i paras).2.
Proof.
  revert i. induction paras as [|para rest IH]; intros i; simpl; [done|].
  destruct (wrap_paragraph_spec tm ls width n i para) as (m & _ & Hl & Hr).
  destruct (wrap_paragraph tm ls width n i para) as [l1 p1].
  specialize (IH (S i)).
  destruct (wrap_from tm ls width n (S i) rest) as [l2 p2].
  simpl in *. rewrite !length_app, Hr, length_replicate. lia.
Qed.

Lemma wrap_from_bounds tm ls width n paras i j x :
  (wrap_from tm ls width n i paras).2 !! j = Some x ->
  (i <= x < i + length paras)%nat.
Proof.
  revert i j. induction paras as [|para rest IH]; intros i j; simpl; [done|].
  destruct (wrap_paragraph_spec tm ls width n i para) as (m & _ & _ & Hr).
  destruct (wrap_paragraph tm ls width n i para) as [l1 p1].
  specialize (IH (S i)).
  destruct (wrap_from tm ls width n (S i) rest) as [l2 p2].
  simpl in *. subst p1. intros Hx.
  apply lookup_app_Some in Hx as [Hx | [_ Hx]].
  - apply lookup_replicate in Hx as [-> _]. lia.
  - apply IH in Hx. lia.
Qed.

Lemma wrap_from_sorted tm ls width n paras i a b x y :
  (a <= b)%nat ->
  (wrap_from tm ls width n i paras).2 !! a = Some x ->
  (wrap_from tm ls width n i paras).2 !! b = Some y ->
  (x <= y)%nat.
Proof.
  revert i a b.
  induction paras as [|para rest IH]; intros i a b Hab; simpl; [done|].
  destruct (wrap_paragraph_spec tm ls width n i para) as (m & _ & _ & Hr).
  destruct (wrap_paragraph tm ls width n i para) as [l1 p1].
  pose proof (wrap_from_bounds tm ls width n rest (S i)) as Hb.
  specialize (IH (S i)).
  destruct (wrap_from tm ls width n (S i) rest) as [l2 p2].
  simpl in *. subst p1. rewrite !lookup_app_Some, length_replicate.
  intros [Ha | [Hma Ha]] [Hb' | [Hmb Hb']].
  - apply lookup_replicate in Ha as [-> _].
    apply lookup_replicate in Hb' as [-> _]. done.
  - apply lookup_replicate in Ha as [-> _]. apply Hb in Hb'. lia.
  - apply lookup_replicate in Hb' as [_ Hlt]. lia.
  - eapply (IH (a - m)%nat (b - m)%nat); [lia|done..].
Qed.

Lemma wrap_from_covers tm ls width n paras i p :
  (i <= p < i + length paras)%nat ->
  exists j, (wrap_from tm ls width n i paras).2 !! j = Some p.
Proof.
  revert i. induction paras as [|para rest IH]; intros i; simpl; [lia|].
  destruct (wrap_paragraph_spec tm ls width n i para) as (m & Hm & _ & Hr).
  destruct (wrap_paragraph tm ls width n i para) as [l1 p1].
  specialize (IH (S i)).
  destruct (wrap_from tm ls width n (S i) rest) as [l2 p2].
  simpl in *. subst p1. intros Hp.
  destruct (decide (p = i)) as [->|Hne].
  - exists O. rewrite lookup_app_l by (rewrite length_replicate; lia).
    apply lookup_replicate. split; [done|lia].
  - destruct IH as [j Hj]; [lia|].
    exists (m + j)%nat. rewrite lookup_app_r by (rewrite length_replicate; lia).
    rewrite length_replicate. by replace (m + j - m)%nat with j by lia.
Qed.

Lemma wrap_from_nonempty tm ls width n para rest i :
  (wrap_from tm ls width n i (para :: rest)).1 <> [].
Proof.
  simpl.
  destruct (wrap_paragraph_spec tm ls width n i para) as (m & Hm & Hl & _).
  destruct (wrap_paragraph tm ls width n i para) as [l1 p1].
  destruct (wrap_from tm ls width n (S i) rest) as [l2 p2].
  simpl in *. destruct l1; simpl in *; [lia|done].
Qed.


Lemma dimensions_bounds (size : option (Z * Z)) :
  10 <= (_get_content_dimensions size).1 /\
  3 <= (_get_content_dimensions size).2.
Proof.
  unfold _get_content_dimensions.
  destruct size as [[width height]|]; simpl; [|lia].
  destruct (width - 4 <? 10) eqn:Hw; simpl; [lia|].
  destruct (height <? 3) eqn:Hh; simpl; lia.
Qed.

Lemma reflow_chapter tm dual ls size chapter :
  _reflow tm dual ls size (Some chapter) =
    let dims := _get_content_dimensions size in
    let wrapped :=
      _wrap_chapter tm ls chapter (page_width_of dual dims.1) in
    paginate wrapped.1 wrapped.2 (Z.to_nat (Z.max 3 dims.2)).
Proof.
  unfold Paginator._reflow.
  destruct (_get_content_dimensions size) as [w h]. simpl.
  by destruct (_wrap_chapter tm ls chapter (page_width_of dual w)).
Qed.

Lemma page_range_spec (l2p : list nat) (h i : nat) :
  (0 < h)%nat -> (i < length l2p)%nat ->
  exists x y,
    page_range l2p h i = (x, y) /\
    l2p !! i = Some x /\
    l2p !! Nat.min (i + h - 1) (length l2p - 1) = Some y.
Proof.
  intros Hh Hi. unfold page_range.
  destruct (lookup_lt_is_Some_2 l2p i Hi) as [x Hx].
  destruct (lookup_lt_is_Some_2 l2p (Nat.min (i + h - 1) (length l2p - 1)))
    as [y Hy]; [lia|].
  exists x, y. split; [|done].
  rewrite (proj2 (Z.ltb_lt _ _)) by lia.
  rewrite (proj2 (Z.leb_le _ _)) by lia. simpl.
  rewrite !nth_lookup, Hx. simpl. f_equal.
  replace (Z.to_nat _) with (Nat.min (i + h - 1) (length l2p - 1)) by lia.
  by rewrite Hy.
Qed.


Lemma reflow_pages_cases tm dual ls size chapter :
  let h := Z.to_nat (_get_content_dimensions size).2 in
  let pages := (_reflow tm dual ls size chapter).1 in
  pages = [[EMPTY_PAGE]] \/
  exists all_lines l2p,
    all_lines <> [] /\ pages = (paginate all_lines l2p h).1.
Proof.
  intros h pages. subst pages h.
  destruct (dimensions_bounds size) as [_ Hh].
  destruct chapter as [chapter|]; [|by left].
  rewrite reflow_chapter. cbv zeta.
  rewrite Z.max_r by done.
  set (wrapped := _wrap_chapter _ _ _ _).
  destruct (decide (wrapped.1 = [])) as [Hnil|Hne].
  - left. rewrite paginate_empty; [done|lia|done].
  - right. by exists wrapped.1, wrapped.2.
Qed.

(** C1 (as amended).  Every page [_reflow] produces holds between one
    and [viewportHeight] lines, and every page before the last holds
    exactly [viewportHeight] lines; the last page of a chapter may be
    shorter.  It is [_render_page] that fills the viewport: the rows it
    hands to the widget number exactly [viewportHeight], whatever page
    is shown. *)
Theorem reflow_pages_fill_viewport tm dual ls size chapter :
  let h := Z.to_nat (_get_content_dimensions size).2 in
  let pages := (_reflow tm dual ls size chapter).1 in
  pages <> [] /\
  (forall k page,
      pages !! k = Some page ->
      (1 <= length page <= h)%nat /\
      ((S k < length pages)%nat -> length page = h)) /\
  (forall page_idx,
      exists rows,
        _render_rows east_asian_wide dual size pages page_idx = Some rows /\
        length rows = h).
Proof.
  intros h pages.
  destruct (dimensions_bounds size) as [_ Hh].
  assert (0 < h)%nat as Hpos by (subst h; lia).
  assert (forall k page, pages !! k = Some page ->
            (1 <= length page <= h)%nat /\
            ((S k < length pages)%nat -> length page = h)) as Hpages.
  { intros k page Hk.
    destruct (reflow_pages_cases tm dual ls size chapter)
      as [Heq | (all_lines & l2p & Hne & Heq)];
      fold pages in Heq; fold h in Heq.
    - rewrite Heq in *. destruct k; simpl in Hk; [|done].
      injection Hk as <-. simpl. split; [subst h; lia|lia].
    - rewrite Heq in Hk |- *.
      apply paginate_page in Hk as [Hlt ->]; [|done..].
      rewrite slice_length. split; [lia|].
      intros Hnext. apply paginate_pages_length in Hnext; [|done..].
      simpl in Hnext. lia. }
  assert (pages <> []) as Hne.
  { destruct (reflow_pages_cases tm dual ls size chapter)
      as [Heq | (all_lines & l2p & Hne & Heq)];
      fold pages in Heq; fold h in Heq.
    - by rewrite Heq.
    - rewrite Heq, paginate_nonempty by done. simpl.
      pose proof (range_step_length_pos (length all_lines) h Hpos) as Hl.
      destruct all_lines; [done|]. simpl in Hl.
      destruct (range_step _ h); simpl in *; [lia|done]. }
  split; [done|]. split; [done|].
  intros page_idx. unfold _render_rows.
  destruct pages as [|p0 ps] eqn:Hps; [done|]. rewrite <- Hps in Hpages |- *.
  destruct (_get_content_dimensions size) as [cw ch] eqn:Hdims.
  simpl in h, Hh.
  destruct dual.
  - eexists. split; [done|]. by rewrite length_map, length_seq.
  - eexists. split; [done|].
    rewrite length_app, length_replicate.
    destruct (pages !! page_idx) as [page|] eqn:Hpage;
      cbn [default]; unfold id.
    + destruct (Hpages _ _ Hpage) as [Hlen _]. subst h.
      unfold str in *. lia.
    + subst h. cbn [length]. lia.
Qed.

End Wrap.

(** C1, as the specification words it, fails: at an 80x20 widget (a 76x20
    content area) a chapter of one short paragraph gives one page of one
    line, not of 20. *)
Lemma reflow_short_last_page :
  let pages :=
    (_reflow Samples.wide Samples.hard_wrap Samples.no_cache
             false false 1 (Some (80, 20))
             (Some Samples.chapter_one_glyph)).1 in
  (_get_content_dimensions (Some (80, 20))).2 = 20 /\
  pages = [[Samples.zhong 1]] /\
  ~ Forall (fun page => length page = 20%nat) pages.
Proof.
  split; [reflexivity|]. split; [reflexivity|].
  intros Hall. apply Forall_cons in Hall as [Hlen _]. discriminate Hlen.
Qed.

Lemma reflow_pages_fill_viewport_witness :
  let pages :=
    (_reflow Samples.wide Samples.hard_wrap Samples.no_cache
             false false 1 (Some (30, 3)) (Some Samples.chapter_three)).1 in
  pages !! 1%nat = Some [[]; lit "cd"] /\
  (1 <= length [[]; lit "cd"] <= 3)%nat /\
  exists rows,
    _render_rows Samples.wide false (Some (30, 3)) pages 1 = Some rows /\
    length rows = 3%nat.
Proof.
  pose proof (reflow_pages_fill_viewport Samples.wide Samples.hard_wrap
                Samples.no_cache false false 1 (Some (30, 3))
                (Some Samples.chapter_three)) as (_ & Hpages & Hrows).
  split; [reflexivity|]. split.
  - exact (proj1 (Hpages 1%nat [[]; lit "cd"] eq_refl)).
  - exact (Hrows 1%nat).
Defined.

(** *** Paragraph ranges *)

Section Ranges.
Variable east_asian_wide : char -> bool.
Variable textwrap_wrap : str -> Z -> list str.
Variable get_cached : str -> option str.

Abbreviation reflow := (_reflow east_asian_wide textwrap_wrap get_cached).

(** The ranges of a chapter with a paragraph: one per page start, read
    off a line index that is sorted and mentions every paragraph. *)
Lemma reflow_ranges_lookup tm dual ls size chapter :
  paragraphs chapter <> [] ->
  exists (l2p : list nat) (h : nat),
    (0 < h)%nat /\
    (forall a b x y, (a <= b)%nat ->
                     l2p !! a = Some x -> l2p !! b = Some y -> (x <= y)%nat) /\
    (forall p, (p < length (paragraphs chapter))%nat ->
               exists j, l2p !! j = Some p) /\
    forall k,
      (reflow tm dual ls size (Some chapter)).2 !! k =
        if decide (k * h < length l2p)%nat
        then Some (page_range l2p h (k * h)) else None.
Proof.
  intros Hparas. rewrite reflow_chapter. cbv zeta.
  destruct (dimensions_bounds size) as [_ Hh].
  set (width := page_width_of dual _).
  set (h := Z.to_nat _).
  assert (0 < h)%nat as Hpos by (subst h; lia).
  unfold _wrap_chapter.
  set (n := length (paragraphs chapter)).
  pose proof (wrap_from_lengths east_asian_wide textwrap_wrap get_cached
                tm ls width n (paragraphs chapter) O) as Hlen.
  pose proof (wrap_from_sorted east_asian_wide textwrap_wrap get_cached
                tm ls width n (paragraphs chapter) O) as Hsorted.
  pose proof (wrap_from_covers east_asian_wide textwrap_wrap get_cached
                tm ls width n (paragraphs chapter) O) as Hcov.
  assert ((wrap_from east_asian_wide textwrap_wrap get_cached
             tm ls width n O (paragraphs chapter)).1 <> []) as Hne.
  { destruct (paragraphs chapter) as [|para rest]; [done|].
    apply wrap_from_nonempty. }
  destruct (wrap_from east_asian_wide textwrap_wrap get_cached
              tm ls width n O (paragraphs chapter)) as [lines l2p].
  simpl in *. exists l2p, h. split; [done|]. split; [done|]. split.
  { intros p Hp. apply Hcov. subst n. lia. }
  intros k. rewrite paginate_nonempty by done. simpl.
  rewrite list_lookup_fmap, range_step_lookup, Hlen by done.
  by case_decide.
Qed.

(** C2.  For a chapter with at least one paragraph, each page range
    [(start, end)] of [_reflow] has [start <= end], the end of a page's
    range is at most the start of the next page's (so the sequence of
    ranges never decreases), and every paragraph index of the chapter
    lies inside the range of some page. *)
Theorem reflow_ranges_cover tm dual ls size chapter :
  paragraphs chapter <> [] ->
  let ranges :=
    (_reflow east_asian_wide textwrap_wrap get_cached
             tm dual ls size (Some chapter)).2 in
  (forall k s e, ranges !! k = Some (s, e) -> (s <= e)%nat) /\
  (forall k s e s' e',
      ranges !! k = Some (s, e) -> ranges !! S k = Some (s', e') ->
      (e <= s')%nat) /\
  (forall p, (p < length (paragraphs chapter))%nat ->
             exists k s e, ranges !! k = Some (s, e) /\ (s <= p <= e)%nat).
Proof.
  intros Hparas ranges.
  destruct (reflow_ranges_lookup tm dual ls size chapter Hparas)
    as (l2p & h & Hpos & Hsorted & Hcov & Hlookup).
  fold ranges in Hlookup.
  assert (forall k s e, ranges !! k = Some (s, e) ->
            (k * h < length l2p)%nat /\ l2p !! (k * h)%nat = Some s /\
            l2p !! Nat.min (k * h + h - 1) (length l2p - 1) = Some e)
    as Hrange.
  { intros k s e. rewrite Hlookup. case_decide as Hk; [|done].
    destruct (page_range_spec l2p h (k * h) Hpos Hk) as (x & y & -> & Hx & Hy).
    intros [= <- <-]. done. }
  split; [|split].
  - intros k s e Hk. apply Hrange in Hk as (Hlt & Hs & He).
    eapply Hsorted; [|exact Hs|exact He]. lia.
  - intros k s e s' e' Hk Hk'.
    apply Hrange in Hk as (_ & _ & He).
    apply Hrange in Hk' as (Hlt & Hs' & _).
    eapply Hsorted; [|exact He|exact Hs']. simpl in *. lia.
  - intros p Hp. destruct (Hcov p Hp) as [j Hj].
    pose proof (lookup_lt_Some _ _ _ Hj) as Hjlt.
    pose proof (Nat.div_mod_eq j h) as Hdiv.
    pose proof (Nat.mod_upper_bound j h ltac:(lia)) as Hmod.
    assert (j `div` h * h < length l2p)%nat as Hk by lia.
    destruct (page_range_spec l2p h (j `div` h * h) Hpos Hk)
      as (x & y & Hpr & Hx & Hy).
    exists (j `div` h)%nat, x, y. split.
    + rewrite Hlookup, decide_True by done. by rewrite Hpr.
    + split.
      * eapply Hsorted; [|exact Hx|exact Hj]. lia.
      * eapply Hsorted; [|exact Hj|exact Hy]. lia.
Qed.

(** C8 (as amended).  In dual-page mode [_reflow] wraps the chapter at
    the column width [max(20, (viewportWidth - 3) / 2)]: the two
    columns are [(viewportWidth - 3) / 2] wide from a viewport width of
    43 on, and 20 wide below that. *)
Theorem reflow_dual_column_width tm ls size chapter :
  let w := (_get_content_dimensions size).1 in
  let h := (_get_content_dimensions size).2 in
  let column := Z.max 20 ((w - 3) / 2) in
  let wrapped :=
    _wrap_chapter east_asian_wide textwrap_wrap get_cached
                  tm ls chapter column in
  reflow tm true ls size (Some chapter)
    = paginate wrapped.1 wrapped.2 (Z.to_nat h) /\
  (43 <= w -> column = (w - 3) / 2) /\
  (w < 43 -> column = 20).
Proof.
  intros w h column wrapped.
  destruct (dimensions_bounds size) as [Hw Hh].
  split; [|split].
  - rewrite reflow_chapter. cbv zeta. unfold page_width_of.
    fold w h column wrapped. by rewrite Z.max_r by done.
  - intros Hbig. subst column. apply Z.max_r.
    apply Z.div_le_lower_bound; lia.
  - intros Hsmall. subst column. apply Z.max_l.
    assert ((w - 3) / 2 < 20); [|lia].
    apply Z.div_lt_upper_bound; lia.
Qed.

End Ranges.

Lemma reflow_ranges_cover_witness :
  paragraphs Samples.chapter_three <> [] /\
  let ranges :=
    (_reflow Samples.wide Samples.hard_wrap Samples.no_cache
             false false 1 (Some (30, 3)) (Some Samples.chapter_three)).2 in
  ranges = [(0, 1); (1, 2)]%nat /\
  exists k s e, ranges !! k = Some (s, e) /\ (s <= 2 <= e)%nat.
Proof.
  assert (paragraphs Samples.chapter_three <> []) as Hne by discriminate.
  split; [exact Hne|]. split; [reflexivity|].
  apply (reflow_ranges_cover Samples.wide Samples.hard_wrap Samples.no_cache
           false false 1 (Some (30, 3)) Samples.chapter_three Hne).
  simpl. lia.
Defined.

(** C8, as the specification words it, fails: at content width 30 (not
    degenerate) the dual-page column is 20 wide, not [(30 - 3) / 2 = 13];
    a paragraph of ten wide glyphs stays on one line of 20 columns. *)
Lemma reflow_dual_narrow_viewport :
  let size := Some (34, 20) in
  let w := (_get_content_dimensions size).1 in
  w = 30 /\ (w - 3) / 2 = 13 /\
  page_width_of true w <> (w - 3) / 2 /\
  (_reflow Samples.wide Samples.hard_wrap Samples.no_cache
           false true 1 size (Some Samples.chapter_ten_glyphs)).1
    = [[Samples.zhong 10]] /\
  _display_width Samples.wide (Samples.zhong 10) = 20.
Proof. repeat split; try reflexivity. discriminate. Qed.

Lemma reflow_dual_column_width_witness :
  let size := Some (104, 20) in
  (_get_content_dimensions size).1 = 100 /\
  page_width_of true 100 = (100 - 3) / 2 /\
  Z.max 20 ((100 - 3) / 2) = 48.
Proof.
  pose proof (reflow_dual_column_width Samples.wide Samples.hard_wrap
                Samples.no_cache false 1 (Some (104, 20))
                Samples.chapter_three) as (_ & Hbig & _).
  split; [reflexivity|]. split; [|reflexivity].
  apply Hbig. simpl. lia.
Defined.

(** *** Line widths *)

Section Widths.
Variable east_asian_wide : char -> bool.
Variable textwrap_wrap : str -> Z -> list str.

(** No ASCII character is wide in the East-Asian-Width table. *)
Hypothesis ascii_narrow :
  forall c, (c < 128)%N -> east_asian_wide c = false.

(** The contract of [textwrap.wrap] with its defaults: the lines are at
    most [width] characters long and are made of the characters of the
    text and of spaces. *)
Hypothesis textwrap_bound :
  forall text width line,
    isascii text = true -> 1 <= width ->
    line ∈ textwrap_wrap text width ->
    Z.of_nat (length line) <= width /\ isascii line = true.

Abbreviation dw := (_display_width east_asian_wide).
Abbreviation loop := (cjk_loop east_asian_wide).

Lemma char_width_range ch : 1 <= char_width east_asian_wide ch <= 2.
Proof. unfold char_width. destruct (east_asian_wide ch); lia. Qed.

Lemma display_width_app a b : dw (a ++ b) = dw a + dw b.
Proof. induction a as [|ch a IH]; simpl; [done|]. rewrite IH. lia. Qed.

Lemma display_width_nonneg a : 0 <= dw a.
Proof.
  induction a as [|ch a IH]; simpl; [done|].
  pose proof (char_width_range ch). lia.
Qed.

Lemma display_width_ascii line :
  isascii line = true -> dw line = Z.of_nat (length line).
Proof.
  induction line as [|ch line IH]; simpl; [done|].
  intros [Hc Hl]%andb_prop. rewrite IH by done.
  unfold char_width. rewrite ascii_narrow by by apply N.ltb_lt. lia.
Qed.

(** The loop keeps every finished line and the line in progress within
    the width. *)
Lemma cjk_loop_bound width text lines current current_w :
  2 <= width ->
  Forall (fun line => dw line <= width) lines ->
  dw current = current_w -> current_w <= width ->
  Forall (fun line => dw line <= width)
         (loop width text lines current current_w).1 /\
  dw (loop width text lines current current_w).2 <= width.
Proof.
  intros Hwidth. revert lines current current_w.
  induction text as [|ch rest IH]; intros lines current current_w
                                           Hlines Hcur Hfit; simpl.
  { split; [done|lia]. }
  pose proof (char_width_range ch) as Hcw.
  destruct (current_w + char_width east_asian_wide ch >? width) eqn:Hover;
    simpl.
  - case_bool_decide as Hempty; simpl.
    + subst current. simpl in Hcur. subst current_w.
      apply IH; [done| |lia].
      simpl. lia.
    + assert (Forall (fun line => dw line <= width) (lines ++ [current])).
      { apply Forall_app. split; [done|]. apply Forall_singleton. lia. }
      destruct (ch =? SPACE)%N.
      * apply IH; [done|done|lia].
      * apply IH; [done|simpl; lia|lia].
  - assert (current_w + char_width east_asian_wide ch <= width) as Hle.
    { rewrite Z.gtb_ltb in Hover. apply Z.ltb_ge in Hover. done. }
    apply IH; [done| |done].
    rewrite display_width_app. simpl. lia.
Qed.

Lemma cjk_lines_bound width text :
  2 <= width -> Forall (fun line => dw line <= width)
                       (cjk_lines east_asian_wide width text).
Proof.
  intros Hwidth. unfold cjk_lines.
  destruct (cjk_loop_bound width text [] [] 0 Hwidth) as [Hl Hc];
    [done|done|lia|].
  destruct (loop width text [] [] 0) as [lines current]. simpl in *.
  case_bool_decide; [done|].
  apply Forall_app. split; [done|]. by apply Forall_singleton.
Qed.

Lemma or_blank_Forall (P : str -> Prop) lines :
  P [] -> Forall P lines -> Forall P (or_blank lines).
Proof. intros HP Hl. destruct lines; simpl; [by apply Forall_singleton|done]. Qed.

(** Characters that fit on the line in progress are appended to it. *)
Lemma cjk_loop_fits width pre rest lines current current_w :
  current_w + dw pre <= width ->
  loop width (pre ++ rest) lines current current_w
  = loop width rest lines (current ++ pre) (current_w + dw pre).
Proof.
  revert current current_w.
  induction pre as [|ch pre IH]; intros current current_w Hfit; simpl.
  { by rewrite app_nil_r, Z.add_0_r. }
  simpl in Hfit. pose proof (display_width_nonneg pre) as Hpre.
  pose proof (char_width_range ch) as Hcw.
  replace (current_w + char_width east_asian_wide ch >? width) with false.
  2:{ symmetry. rewrite Z.gtb_ltb. apply Z.ltb_ge. lia. }
  simpl. rewrite IH by lia. rewrite <- app_assoc. simpl. f_equal. lia.
Qed.

(** Lines already finished are not looked at again. *)
Lemma cjk_loop_lines width text lines current current_w :
  loop width text lines current current_w
  = (lines ++ (loop width text [] current current_w).1,
     (loop width text [] current current_w).2).
Proof.
  revert lines current current_w.
  induction text as [|ch rest IH]; intros lines current current_w; simpl.
  { by rewrite app_nil_r. }
  destruct ((current_w + char_width east_asian_wide ch >? width)
            && negb (bool_decide (current = []))).
  - destruct (ch =? SPACE)%N.
    + rewrite (IH (lines ++ [current])), (IH [current]). simpl.
      by rewrite <- app_assoc.
    + rewrite (IH (lines ++ [current])), (IH [current]). simpl.
      by rewrite <- app_assoc.
  - apply IH.
Qed.

Lemma cjk_lines_break_at_space width pre rest :
  pre <> [] -> dw pre = width ->
  cjk_lines east_asian_wide width (pre ++ SPACE :: rest)
  = pre :: cjk_lines east_asian_wide width rest.
Proof.
  intros Hne Hfull. unfold cjk_lines.
  rewrite cjk_loop_fits by (simpl; lia). simpl.
  pose proof (char_width_range SPACE) as Hcw.
  replace (0 + dw pre + char_width east_asian_wide SPACE >? width) with true.
  2:{ symmetry. rewrite Z.gtb_ltb. apply Z.ltb_lt. lia. }
  rewrite bool_decide_false by done. simpl.
  rewrite cjk_loop_lines.
  destruct (loop width rest [] [] 0) as [lines current]. simpl.
  by case_bool_decide.
Qed.

(** C4.  For every text and every width of at least 2 (the paginator
    passes at least 20), each line [_wrap_cjk] returns has display
    width at most the width, counting a wide glyph as 2 columns and any
    other as 1.  And where a line of a text with a wide glyph is full
    and the next character is a space, the line is broken there and
    that one space is dropped: the next line starts after it. *)
Theorem wrap_cjk_width_bound :
  (forall text width,
      2 <= width ->
      Forall (fun line => dw line <= width)
             (_wrap_cjk east_asian_wide textwrap_wrap text width)) /\
  (forall width pre rest,
      pre <> [] -> dw pre = width ->
      blank (pre ++ SPACE :: rest) = false ->
      isascii (pre ++ SPACE :: rest) = false ->
      _wrap_cjk east_asian_wide textwrap_wrap (pre ++ SPACE :: rest) width
      = pre :: cjk_lines east_asian_wide width rest).
Proof.
  split.
  - intros text width Hwidth. unfold _wrap_cjk.
    destruct (blank text); [apply Forall_singleton; simpl; lia|].
    destruct (isascii text) eqn:Hascii.
    + apply or_blank_Forall; [simpl; lia|].
      apply Forall_forall. intros line Hin.
      destruct (textwrap_bound text width line Hascii) as [Hlen Hline];
        [lia|done|].
      rewrite display_width_ascii by done. done.
    + apply or_blank_Forall; [simpl; lia|]. by apply cjk_lines_bound.
  - intros width pre rest Hne Hfull Hblank Hascii. unfold _wrap_cjk.
    rewrite Hblank, Hascii, cjk_lines_break_at_space by done. done.
Qed.

End Widths.

Lemma samples_wide_ascii c : (c < 128)%N -> Samples.wide c = false.
Proof.
  intros Hc. unfold Samples.wide.
  rewrite !(proj2 (N.leb_gt _ c)) by lia. done.
Qed.

Lemma isascii_subseteq (a b : str) :
  a ⊆ b -> isascii b = true -> isascii a = true.
Proof.
  unfold isascii. rewrite !forallb_forall. intros Hsub Hb x Hx.
  apply Hb. apply list_elem_of_In. apply Hsub. by apply list_elem_of_In.
Qed.

Lemma hard_wrap_fuel_bound fuel width line :
  forall text,
    isascii text = true ->
    line ∈ Samples.hard_wrap_fuel fuel text width ->
    (length line <= width)%nat /\ isascii line = true.
Proof.
  induction fuel as [|fuel IH]; intros text Hascii; simpl.
  { by intros ?%elem_of_nil. }
  destruct text as [|c text]; [by intros ?%elem_of_nil|].
  intros [->|Hin]%elem_of_cons.
  - split; [rewrite length_take; lia|].
    eapply isascii_subseteq; [apply subseteq_take|done].
  - apply (IH (drop width (c :: text))); [|done].
    eapply isascii_subseteq; [apply subseteq_drop|done].
Qed.

Lemma hard_wrap_bound text width line :
  isascii text = true -> 1 <= width ->
  line ∈ Samples.hard_wrap text width ->
  Z.of_nat (length line) <= width /\ isascii line = true.
Proof.
  intros Hascii Hwidth Hin.
  destruct (hard_wrap_fuel_bound _ _ _ _ Hascii Hin) as [Hlen Hline].
  split; [lia|done].
Qed.

Lemma wrap_cjk_width_bound_witness :
  Forall (fun line => _display_width Samples.wide line <= 4)
         (_wrap_cjk Samples.wide Samples.hard_wrap
                    (Samples.zhong 2 ++ SPACE :: Samples.zhong 1 ++ lit "abc") 4)
  /\ _wrap_cjk Samples.wide Samples.hard_wrap
               (Samples.zhong 2 ++ SPACE :: Samples.zhong 1 ++ lit "abc") 4
     = [Samples.zhong 2; Samples.zhong 1 ++ lit "ab"; lit "c"].
Proof.
  pose proof (wrap_cjk_width_bound Samples.wide Samples.hard_wrap
                samples_wide_ascii hard_wrap_bound) as [Hbound Hbreak].
  split.
  - apply Hbound. lia.
  - rewrite (Hbreak 4 (Samples.zhong 2) (Samples.zhong 1 ++ lit "abc"));
      [reflexivity|discriminate|reflexivity|reflexivity|reflexivity].
Defined.

End PaginatorFacts.

(** * Properties of the string operations *)

Module PyStrFacts.

Import Terms.

Lemma blank_app a b : blank (a ++ b) = blank a && blank b.
Proof. unfold blank. apply forallb_app. Qed.

Lemma blank_reverse a : blank (reverse a) = blank a.
Proof.
  induction a as [|c a IH]; [done|].
  rewrite reverse_cons, blank_app, IH. simpl. rewrite andb_true_r.
  apply andb_comm.
Qed.

Lemma lstrip_blank a b : blank a = true -> lstrip (a ++ b) = lstrip b.
Proof.
  induction a as [|c a IH]; simpl; [done|].
  intros [Hc Ha]%andb_prop. rewrite Hc. by apply IH.
Qed.

Lemma lstrip_not_blank a b :
  blank a = false -> lstrip (a ++ b) = lstrip a ++ b.
Proof.
  induction a as [|c a IH]; simpl; [done|].
  destruct (isspace c); simpl; [exact IH|done].
Qed.

Lemma lstrip_blank_nil a : blank a = true -> lstrip a = [].
Proof.
  intros Ha. rewrite <- (app_nil_r a). by rewrite lstrip_blank.
Qed.

Lemma lstrip_split a : exists lead, blank lead = true /\ a = lead ++ lstrip a.
Proof.
  induction a as [|c a (lead & Hl & Ha)]; simpl; [by exists []|].
  destruct (isspace c) eqn:Hc.
  - exists (c :: lead). simpl. rewrite Hc, Hl. split; [done|]. by f_equal.
  - by exists [].
Qed.

Lemma rstrip_blank a b : blank b = true -> rstrip (a ++ b) = rstrip a.
Proof.
  intros Hb. unfold rstrip. rewrite reverse_app, lstrip_blank; [done|].
  by rewrite blank_reverse.
Qed.

Lemma rstrip_split a : exists trail, blank trail = true /\ a = rstrip a ++ trail.
Proof.
  unfold rstrip. destruct (lstrip_split (reverse a)) as (lead & Hl & Ha).
  exists (reverse lead). rewrite blank_reverse. split; [done|].
  rewrite <- reverse_app, <- Ha. by rewrite reverse_involutive.
Qed.

Lemma strip_blank_l a b : blank a = true -> strip (a ++ b) = strip b.
Proof. intros Ha. unfold strip. by rewrite lstrip_blank. Qed.

Lemma strip_blank_r a b : blank b = true -> strip (a ++ b) = strip a.
Proof.
  intros Hb. unfold strip. destruct (blank a) eqn:Ha.
  - rewrite lstrip_blank by done. by rewrite !lstrip_blank_nil.
  - rewrite lstrip_not_blank by done. by apply rstrip_blank.
Qed.

(** A string is its stripped form between two runs of whitespace. *)
Lemma strip_split a :
  exists lead trail,
    blank lead = true /\ blank trail = true /\ a = lead ++ strip a ++ trail.
Proof.
  destruct (lstrip_split a) as (lead & Hl & Ha).
  destruct (rstrip_split (lstrip a)) as (trail & Ht & Hb).
  exists lead, trail. split; [done|]. split; [done|].
  unfold strip. by rewrite <- Hb.
Qed.

Lemma split_go_nonempty sep s k acc : split_go sep k acc s <> [].
Proof.
  revert k acc. induction s as [|c s IH]; intros k acc; simpl; [done|].
  destruct k; [|apply IH]. destruct (starts_with sep (c :: s)); [done|apply IH].
Qed.

Lemma cons_head_app a b pieces :
  cons_head a (cons_head b pieces) = cons_head (a ++ b) pieces.
Proof. destruct pieces; simpl; [done|]. by rewrite app_assoc. Qed.

(** The piece in progress only ever lands in front of the next piece. *)
Lemma split_go_acc sep s k acc :
  split_go sep k acc s = cons_head (reverse acc) (split_go sep k [] s).
Proof.
  revert k acc. induction s as [|c s IH]; intros k acc; simpl.
  { by rewrite app_nil_r. }
  destruct k; [|apply IH].
  destruct (starts_with sep (c :: s)); simpl.
  - by rewrite app_nil_r.
  - rewrite (IH O (c :: acc)), (IH O [c]), cons_head_app.
    by rewrite reverse_cons.
Qed.

(** A character that is not in the separator ends every attempt to match
    the separator across it. *)
Lemma starts_with_stop sep s c x :
  c ∉ sep -> sep <> [] -> starts_with sep (s ++ c :: x) = starts_with sep s.
Proof.
  revert s. induction sep as [|a sep IH]; intros s Hc Hne; [done|].
  apply not_elem_of_cons in Hc as [Hac Hc].
  destruct s as [|b s]; simpl.
  - apply andb_false_iff. left. apply N.eqb_neq. congruence.
  - destruct sep as [|a' sep'].
    + by destruct (a =? b)%N.
    + by rewrite (IH s Hc).
Qed.

Lemma starts_with_length sep s :
  starts_with sep s = true -> (length sep <= length s)%nat.
Proof.
  revert s. induction sep as [|a sep IH]; intros s; simpl; [lia|].
  destruct s as [|b s]; [done|]. intros [_ H]%andb_prop.
  apply IH in H. simpl. lia.
Qed.

Section Dashes.
Import Engine.

Lemma space_not_dash c : isspace c = true -> c ∉ DASHES.
Proof.
  intros Hc Hin. unfold DASHES in Hin. simpl in Hin.
  repeat (apply elem_of_cons in Hin as [->|Hin]; [discriminate Hc|]).
  by apply elem_of_nil in Hin.
Qed.

Local Arguments DASHES : simpl never.

Lemma starts_with_dashes_ws s ws :
  blank ws = true -> starts_with DASHES (s ++ ws) = starts_with DASHES s.
Proof.
  destruct ws as [|c ws]; [by rewrite app_nil_r|].
  intros Hb. unfold blank in Hb. cbn [forallb] in Hb.
  apply andb_prop in Hb as [Hc _].
  apply starts_with_stop; [by apply space_not_dash|done].
Qed.

Lemma split_go_blank ws acc :
  blank ws = true -> split_go DASHES O acc ws = [reverse acc ++ ws].
Proof.
  revert acc. induction ws as [|c ws IH]; intros acc Hb.
  { cbn [split_go]. by rewrite app_nil_r. }
  pose proof Hb as Hb'. unfold blank in Hb'. cbn [forallb] in Hb'.
  apply andb_prop in Hb' as [Hc Hws].
  cbn [split_go].
  pose proof (starts_with_dashes_ws [] (c :: ws) Hb) as Hs.
  rewrite app_nil_l in Hs. rewrite Hs.
  change (starts_with DASHES []) with false. cbv iota.
  rewrite IH by done. by rewrite reverse_cons, <- app_assoc.
Qed.

(** Whitespace in front of the text stays in front of the first piece. *)
Lemma split_blank_l ws s :
  blank ws = true ->
  split DASHES (ws ++ s) = cons_head ws (split DASHES s).
Proof.
  intros Hws. unfold split.
  assert (forall acc, split_go DASHES O acc (ws ++ s)
                      = split_go DASHES O (reverse ws ++ acc) s) as Hgo.
  { clear -Hws. induction ws as [|c ws IH]; intros acc; [done|].
    simpl in Hws. apply andb_prop in Hws as [Hc Hws].
    change ((c :: ws) ++ s) with (c :: (ws ++ s)).
    cbn [split_go].
    pose proof (starts_with_stop DASHES [] c (ws ++ s)
                  (space_not_dash c Hc) ltac:(done)) as Hs.
    rewrite app_nil_l in Hs. rewrite Hs.
    change (starts_with DASHES []) with false. cbv iota.
    rewrite IH by done. by rewrite reverse_cons, <- app_assoc. }
  rewrite Hgo, split_go_acc, app_nil_r. by rewrite reverse_involutive.
Qed.

(** Whitespace behind the text stays behind the last piece. *)
Lemma split_go_blank_r ws s k acc :
  blank ws = true -> (k <= length s)%nat ->
  split_go DASHES k acc (s ++ ws)
  = snoc_last (split_go DASHES k acc s) ws.
Proof.
  intros Hws. revert k acc.
  induction s as [|c s IH]; intros k acc Hk.
  { simpl in Hk. replace k with O by lia. simpl.
    by apply split_go_blank. }
  change ((c :: s) ++ ws) with (c :: (s ++ ws)). cbn [split_go].
  destruct k as [|k]; [|apply IH; simpl in Hk; lia].
  pose proof (starts_with_dashes_ws (c :: s) ws Hws) as Hs.
  change ((c :: s) ++ ws) with (c :: (s ++ ws)) in Hs. rewrite Hs.
  destruct (starts_with DASHES (c :: s)) eqn:Hmatch.
  - apply starts_with_length in Hmatch. simpl in Hmatch.
    rewrite IH by (simpl; lia).
    pose proof (split_go_nonempty DASHES s (Nat.pred (length DASHES)) [])
      as Hne.
    destruct (split_go DASHES (Nat.pred (length DASHES)) [] s); done.
  - apply IH. lia.
Qed.

Lemma map_strip_cons_head ws pieces :
  blank ws = true -> map strip (cons_head ws pieces) = map strip pieces.
Proof.
  intros Hws. destruct pieces as [|p rest]; simpl; [done|].
  by rewrite strip_blank_l.
Qed.

Lemma map_strip_snoc_last ws pieces :
  blank ws = true -> map strip (snoc_last pieces ws) = map strip pieces.
Proof.
  intros Hws. induction pieces as [|p rest IH]; [done|].
  destruct rest as [|q rest].
  - simpl. by rewrite strip_blank_r.
  - change (snoc_last (p :: q :: rest) ws)
      with (p :: snoc_last (q :: rest) ws).
    rewrite !map_cons. f_equal. exact IH.
Qed.

(** Stripping the whole response first does not change the stripped
    segments. *)
Lemma split_strip s :
  map strip (split DASHES (strip s)) = map strip (split DASHES s).
Proof.
  destruct (strip_split s) as (lead & trail & Hl & Ht & Hs).
  rewrite Hs at 2. rewrite split_blank_l by done.
  rewrite map_strip_cons_head by done.
  unfold split at 2. rewrite split_go_blank_r by (done || lia).
  by rewrite map_strip_snoc_last.
Qed.

Lemma contains_cons sub c s :
  contains sub (c :: s) = false ->
  starts_with sub (c :: s) = false /\ contains sub s = false.
Proof. simpl contains. by intros ?%orb_false_elim. Qed.

(** A text without ["---"], followed by the separator, is cut right
    before the dashes. *)
Lemma split_go_segment t rest acc :
  contains DASHES t = false ->
  split_go DASHES O acc (t ++ BATCH_SEPARATOR ++ rest)
  = (reverse acc ++ t ++ [NEWLINE])
      :: cons_head [NEWLINE] (split DASHES rest).
Proof.
  revert acc. induction t as [|c t IH]; intros acc Ht.
  - simpl. rewrite reverse_cons. f_equal.
    unfold split. rewrite (split_go_acc DASHES rest O [NEWLINE]). done.
  - apply contains_cons in Ht as [Hstart Ht].
    change ((c :: t) ++ BATCH_SEPARATOR ++ rest)
      with (c :: (t ++ NEWLINE :: DASHES ++ NEWLINE :: rest)).
    cbn [split_go].
    pose proof (starts_with_stop DASHES (c :: t) NEWLINE
                  (DASHES ++ NEWLINE :: rest)) as Hs.
    change ((c :: t) ++ NEWLINE :: DASHES ++ NEWLINE :: rest)
      with (c :: (t ++ NEWLINE :: DASHES ++ NEWLINE :: rest)) in Hs.
    rewrite Hs, Hstart; [|by apply space_not_dash|done].
    specialize (IH (c :: acc) Ht).
    change (BATCH_SEPARATOR ++ rest)
      with (NEWLINE :: DASHES ++ NEWLINE :: rest) in IH.
    rewrite IH, reverse_cons, <- !app_assoc. done.
Qed.

Lemma split_no_dashes t acc :
  contains DASHES t = false -> split_go DASHES O acc t = [reverse acc ++ t].
Proof.
  revert acc. induction t as [|c t IH]; intros acc Ht.
  - simpl. by rewrite app_nil_r.
  - apply contains_cons in Ht as [Hstart Ht].
    cbn [split_go]. rewrite Hstart, IH by done.
    by rewrite reverse_cons, <- app_assoc.
Qed.

(** Joining with the batch separator and splitting on the dashes gives
    the segments back, up to the whitespace around them. *)
Lemma split_join (ts : list str) :
  ts <> [] ->
  Forall (fun t => contains DASHES t = false) ts ->
  map strip (split DASHES (join BATCH_SEPARATOR ts)) = map strip ts.
Proof.
  intros Hne Hts. induction Hts as [|t ts Ht Hts IH]; [done|].
  destruct ts as [|t' ts].
  - simpl. unfold split. rewrite split_no_dashes by done. done.
  - change (join BATCH_SEPARATOR (t :: t' :: ts))
      with (t ++ BATCH_SEPARATOR ++ join BATCH_SEPARATOR (t' :: ts)).
    unfold split at 1. rewrite split_go_segment by done.
    rewrite map_cons, map_strip_cons_head by done.
    rewrite IH by done. rewrite reverse_nil, app_nil_l.
    by rewrite strip_blank_r.
Qed.

End Dashes.

End PyStrFacts.

(** * Properties of the translation engine *)

Module EngineFacts.
Import Engine Terms.

(** Runs the plumbing of the monad, leaving the engine's own steps. *)
Ltac run :=
  cbv beta iota zeta
      delta [bind log suspend ret raise read_cancel get_cached
             default from_option id];
  cbn [cache _cancel suspensions events].

(** [lia] after the aliases of the string types are folded away. *)
Ltac slia := unfold str, char in *; simpl length in *; lia.

Section Facts.
Variable sha256_hexdigest : str -> str.
Variable provider : option TranslationProviderConfig.
Variable target_lang : str.
Variable http_post : str -> str -> reply.
Variable interference : nat -> bool -> bool.

Abbreviation get_cached_in' := (get_cached_in sha256_hexdigest target_lang).
Abbreviation is_miss' := (is_miss sha256_hexdigest target_lang).
Abbreviation misses' := (misses sha256_hexdigest target_lang).
Abbreviation miss_indices' := (miss_indices sha256_hexdigest target_lang).
Abbreviation miss_rank' := (miss_rank sha256_hexdigest target_lang).
Abbreviation written_rows' :=
  (written_rows sha256_hexdigest provider target_lang).
Abbreviation scanned' := (scanned sha256_hexdigest target_lang).
Abbreviation store_batch' :=
  (@store_batch sha256_hexdigest provider target_lang).
Abbreviation batch_scan' := (batch_scan sha256_hexdigest target_lang).
Abbreviation _call_api_batch' :=
  (_call_api_batch provider target_lang http_post interference).
Abbreviation translate_batch' :=
  (translate_batch sha256_hexdigest provider target_lang http_post
                   interference).

Lemma nth_guard (translated : list str) (j : nat) :
  (if (j <? length translated)%nat then nth j translated [] else [])
  = nth j translated [].
Proof.
  destruct (j <? length translated)%nat eqn:Hj; [done|].
  apply Nat.ltb_ge in Hj. by rewrite nth_overflow.
Qed.

(** Storing a batch: the results, the rows written and the log. *)
Lemma store_batch_spec {A} (inj : str -> A) paragraphs translated
      indices j results w :
  store_batch' inj paragraphs translated j indices results w =
    (Returns (stored inj translated j indices results),
     mkWorld (apply_rows (cache w)
                         (written_rows' paragraphs translated j indices))
             (_cancel w) (suspensions w)
             (events w ++
              cached_events (written_rows' paragraphs translated j indices))).
Proof.
  revert j results w.
  induction indices as [|idx rest IH]; intros j results w.
  { simpl. unfold ret. rewrite app_nil_r. by destruct w. }
  cbn [store_batch stored written_rows]. unfold bind at 1.
  unfold db_cache_translation. rewrite nth_guard, IH.
  cbn [cache _cancel suspensions events apply_rows cached_events
       foldl map fst snd].
  unfold Database.cache_translation. by rewrite <- app_assoc.
Qed.

Lemma batch_scan_spec paras i results ui ut w :
  batch_scan' i paras results ui ut w =
    (Returns (scanned' (cache w) i paras results,
              ui ++ miss_indices' (cache w) i paras,
              ut ++ misses' (cache w) paras), w).
Proof.
  revert i results ui ut.
  induction paras as [|para rest IH]; intros i results ui ut.
  { simpl. unfold ret. by rewrite !app_nil_r. }
  cbn [batch_scan scanned miss_indices]. unfold misses. cbn [List.filter].
  unfold is_miss. fold (misses' (cache w) rest).
  destruct (blank para) eqn:Hblank; cbn [negb andb].
  { apply IH. }
  unfold bind, get_cached.
  destruct (get_cached_in' (cache w) para) as [c|].
  - apply IH.
  - rewrite IH, <- !app_assoc. done.
Qed.

Lemma fit_length n parts : length (fit n parts) = n.
Proof.
  unfold fit. rewrite length_take, length_app, length_replicate. lia.
Qed.

Lemma fit_nth n parts j : (j < n)%nat -> nth j (fit n parts) [] = nth j parts [].
Proof.
  intros Hj. unfold fit. rewrite !nth_lookup, lookup_take_lt by done.
  destruct (decide (j < length parts)%nat) as [Hlt|Hge].
  - by rewrite lookup_app_l.
  - rewrite lookup_app_r by lia.
    rewrite (lookup_ge_None_2 parts) by lia.
    destruct (replicate _ _ !! _) eqn:Hr; [|done].
    by apply lookup_replicate in Hr as [-> _].
Qed.

(** One batch call: one request, the flag open to the rest of the
    program while the response is awaited, the segments fitted to the
    number of texts. *)
Lemma _call_api_batch_spec texts w p content :
  provider = Some p ->
  http_post (batch_prompt target_lang (length texts))
            (join BATCH_SEPARATOR texts) = Answered content ->
  _call_api_batch' texts w =
    (Returns (fit (length texts) (segments content)),
     mkWorld (cache w)
             (interference (suspensions w) (_cancel w))
             (S (suspensions w))
             (events w ++
              [ERequest (batch_prompt target_lang (length texts))
                        (join BATCH_SEPARATOR texts)])).
Proof.
  intros Hp Hpost. unfold _call_api_batch, _call_api.
  rewrite Hp. run. rewrite Hpost. run.
  f_equal. f_equal. unfold fit, segments.
  destruct (length (map strip (split DASHES (strip content)))
            <? length texts)%nat eqn:Hlt; [done|].
  apply Nat.ltb_ge in Hlt.
  replace (length texts - _)%nat with O by lia.
  by rewrite app_nil_r.
Qed.

Lemma _call_api_batch_raises texts w e :
  provider = None \/
  http_post (batch_prompt target_lang (length texts))
            (join BATCH_SEPARATOR texts) = Failed e ->
  exists e' w', _call_api_batch' texts w = (Raises e', w').
Proof.
  unfold _call_api_batch, _call_api.
  intros [Hp | Hpost].
  - rewrite Hp. run. eauto.
  - destruct provider; [|run; eauto].
    run. rewrite Hpost. destruct (converted e); run; eauto.
Qed.


(** *** The first loop of [translate_batch] *)

Lemma scanned_length db paras i results :
  length (scanned' db i paras results) = length results.
Proof.
  revert i results. induction paras as [|para rest IH]; intros i results;
    simpl; [done|].
  destruct (blank para); [by rewrite IH, length_insert|].
  destruct (get_cached_in' db para); [by rewrite IH, length_insert|apply IH].
Qed.

Lemma scanned_before db paras i results k :
  (k < i)%nat -> scanned' db i paras results !! k = results !! k.
Proof.
  revert i results. induction paras as [|para rest IH]; intros i results Hk;
    simpl; [done|].
  destruct (blank para).
  { rewrite IH by lia. apply list_lookup_insert_ne. lia. }
  destruct (get_cached_in' db para).
  - rewrite IH by lia. apply list_lookup_insert_ne. lia.
  - apply IH. lia.
Qed.

(** Position [i + j] holds what the loop decided for paragraph [j]. *)
Lemma scanned_lookup db paras i results j para :
  (i + length paras <= length results)%nat ->
  paras !! j = Some para ->
  scanned' db i paras results !! (i + j)%nat =
    if blank para then Some (Some [])
    else match get_cached_in' db para with
         | Some c => Some (Some c)
         | None => results !! (i + j)%nat
         end.
Proof.
  revert i results j.
  induction paras as [|p0 rest IH]; intros i results j Hlen Hj; [done|].
  destruct j as [|j].
  - injection Hj as ->. cbn [scanned]. rewrite Nat.add_0_r.
    destruct (blank para).
    { rewrite scanned_before by lia. apply list_lookup_insert_eq. slia. }
    destruct (get_cached_in' db para).
    + rewrite scanned_before by lia. apply list_lookup_insert_eq. slia.
    + apply scanned_before. lia.
  - simpl in Hj. cbn [scanned].
    replace (i + S j)%nat with (S i + j)%nat by lia.
    destruct (blank p0).
    { rewrite (IH (S i) _ j); [|rewrite length_insert; slia|done].
      rewrite list_lookup_insert_ne by lia. done. }
    destruct (get_cached_in' db p0).
    + rewrite (IH (S i) _ j); [|rewrite length_insert; slia|done].
      rewrite list_lookup_insert_ne by lia. done.
    + apply IH; [slia|done].
Qed.

(** *** The misses and their positions *)

Lemma miss_indices_elem db paras i k :
  k ∈ miss_indices' db i paras ->
  (i <= k)%nat /\
  exists para, paras !! (k - i)%nat = Some para /\ is_miss' db para = true.
Proof.
  revert i. induction paras as [|p0 rest IH]; intros i; simpl.
  { by intros ?%elem_of_nil. }
  destruct (is_miss' db p0) eqn:Hmiss.
  - intros [->|Hin]%elem_of_cons.
    + split; [lia|]. exists p0. by rewrite Nat.sub_diag.
    + apply IH in Hin as (Hle & para & Hk & Hp). split; [lia|].
      exists para. split; [|done].
      by replace (k - i)%nat with (S (k - S i)) by lia.
  - intros Hin. apply IH in Hin as (Hle & para & Hk & Hp). split; [lia|].
    exists para. split; [|done].
    by replace (k - i)%nat with (S (k - S i)) by lia.
Qed.

Lemma miss_indices_NoDup db paras i : NoDup (miss_indices' db i paras).
Proof.
  revert i. induction paras as [|p0 rest IH]; intros i; simpl.
  { apply NoDup_nil_2. }
  destruct (is_miss' db p0); [|apply IH].
  apply NoDup_cons. split; [|apply IH].
  intros Hin. apply miss_indices_elem in Hin as [Hle _]. lia.
Qed.

Lemma miss_indices_length db paras i :
  length (miss_indices' db i paras) = length (misses' db paras).
Proof.
  revert i. induction paras as [|p0 rest IH]; intros i; [done|].
  unfold misses. simpl. destruct (is_miss' db p0); simpl; by rewrite IH.
Qed.

(** A miss sits in the index list at its rank. *)
Lemma miss_indices_rank db paras i j para :
  paras !! j = Some para -> is_miss' db para = true ->
  miss_indices' db i paras !! miss_rank' db paras j = Some (i + j)%nat.
Proof.
  unfold miss_rank, misses. revert i j.
  induction paras as [|p0 rest IH]; intros i j Hj Hmiss; [done|].
  destruct j as [|j].
  - injection Hj as ->. simpl. rewrite Hmiss. simpl. f_equal. lia.
  - simpl in Hj. simpl.
    replace (i + S j)%nat with (S i + j)%nat by lia.
    destruct (is_miss' db p0); simpl; by apply IH.
Qed.

Lemma miss_rank_lt db paras j para :
  paras !! j = Some para -> is_miss' db para = true ->
  (miss_rank' db paras j < length (misses' db paras))%nat.
Proof.
  intros Hj Hmiss. rewrite <- (miss_indices_length db paras O).
  eapply lookup_lt_Some. by apply (miss_indices_rank db paras O j para).
Qed.

Lemma miss_elem db paras para :
  para ∈ misses' db paras <-> para ∈ paras /\ is_miss' db para = true.
Proof.
  unfold misses. rewrite !list_elem_of_In, filter_In. done.
Qed.

(** *** Storing a batch *)

Lemma stored_length {A} (inj : str -> A) translated indices j results :
  length (stored inj translated j indices results) = length results.
Proof.
  revert j results. induction indices as [|idx rest IH]; intros j results;
    simpl; [done|]. by rewrite IH, length_insert.
Qed.

Lemma stored_other {A} (inj : str -> A) translated indices j results k :
  k ∉ indices ->
  stored inj translated j indices results !! k = results !! k.
Proof.
  revert j results. induction indices as [|idx rest IH]; intros j results Hk;
    simpl; [done|].
  apply not_elem_of_cons in Hk as [Hne Hk].
  rewrite IH by done. by apply list_lookup_insert_ne.
Qed.

Lemma stored_at {A} (inj : str -> A) translated indices j results m k :
  NoDup indices -> indices !! m = Some k -> (k < length results)%nat ->
  stored inj translated j indices results !! k
  = Some (inj (nth (j + m) translated [])).
Proof.
  revert j results m.
  induction indices as [|idx rest IH]; intros j results m Hnd Hm Hk; [done|].
  apply NoDup_cons in Hnd as [Hidx Hnd]. destruct m as [|m]; simpl.
  - injection Hm as ->. rewrite stored_other by done.
    rewrite Nat.add_0_r. by apply list_lookup_insert_eq.
  - simpl in Hm. rewrite (IH (S j) _ m) by (rewrite ?length_insert; done).
    do 3 f_equal. lia.
Qed.


(** *** [translate_batch] as a whole *)

Lemma translate_batch_no_miss paragraphs w :
  misses' (cache w) paragraphs = [] ->
  translate_batch' paragraphs w =
    (Returns (map (fun r => default [] r)
                  (scanned' (cache w) O paragraphs
                            (replicate (length paragraphs) None))), w).
Proof.
  intros Hnone. unfold translate_batch.
  unfold bind at 1. rewrite batch_scan_spec, Hnone. cbn [app]. by run.
Qed.

Lemma translate_batch_miss paragraphs w p content :
  let texts := misses' (cache w) paragraphs in
  let indices := miss_indices' (cache w) O paragraphs in
  let translated := fit (length texts) (segments content) in
  let rows := written_rows' paragraphs translated O indices in
  texts <> [] ->
  provider = Some p ->
  http_post (batch_prompt target_lang (length texts))
            (join BATCH_SEPARATOR texts) = Answered content ->
  translate_batch' paragraphs w =
    (Returns (map (fun r => default [] r)
                  (stored Some translated O indices
                          (scanned' (cache w) O paragraphs
                                    (replicate (length paragraphs) None)))),
     mkWorld (apply_rows (cache w) rows)
             (interference (suspensions w) (_cancel w))
             (S (suspensions w))
             (events w ++
              ERequest (batch_prompt target_lang (length texts))
                       (join BATCH_SEPARATOR texts)
                :: cached_events rows)).
Proof.
  intros texts indices translated rows Hsome Hp Hpost.
  subst texts indices translated rows.
  unfold translate_batch.
  unfold bind at 1. rewrite batch_scan_spec. cbn [app].
  destruct (misses' (cache w) paragraphs) as [|t texts'] eqn:Htexts;
    [done|].
  cbv beta iota. rewrite <- Htexts in *.
  unfold bind at 1. unfold bind at 1.
  rewrite (_call_api_batch_spec _ _ p content Hp Hpost).
  rewrite store_batch_spec. cbn [cache _cancel suspensions events].
  unfold ret. rewrite <- (app_assoc (events w)). done.
Qed.

(** What a position of the result holds, whatever came back. *)
Lemma batch_result_lookup db paragraphs translated i para :
  paragraphs !! i = Some para ->
  map (fun r => default [] r)
      (stored Some translated O (miss_indices' db O paragraphs)
              (scanned' db O paragraphs
                        (replicate (length paragraphs) None))) !! i
  = Some (if blank para then []
          else match get_cached_in' db para with
               | Some c => c
               | None => nth (miss_rank' db paragraphs i) translated []
               end).
Proof.
  intros Hi. pose proof (lookup_lt_Some _ _ _ Hi) as Hlt.
  rewrite list_lookup_fmap.
  destruct (is_miss' db para) eqn:Hmiss.
  - rewrite (stored_at Some translated _ O _ (miss_rank' db paragraphs i) i).
    + unfold is_miss in Hmiss. apply andb_prop in Hmiss as [Hb Hc].
      apply negb_true_iff in Hb. rewrite Hb.
      by destruct (get_cached_in' db para).
    + apply miss_indices_NoDup.
    + by apply (miss_indices_rank db paragraphs O i para).
    + rewrite scanned_length, length_replicate. done.
  - rewrite stored_other.
    2:{ intros Hin. apply miss_indices_elem in Hin as (_ & para' & Hk & Hp).
        rewrite Nat.sub_0_r, Hi in Hk. injection Hk as <-. congruence. }
    pose proof (scanned_lookup db paragraphs O
                  (replicate (length paragraphs) None) i para) as Hs.
    cbn [Nat.add] in Hs.
    specialize (Hs ltac:(rewrite length_replicate; lia) Hi).
    unfold str, char in *. rewrite Hs.
    unfold is_miss in Hmiss.
    destruct (blank para); [done|].
    destruct (get_cached_in' db para); [done|discriminate Hmiss].
Qed.

Lemma batch_result_length db paragraphs translated indices :
  length (map (fun r : option str => default [] r)
              (stored Some translated O indices
                      (scanned' db O paragraphs
                                (replicate (length paragraphs) None))))
  = length paragraphs.
Proof.
  by rewrite length_map, stored_length, scanned_length, length_replicate.
Qed.

(** C3.  When the provider answers the one request of the call (or no
    request is needed), [translate_batch] on [N] paragraphs returns
    exactly [N] translations, position by position those of the input:
    nothing for a blank paragraph, the cached text for a hit, and for
    the [r]-th miss the [r]-th segment of the response; a miss beyond
    the segments of a short response gets the empty string and the
    segments beyond the misses of a long one are not used. *)
Theorem translate_batch_length_order paragraphs w content :
  let db := cache w in
  let texts := misses' db paragraphs in
  (texts <> [] ->
   is_Some provider /\
   http_post (batch_prompt target_lang (length texts))
             (join BATCH_SEPARATOR texts) = Answered content) ->
  exists res w',
    translate_batch' paragraphs w = (Returns res, w') /\
    length res = length paragraphs /\
    forall i para,
      paragraphs !! i = Some para ->
      res !! i = Some (expected sha256_hexdigest target_lang db
                                (segments content) paragraphs i para).
Proof.
  intros db texts Hcall. subst db texts.
  set (db := cache w) in *. set (texts := misses' db paragraphs) in *.
  destruct (decide (texts = [])) as [Hnone|Hsome].
  - eexists _, _. split; [by apply translate_batch_no_miss|].
    split.
    { by rewrite length_map, scanned_length, length_replicate. }
    intros i para Hi.
    pose proof (batch_result_lookup db paragraphs [] i para Hi) as Hres.
    pose proof (miss_indices_length db paragraphs O) as Hlen.
    fold texts in Hlen. rewrite Hnone in Hlen.
    destruct (miss_indices' db O paragraphs); [|done].
    cbn [stored] in Hres. etrans; [exact Hres|]. unfold expected.
    destruct (blank para) eqn:Hb; [done|].
    destruct (get_cached_in' db para) eqn:Hc; [done|].
    exfalso. assert (para ∈ texts) as Hin;
      [|rewrite Hnone in Hin; by apply elem_of_nil in Hin].
    apply miss_elem. split; [by eapply list_elem_of_lookup_2|].
    unfold is_miss. by rewrite Hb, Hc.
  - destruct (Hcall Hsome) as [[p Hp] Hpost].
    eexists _, _. split; [by apply (translate_batch_miss _ _ p content)|].
    split; [apply batch_result_length|].
    intros i para Hi.
    etrans; [exact (batch_result_lookup db paragraphs _ i para Hi)|].
    unfold expected. destruct (blank para) eqn:Hb; [done|].
    destruct (get_cached_in' db para) eqn:Hc; [done|].
    rewrite fit_nth; [done|].
    apply (miss_rank_lt db paragraphs i para Hi).
    unfold is_miss. by rewrite Hb, Hc.
Qed.


Lemma segments_joined ts :
  ts <> [] ->
  Forall (fun t => contains DASHES t = false) ts ->
  segments (join BATCH_SEPARATOR ts) = map strip ts.
Proof.
  intros Hne Hts. unfold segments.
  rewrite PyStrFacts.split_strip. by apply PyStrFacts.split_join.
Qed.

(** C5 (as amended).  [translate_batch] sends the cache misses in one
    request, joined by the reserved separator (a newline, three
    hyphens, a newline); nothing else is requested.  The response is
    split on the three hyphens alone and every piece is stripped of
    the whitespace around it; the miss of rank [r] receives piece [r].
    So when the provider returns the translations joined by the
    reserved separator and none of them contains three hyphens in a
    row, each miss receives its own translation, stripped. *)
Theorem translate_batch_single_request paragraphs w p content :
  let db := cache w in
  let texts := misses' db paragraphs in
  texts <> [] ->
  provider = Some p ->
  http_post (batch_prompt target_lang (length texts))
            (join BATCH_SEPARATOR texts) = Answered content ->
  exists res w',
    translate_batch' paragraphs w = (Returns res, w') /\
    (exists rows,
        events w' =
          events w ++
          ERequest (batch_prompt target_lang (length texts))
                   (join BATCH_SEPARATOR texts)
            :: cached_events rows) /\
    (forall i para,
        paragraphs !! i = Some para -> is_miss' db para = true ->
        res !! i =
          Some (nth (miss_rank' db paragraphs i)
                    (map strip (split DASHES (strip content))) [])) /\
    (forall ts,
        length ts = length texts ->
        Forall (fun t => contains DASHES t = false) ts ->
        content = join BATCH_SEPARATOR ts ->
        forall i para,
          paragraphs !! i = Some para -> is_miss' db para = true ->
          res !! i = strip <$> ts !! miss_rank' db paragraphs i).
Proof.
  intros db texts Hsome Hp Hpost.
  assert (forall i para segs,
             paragraphs !! i = Some para -> is_miss' db para = true ->
             map (fun r : option str => default [] r)
                 (stored Some (fit (length texts) segs) O
                         (miss_indices' db O paragraphs)
                         (scanned' db O paragraphs
                            (replicate (length paragraphs) None))) !! i
             = Some (nth (miss_rank' db paragraphs i) segs [])) as Hres.
  { intros i para segs Hi Hmiss.
    etrans; [exact (batch_result_lookup db paragraphs _ i para Hi)|].
    pose proof (miss_rank_lt db paragraphs i para Hi Hmiss) as Hlt.
    unfold is_miss in Hmiss. apply andb_prop in Hmiss as [Hb Hc].
    apply negb_true_iff in Hb. rewrite Hb.
    destruct (get_cached_in' db para); [done|].
    by rewrite fit_nth. }
  eexists _, _. split; [by apply (translate_batch_miss _ _ p content)|].
  cbn [events]. split; [by eexists|]. split.
  - intros i para Hi Hmiss. exact (Hres i para _ Hi Hmiss).
  - intros ts Hlen Hts -> i para Hi Hmiss.
    etrans; [exact (Hres i para _ Hi Hmiss)|].
    assert (ts <> []) as Hne.
    { intros ->. destruct texts; [done|discriminate Hlen]. }
    rewrite segments_joined by done.
    pose proof (miss_rank_lt db paragraphs i para Hi Hmiss) as Hlt.
    fold texts in Hlt. rewrite <- Hlen in Hlt.
    destruct (lookup_lt_is_Some_2 ts _ Hlt) as [t Ht].
    rewrite Ht. cbn [fmap option_fmap option_map]. f_equal.
    rewrite nth_lookup, list_lookup_fmap, Ht. done.
Qed.

End Facts.

(** *** A miss the response has no segment for *)

Section Unfilled.
Variable sha256_hexdigest : str -> str.
Variable target_lang : str.

Abbreviation hash_of para := (_make_hash sha256_hexdigest para target_lang).

Lemma fit_nth_blank n segs j :
  (length segs <= j)%nat -> nth j (fit n segs) [] = [].
Proof.
  intros Hj. destruct (decide (j < n)%nat) as [Hlt|Hge].
  - rewrite fit_nth by done. by apply nth_overflow.
  - apply nth_overflow. rewrite fit_length. lia.
Qed.

Lemma written_rows_app provider paragraphs translated j a b :
  written_rows sha256_hexdigest provider target_lang
               paragraphs translated j (a ++ b)
  = written_rows sha256_hexdigest provider target_lang
                 paragraphs translated j a
    ++ written_rows sha256_hexdigest provider target_lang
                    paragraphs translated (j + length a) b.
Proof.
  revert j. induction a as [|idx a IH]; intros j; simpl.
  { by rewrite Nat.add_0_r. }
  rewrite IH. do 3 f_equal. lia.
Qed.

Lemma written_rows_blank provider paragraphs translated j indices :
  (forall j', (j <= j')%nat -> nth j' translated [] = []) ->
  Forall (fun row => Database.translated_text row.2 = [])
         (written_rows sha256_hexdigest provider target_lang
                       paragraphs translated j indices).
Proof.
  revert j. induction indices as [|idx rest IH]; intros j Hj; simpl.
  { apply Forall_nil_2. }
  apply Forall_cons. split.
  - simpl. apply Hj. lia.
  - apply IH. intros j' Hj'. apply Hj. lia.
Qed.

(** After rows that all carry the empty translation, a key that is
    among them, or already held it, holds the empty translation. *)
Lemma apply_rows_blank (rows : list (str * Database.CacheRow))
      (db : gmap str Database.CacheRow) (h : str) :
  Forall (fun row => Database.translated_text row.2 = []) rows ->
  h ∈ map fst rows \/ Database.get_cached_translation db h = Some [] ->
  Database.get_cached_translation (apply_rows db rows) h = Some [].
Proof.
  unfold Database.get_cached_translation.
  intros Hrows. revert db.
  induction Hrows as [|row rows Hrow Hrows IH]; intros db Hh; simpl.
  { destruct Hh as [Hin|Hdb]; [by apply elem_of_nil in Hin|done]. }
  apply IH. destruct (decide (row.1 = h)) as [<-|Hne].
  - right. by rewrite lookup_insert_eq; simpl; rewrite Hrow.
  - rewrite lookup_insert_ne by done.
    destruct Hh as [Hin|Hdb]; [|by right].
    left. simpl in Hin. by apply elem_of_cons in Hin as [?|?].
Qed.

Lemma apply_rows_app (db : gmap str Database.CacheRow)
      (a b : list (str * Database.CacheRow)) :
  apply_rows db (a ++ b) = apply_rows (apply_rows db a) b.
Proof. unfold apply_rows. apply foldl_app. Qed.

Lemma hit_not_miss db para :
  Database.get_cached_translation db (hash_of para) = Some [] ->
  get_cached_in sha256_hexdigest target_lang db para = Some [] /\
  is_translated_in sha256_hexdigest target_lang db para = true /\
  is_miss sha256_hexdigest target_lang db para = false.
Proof.
  intros Hrow. unfold is_miss, get_cached_in, is_translated_in.
  destruct (blank para); [done|]. by rewrite Hrow.
Qed.

(** C10.  When a [translate_batch] call completes and the response has
    no segment for a miss, the cache row written for that paragraph
    and target language holds the empty string.  From then on, as long
    as the row holds it, [get_cached] returns the empty string,
    [is_translated] is true, the paragraph is never among the misses
    of a later [translate_batch] call, and a call for it returns the
    empty string without a request and without a cache write, whatever
    the provider would answer. *)
Theorem unfilled_miss_cached_empty
        provider http_post interference paragraphs w p content i para :
  let db := cache w in
  let texts := misses sha256_hexdigest target_lang db paragraphs in
  provider = Some p ->
  http_post (batch_prompt target_lang (length texts))
            (join BATCH_SEPARATOR texts) = Answered content ->
  paragraphs !! i = Some para ->
  is_miss sha256_hexdigest target_lang db para = true ->
  (length (segments content)
   <= miss_rank sha256_hexdigest target_lang db paragraphs i)%nat ->
  exists res w',
    translate_batch sha256_hexdigest provider target_lang http_post
                    interference paragraphs w = (Returns res, w') /\
    res !! i = Some [] /\
    Database.get_cached_translation (cache w') (hash_of para) = Some [] /\
    forall w2,
      Database.get_cached_translation (cache w2) (hash_of para) = Some [] ->
      get_cached sha256_hexdigest target_lang para w2
        = (Returns (Some []), w2) /\
      is_translated_in sha256_hexdigest target_lang (cache w2) para = true /\
      (forall qs, para ∉ misses sha256_hexdigest target_lang (cache w2) qs) /\
      (forall provider' http_post' interference',
          translate_batch sha256_hexdigest provider' target_lang http_post'
                          interference' [para] w2 = (Returns [[]], w2)).
Proof.
  intros db texts Hp Hpost Hi Hmiss Hshort.
  assert (texts <> []) as Hsome.
  { intros Hnil. assert (para ∈ texts) as Hin.
    { apply miss_elem. split; [by eapply list_elem_of_lookup_2|done]. }
    rewrite Hnil in Hin. by apply elem_of_nil in Hin. }
  set (r := miss_rank sha256_hexdigest target_lang db paragraphs i) in *.
  set (indices := miss_indices sha256_hexdigest target_lang db O paragraphs).
  set (translated := fit (length texts) (segments content)).
  pose proof (miss_indices_rank sha256_hexdigest target_lang
                db paragraphs O i para Hi Hmiss) as Hr.
  fold r indices in Hr. cbn [Nat.add] in Hr.
  eexists _, _. split.
  { by apply (translate_batch_miss sha256_hexdigest provider target_lang
                http_post interference paragraphs w p content). }
  split; [|split].
  - etrans; [exact (batch_result_lookup sha256_hexdigest target_lang
                      db paragraphs _ i para Hi)|].
    unfold is_miss in Hmiss. apply andb_prop in Hmiss as [Hb Hc].
    apply negb_true_iff in Hb. rewrite Hb.
    destruct (get_cached_in sha256_hexdigest target_lang db para);
      [done|].
    f_equal. by apply fit_nth_blank.
  - cbn [cache]. fold db indices translated.
    rewrite <- (take_drop r indices), written_rows_app, apply_rows_app.
    apply apply_rows_blank.
    + apply written_rows_blank. intros j' Hj'.
      apply fit_nth_blank. rewrite length_take in Hj'.
      pose proof (lookup_lt_Some _ _ _ Hr). lia.
    + left. rewrite (drop_S _ _ _ Hr). cbn [written_rows map fst].
      rewrite nth_lookup, Hi. apply elem_of_cons. by left.
  - intros w2 Hrow.
    destruct (hit_not_miss (cache w2) para Hrow) as (Hget & Htr & Hnm).
    split; [unfold get_cached; by rewrite Hget|]. split; [done|].
    split.
    + intros qs [_ Hin]%miss_elem. congruence.
    + intros provider' http_post' interference'.
      rewrite translate_batch_no_miss.
      2:{ unfold misses. simpl. by rewrite Hnm. }
      cbn [scanned length replicate]. rewrite Hget.
      destruct (blank para); done.
Qed.

End Unfilled.

(** *** The engine on sample inputs *)

Lemma translate_batch_length_order_witness :
  exists res w',
    translate_batch Samples.plain_digest (Some Samples.openai) Samples.zh
                    (Samples.answer (lit "x---y")) Samples.quiet
                    Samples.four_paragraphs Samples.fresh
      = (Returns res, w') /\
    length res = length Samples.four_paragraphs /\
    forall i para,
      Samples.four_paragraphs !! i = Some para ->
      res !! i = Some (expected Samples.plain_digest Samples.zh
                                (cache Samples.fresh)
                                (segments (lit "x---y"))
                                Samples.four_paragraphs i para).
Proof.
  apply (translate_batch_length_order
           Samples.plain_digest (Some Samples.openai) Samples.zh
           (Samples.answer (lit "x---y")) Samples.quiet
           Samples.four_paragraphs Samples.fresh (lit "x---y")).
  intros _. split; [by eexists|reflexivity].
Defined.

Lemma translate_batch_single_request_witness :
  misses Samples.plain_digest Samples.zh (cache Samples.fresh)
         [lit "one"; lit "two"] = [lit "one"; lit "two"] /\
  exists res w',
    translate_batch Samples.plain_digest (Some Samples.openai) Samples.zh
                    (Samples.answer
                       (join BATCH_SEPARATOR [lit "eins"; lit "zwei"]))
                    Samples.quiet [lit "one"; lit "two"] Samples.fresh
      = (Returns res, w') /\
    res !! 1%nat = Some (lit "zwei").
Proof.
  split; [reflexivity|].
  destruct (translate_batch_single_request
              Samples.plain_digest (Some Samples.openai) Samples.zh
              (Samples.answer (join BATCH_SEPARATOR [lit "eins"; lit "zwei"]))
              Samples.quiet [lit "one"; lit "two"] Samples.fresh
              Samples.openai
              (join BATCH_SEPARATOR [lit "eins"; lit "zwei"]))
    as (res & w' & Hrun & _ & _ & Hown);
    [discriminate|reflexivity|reflexivity|].
  exists res, w'. split; [exact Hrun|].
  exact (Hown [lit "eins"; lit "zwei"] eq_refl
              ltac:(repeat constructor) eq_refl 1%nat (lit "two")
              eq_refl eq_refl).
Defined.

(** C5, as the specification words it, fails: the response is not split
    on the reserved separator.  Two translations joined by the separator,
    the first containing three hyphens, come back as three pieces; the
    second paragraph receives the tail of the first translation and its
    own translation is dropped.  Splitting on the separator itself would
    have returned both. *)
Lemma translate_batch_splits_on_hyphens :
  let content := join BATCH_SEPARATOR Samples.dashed_translations in
  split BATCH_SEPARATOR content = Samples.dashed_translations /\
  (translate_batch Samples.plain_digest (Some Samples.openai) Samples.zh
                   (Samples.answer content) Samples.quiet
                   [lit "one"; lit "two"] Samples.fresh).1
    = Returns [lit "a"; lit "b"] /\
  [lit "a"; lit "b"] <> Samples.dashed_translations.
Proof. split; [reflexivity|]. split; [reflexivity|discriminate]. Qed.

Lemma unfilled_miss_cached_empty_witness :
  exists res w',
    translate_batch Samples.plain_digest (Some Samples.openai) Samples.zh
                    (Samples.answer (lit "x---y")) Samples.quiet
                    Samples.four_paragraphs Samples.fresh
      = (Returns res, w') /\
    res !! 3%nat = Some [] /\
    Database.get_cached_translation
      (cache w')
      (_make_hash Samples.plain_digest (lit "Three") Samples.zh) = Some [] /\
    translate_batch Samples.plain_digest None Samples.zh
                    Samples.offline Samples.quiet [lit "Three"] w'
      = (Returns [[]], w').
Proof.
  destruct (unfilled_miss_cached_empty
              Samples.plain_digest Samples.zh
              (Some Samples.openai) (Samples.answer (lit "x---y"))
              Samples.quiet Samples.four_paragraphs Samples.fresh
              Samples.openai (lit "x---y") 3%nat (lit "Three"))
    as (res & w' & Hrun & Hres & Hrow & Hlater);
    [reflexivity|reflexivity|reflexivity|reflexivity|vm_compute; lia|].
  exists res, w'. split; [exact Hrun|]. split; [exact Hres|].
  split; [exact Hrow|].
  destruct (Hlater w' Hrow) as (_ & _ & _ & Hagain).
  exact (Hagain None Samples.offline Samples.quiet).
Defined.

(** C10, as the specification words it, fails in its last words: the
    paragraph is retried.  [translate_all] tests [results[i]] for
    truth, so a paragraph whose cached translation is the empty string
    is sent to the provider again, and the answer overwrites the row.
    Here [translate_batch] stores ["Three"] with the empty string, a
    later [translate_all] of that paragraph issues one request for it,
    and from then on [get_cached] returns the new answer. *)
Lemma translate_all_retries_empty_translation :
  let first :=
    translate_batch Samples.plain_digest (Some Samples.openai) Samples.zh
                    (Samples.answer (lit "x---y")) Samples.quiet
                    Samples.four_paragraphs Samples.fresh in
  let second :=
    translate_all Samples.plain_digest (Some Samples.openai) Samples.zh
                  (Samples.answer (lit "drei")) Samples.quiet
                  [lit "Three"] false first.2 in
  get_cached Samples.plain_digest Samples.zh (lit "Three") first.2
  = (Returns (Some []), first.2) /\
  second.1 = Returns [lit "drei"] /\
  List.filter is_request (drop (length (events first.2)) (events second.2))
  = [ERequest (batch_prompt Samples.zh 1) (lit "Three")] /\
  (get_cached Samples.plain_digest Samples.zh (lit "Three") second.2).1
  = Returns (Some (lit "drei")).
Proof. vm_compute. done. Qed.

End EngineFacts.

(** * Cancelling [translate_all] *)

Module CancelFacts.
Import Engine Terms EngineFacts.

Ltac run_in H :=
  cbv beta iota zeta
      delta [bind log suspend ret raise read_cancel get_cached
             default from_option id] in H;
  cbn [cache _cancel suspensions events] in H.

Section Facts.
Variable sha256_hexdigest : str -> str.
Variable provider : option TranslationProviderConfig.
Variable target_lang : str.
Variable http_post : str -> str -> reply.
Variable interference : nat -> bool -> bool.

Abbreviation written_rows' :=
  (written_rows sha256_hexdigest provider target_lang).
Abbreviation chunk_rows' :=
  (chunk_rows sha256_hexdigest provider target_lang).
Abbreviation completed' :=
  (completed sha256_hexdigest provider target_lang http_post).
Abbreviation dispatch' :=
  (dispatch sha256_hexdigest provider target_lang http_post interference).
Abbreviation all_loop' :=
  (all_loop sha256_hexdigest provider target_lang http_post interference).
Abbreviation all_cached' := (all_cached sha256_hexdigest target_lang).
Abbreviation translate_all' :=
  (translate_all sha256_hexdigest provider target_lang http_post
                 interference).

(** *** Replaying the log *)

Lemma replay_app db a b : replay (replay db a) b = replay db (a ++ b).
Proof. unfold replay. by rewrite foldl_app. Qed.

Lemma replay_cached db rows :
  replay db (cached_events rows) = apply_rows db rows.
Proof.
  revert db. induction rows as [|row rows IH]; intros db; [done|].
  simpl. apply IH.
Qed.

Lemma replay_request db prompt text rest :
  replay db (ERequest prompt text :: rest) = replay db rest.
Proof. done. Qed.

Lemma replay_progress db b done total :
  replay db (progress_events b done total) = db.
Proof. by destruct b. Qed.

Lemma written_rows_chunk paragraphs translated j indices :
  written_rows' paragraphs translated j indices
  = chunk_rows' translated j (map (fun k => nth k paragraphs []) indices).
Proof.
  revert j. induction indices as [|idx rest IH]; intros j; [done|].
  simpl. by rewrite IH.
Qed.

Lemma written_rows_texts paragraphs translated indices texts :
  texts = map (fun k => nth k paragraphs []) indices ->
  written_rows' paragraphs translated O indices
  = chunk_rows' translated O texts.
Proof. intros ->. apply written_rows_chunk. Qed.

Lemma completed_app a b : completed' a -> completed' b -> completed' (a ++ b).
Proof.
  intros Ha Hb. induction Ha as [|d t rest Hrest IH
                                 |texts content rest Hne Hlen Hpost Hrest IH];
    simpl.
  - done.
  - by apply completed_progress.
  - rewrite <- app_assoc. by apply completed_chunk.
Qed.

Lemma completed_progress_events b done total :
  completed' (progress_events b done total).
Proof. destruct b; simpl; repeat constructor. Qed.

(** *** The steps of the loop *)

Lemma report_spec b done total w :
  exists w',
    report interference b done total w = (Returns tt, w') /\
    events w' = events w ++ progress_events b done total /\
    cache w' = cache w.
Proof.
  unfold report. destruct b.
  - run. eexists. split; [done|]. simpl. done.
  - run. eexists. split; [done|]. simpl. by rewrite app_nil_r.
Qed.

(** A chunk whose call returns was answered, and is stored whole
    before anything else happens. *)
Lemma dispatch_returns b paragraphs total st w st2 w1 :
  dispatch' b paragraphs total st w = (Returns st2, w1) ->
  exists content,
    http_post (batch_prompt target_lang (length (batch_texts st)))
              (join BATCH_SEPARATOR (batch_texts st)) = Answered content /\
    batch_indices st2 = batch_indices st /\
    batch_texts st2 = batch_texts st /\
    events w1 =
      events w ++
      ERequest (batch_prompt target_lang (length (batch_texts st)))
               (join BATCH_SEPARATOR (batch_texts st))
        :: cached_events
             (written_rows' paragraphs
                (fit (length (batch_texts st)) (segments content)) O
                (batch_indices st))
        ++ progress_events b (done st + length (batch_indices st)) total /\
    cache w1 =
      apply_rows (cache w)
        (written_rows' paragraphs
           (fit (length (batch_texts st)) (segments content)) O
           (batch_indices st)).
Proof.
  unfold dispatch. intros Hrun.
  destruct provider as [p|] eqn:Hp.
  2:{ destruct (_call_api_batch_raises None target_lang http_post
                  interference (batch_texts st) w RuntimeError)
        as (e' & w' & Hraise); [by left|].
      unfold bind at 1 in Hrun. rewrite Hraise in Hrun. done. }
  destruct (http_post (batch_prompt target_lang (length (batch_texts st)))
                      (join BATCH_SEPARATOR (batch_texts st)))
    as [content|e] eqn:Hpost.
  2:{ destruct (_call_api_batch_raises (Some p) target_lang http_post
                  interference (batch_texts st) w e)
        as (e' & w' & Hraise); [by right|].
      unfold bind at 1 in Hrun. rewrite Hraise in Hrun. done. }
  exists content. split; [done|].
  unfold bind at 1 in Hrun.
  rewrite (_call_api_batch_spec (Some p) target_lang http_post interference
             (batch_texts st) w p content eq_refl Hpost) in Hrun.
  unfold bind at 1 in Hrun. rewrite store_batch_spec in Hrun.
  unfold bind at 1 in Hrun.
  match type of Hrun with
  | context [report ?i ?b ?d ?t ?w0] =>
      destruct (report_spec b d t w0) as (w' & Hrep & Hev & Hcache)
  end.
  rewrite Hrep in Hrun. unfold ret in Hrun.
  injection Hrun as <- <-. cbn [batch_indices batch_texts results done].
  split; [done|]. split; [done|].
  rewrite Hev, Hcache. cbn [events cache].
  split; [|done]. by rewrite <- !app_assoc.
Qed.


Lemma drop_cons_inv {A} (l : list A) i x rest :
  drop i l = x :: rest -> l !! i = Some x /\ drop (S i) l = rest.
Proof.
  intros Hdrop. split.
  - rewrite <- (Nat.add_0_r i), <- lookup_drop, Hdrop. done.
  - replace (S i) with (i + 1)%nat by lia.
    rewrite <- (drop_drop l 1 i), Hdrop. done.
Qed.

(** The loop of [translate_all]: its part of the log is a stretch of
    completed chunks, followed by one observation of the flag when the
    loop was left by [break]; in that case the flag is still set when
    the loop is left. *)
Lemma all_loop_trace on_progress paragraphs total paras :
  forall i st w st' w',
    drop i paragraphs = paras ->
    batch_texts st = map (fun k => nth k paragraphs []) (batch_indices st) ->
    (length (batch_texts st) < BATCH_MAX_PARAGRAPHS)%nat ->
    all_loop' on_progress paragraphs total i paras st w = (Returns st', w') ->
    exists body stop,
      events w' = events w ++ body ++ stop /\
      completed' body /\
      (stop = [] \/ stop = [ECancelSeen] /\ _cancel w' = true) /\
      cache w' = replay (cache w) body /\
      batch_texts st'
      = map (fun k => nth k paragraphs []) (batch_indices st') /\
      (length (batch_texts st') < BATCH_MAX_PARAGRAPHS)%nat.
Proof.
  induction paras as [|para rest IH];
    intros i st w st' w' Hdrop Hbt Hlen Hrun.
  { injection Hrun as <- <-. exists [], [].
    rewrite app_nil_r. repeat split; try done; [constructor|by left]. }
  apply drop_cons_inv in Hdrop as [Hi Hrest].
  cbn [all_loop] in Hrun. unfold bind at 1, read_cancel in Hrun.
  destruct (_cancel w) eqn:Hflag.
  { run_in Hrun. injection Hrun as <- <-. exists [], [ECancelSeen].
    cbn [events cache _cancel]. repeat split; try done; [constructor|].
    by right. }
  destruct (negb (bool_decide (nth i (results st) [] = []))).
  { by apply (IH (S i) st w st' w'). }
  destruct (blank para).
  { exact (IH (S i)
                (mkLocals (<[i := []]> (results st)) (S (done st))
                          (batch_indices st) (batch_texts st))
                w st' w' Hrest Hbt Hlen Hrun). }
  match type of Hrun with
  | context [dispatch' _ _ _ ?s] => set (st1 := s) in *
  end.
  assert (batch_texts st1
          = map (fun k => nth k paragraphs []) (batch_indices st1)) as Hbt1.
  { subst st1. cbn [batch_texts batch_indices].
    rewrite map_app, <- Hbt. simpl. by rewrite nth_lookup, Hi. }
  destruct (BATCH_MAX_PARAGRAPHS <=? length (batch_texts st1))%nat eqn:Hfull.
  2:{ apply Nat.leb_gt in Hfull.
      by apply (IH (S i) st1 w st' w'). }
  unfold bind at 1 in Hrun.
  destruct (dispatch' on_progress paragraphs total st1 w) as [[st2|e] w1]
    eqn:Hdispatch; [|done].
  apply dispatch_returns in Hdispatch
    as (content & Hpost & Hbi & Hbtx & Hev & Hcache).
  unfold bind at 1, suspend in Hrun.
  match type of Hrun with
  | all_loop' _ _ _ _ _ ?st3 ?w3 = _ =>
      destruct (IH (S i) st3 w3 st' w' Hrest) as
        (body & stop & Hev' & Hbody & Hstop & Hcache' & Hbt' & Hlen');
      [done|cbn; unfold BATCH_MAX_PARAGRAPHS; lia|exact Hrun|]
  end.
  cbn [events cache] in Hev', Hcache'.
  rewrite (written_rows_texts _ _ _ _ Hbt1) in Hev, Hcache.
  eexists (ERequest _ _ :: cached_events _ ++ progress_events _ _ _ ++ body),
          stop.
  split.
  { rewrite Hev', Hev. rewrite <- !app_assoc. simpl.
    by rewrite <- !app_assoc. }
  split.
  { apply (completed_chunk _ _ _ _ (batch_texts st1) content).
    - subst st1. cbn [batch_texts]. by destruct (batch_texts st).
    - subst st1. cbn [batch_texts] in *. rewrite length_app. simpl.
      unfold BATCH_MAX_PARAGRAPHS in *. lia.
    - done.
    - apply completed_app; [apply completed_progress_events|done]. }
  split; [done|]. split; [|done].
  rewrite Hcache', Hcache. symmetry.
  rewrite replay_request, <- !replay_app, replay_cached, replay_progress.
  done.
Qed.


Lemma all_cached_spec paras i results done w :
  exists r d, all_cached' i paras results done w = (Returns (r, d), w).
Proof.
  revert i results done. induction paras as [|para rest IH];
    intros i results done.
  { by eexists _, _. }
  cbn [all_cached]. unfold bind, get_cached.
  destruct (get_cached_in _ _ _ _); apply IH.
Qed.

Lemma replay_stops db stops :
  Forall (fun e => e = ECancelSeen) stops -> replay db stops = db.
Proof.
  intros Hstops. induction Hstops as [|e stops -> _ IH]; [done|].
  exact IH.
Qed.

(** The whole run: completed chunks, then nothing but observations of
    the flag. *)
Lemma translate_all_trace paragraphs on_progress w res w' :
  translate_all' paragraphs on_progress w = (Returns res, w') ->
  exists body stops,
    events w' = events w ++ body ++ stops /\
    completed' body /\
    Forall (fun e => e = ECancelSeen) stops /\
    cache w' = replay (cache w) body /\
    (stops <> [] -> _cancel w' = true).
Proof.
  unfold translate_all. intros Hrun. unfold bind at 1 in Hrun.
  destruct (all_cached_spec paragraphs O
              (replicate (length paragraphs) []) O w) as (r & d & Hcached).
  rewrite Hcached in Hrun. unfold bind at 1 in Hrun.
  destruct (report_spec on_progress d (length paragraphs) w)
    as (w0 & Hrep & Hev0 & Hcache0).
  rewrite Hrep in Hrun. unfold bind at 1 in Hrun.
  destruct (all_loop' on_progress paragraphs (length paragraphs) O
                      paragraphs (mkLocals r d [] []) w0)
    as [[st|e] w1] eqn:Hloop; [|done].
  apply all_loop_trace in Hloop
    as (body & stop & Hev1 & Hbody & Hstop & Hcache1 & Hbt & Hlen);
    [|done|done|cbn; unfold BATCH_MAX_PARAGRAPHS; lia].
  assert (batch_texts st = [] \/ batch_texts st <> []) as [Hnil|Hsome]
    by (destruct (batch_texts st); [by left|by right]).
  { rewrite Hnil in Hrun. injection Hrun as <- <-.
    exists (progress_events on_progress d (length paragraphs) ++ body), stop.
    split; [by rewrite Hev1, Hev0, <- !app_assoc|].
    split; [apply completed_app;
            [apply completed_progress_events|done]|].
    split.
    { destruct Hstop as [->|[-> _]]; repeat constructor. }
    split; [by rewrite Hcache1, Hcache0, <- replay_app, replay_progress|].
    by destruct Hstop as [->|[_ Hset]]. }
  destruct (batch_texts st) as [|t ts] eqn:Htexts; [done|].
  cbv iota in Hrun. rewrite <- Htexts in *. clear t ts Htexts.
  unfold bind at 1, read_cancel in Hrun.
  destruct (_cancel w1) eqn:Hflag.
  { run_in Hrun. injection Hrun as <- <-. cbn [events cache].
    exists (progress_events on_progress d (length paragraphs) ++ body),
           (stop ++ [ECancelSeen]).
    split; [by rewrite Hev1, Hev0, <- !app_assoc|].
    split; [apply completed_app;
            [apply completed_progress_events|done]|].
    split.
    { destruct Hstop as [->|[-> _]]; repeat constructor. }
    split; [by rewrite Hcache1, Hcache0, <- replay_app, replay_progress|].
    done. }
  destruct Hstop as [->|[_ Hset]]; [|congruence].
  unfold bind at 1 in Hrun.
  destruct (dispatch' on_progress paragraphs (length paragraphs) st w1)
    as [[st2|e] w2] eqn:Hdispatch; [|done].
  injection Hrun as <- <-.
  apply dispatch_returns in Hdispatch
    as (content & Hpost & _ & _ & Hev2 & Hcache2).
  rewrite (written_rows_texts _ _ _ _ Hbt) in Hev2, Hcache2.
  exists (progress_events on_progress d (length paragraphs) ++ body ++
          ERequest (batch_prompt target_lang (length (batch_texts st)))
                   (join BATCH_SEPARATOR (batch_texts st))
            :: cached_events
                 (chunk_rows' (fit (length (batch_texts st))
                                   (segments content)) O (batch_texts st))
            ++ progress_events on_progress
                 (done st + length (batch_indices st)) (length paragraphs)),
         [].
  split.
  { rewrite Hev2, Hev1, Hev0, !app_nil_r, <- !app_assoc. done. }
  split.
  { apply completed_app; [apply completed_progress_events|].
    apply completed_app; [done|].
    apply (completed_chunk _ _ _ _ (batch_texts st) content).
    - done.
    - lia.
    - done.
    - apply completed_progress_events. }
  split; [constructor|]. split; [|done].
  rewrite Hcache2, Hcache1, Hcache0.
  rewrite <- !replay_app, replay_progress, replay_request.
  by rewrite <- replay_app, replay_cached, replay_progress.
Qed.


(** *** Reading the log *)

Lemma cached_events_no_cancel rows : ECancelSeen ∉ cached_events rows.
Proof.
  induction rows as [|row rows IH]; simpl.
  - apply not_elem_of_nil.
  - apply not_elem_of_cons. done.
Qed.

Lemma completed_no_cancel body : completed' body -> ECancelSeen ∉ body.
Proof.
  induction 1 as [|d t rest Hrest IH
                  |texts content rest Hne Hlen Hpost Hrest IH].
  - apply not_elem_of_nil.
  - apply not_elem_of_cons. done.
  - apply not_elem_of_cons. split; [done|].
    apply not_elem_of_app. split; [apply cached_events_no_cancel|done].
Qed.

(** An observation of the flag lies behind the completed chunks. *)
Lemma cancel_in_stops body stops pre post :
  ECancelSeen ∉ body ->
  body ++ stops = pre ++ ECancelSeen :: post ->
  exists front, stops = front ++ ECancelSeen :: post.
Proof.
  revert pre. induction body as [|e body IH]; intros pre Hbody Heq.
  { by exists pre. }
  apply not_elem_of_cons in Hbody as [Hne Hbody].
  destruct pre as [|e' pre]; simpl in Heq.
  - injection Heq as -> _. done.
  - injection Heq as _ Heq. by apply (IH pre).
Qed.

Lemma cached_events_split rows rest pre prompt text post :
  cached_events rows ++ rest = pre ++ ERequest prompt text :: post ->
  exists pre', rest = pre' ++ ERequest prompt text :: post.
Proof.
  revert pre. induction rows as [|row rows IH]; intros pre Heq.
  { by exists pre. }
  destruct pre as [|e pre]; simpl in Heq; [done|].
  injection Heq as _ Heq. by apply (IH pre).
Qed.

(** A request in the log is the head of a completed chunk. *)
Lemma request_completed body stops pre prompt text post :
  completed' body ->
  Forall (fun e => e = ECancelSeen) stops ->
  body ++ stops = pre ++ ERequest prompt text :: post ->
  exists texts content rest,
    texts <> [] /\
    (length texts <= BATCH_MAX_PARAGRAPHS)%nat /\
    prompt = batch_prompt target_lang (length texts) /\
    text = join BATCH_SEPARATOR texts /\
    http_post prompt text = Answered content /\
    post = cached_events
             (chunk_rows' (fit (length texts) (segments content)) O texts)
           ++ rest.
Proof.
  intros Hbody Hstops. revert pre.
  induction Hbody as [|d t body Hbody IH
                      |texts content body Hne Hlen Hpost Hbody IH];
    intros pre Heq.
  - exfalso. simpl in Heq.
    assert (ERequest prompt text ∈ stops) as Hin.
    { rewrite Heq. apply elem_of_app. right. apply elem_of_cons. by left. }
    by apply (proj1 (Forall_forall _ _) Hstops) in Hin.
  - destruct pre as [|e pre]; simpl in Heq; [done|].
    injection Heq as _ Heq. by apply (IH pre).
  - destruct pre as [|e pre]; simpl in Heq.
    + injection Heq as <- <- <-.
      exists texts, content, (body ++ stops).
      by rewrite <- app_assoc.
    + injection Heq as _ Heq. rewrite <- app_assoc in Heq.
      apply cached_events_split in Heq as [pre' Heq].
      by apply (IH pre').
Qed.

(** *** Runs that do not fail *)

Lemma dispatch_total p b paragraphs total st w :
  provider = Some p ->
  (forall prompt text, answered (http_post prompt text)) ->
  exists st2 w1, dispatch' b paragraphs total st w = (Returns st2, w1).
Proof.
  intros Hp Hhttp. unfold dispatch.
  destruct (Hhttp (batch_prompt target_lang (length (batch_texts st)))
                  (join BATCH_SEPARATOR (batch_texts st)))
    as [content Hpost].
  unfold bind at 1.
  rewrite (_call_api_batch_spec provider target_lang http_post interference
             (batch_texts st) w p content Hp Hpost).
  unfold bind at 1. rewrite store_batch_spec. unfold bind at 1.
  match goal with
  | |- context [report ?i ?b ?d ?t ?w0] =>
      destruct (report_spec b d t w0) as (w' & Hrep & _ & _)
  end.
  rewrite Hrep. by eexists _, _.
Qed.

Lemma all_loop_total p b paragraphs total paras :
  provider = Some p ->
  (forall prompt text, answered (http_post prompt text)) ->
  forall i st w,
    exists st' w', all_loop' b paragraphs total i paras st w = (Returns st', w').
Proof.
  intros Hp Hhttp. induction paras as [|para rest IH]; intros i st w.
  { by eexists _, _. }
  cbn [all_loop]. unfold bind at 1, read_cancel.
  destruct (_cancel w); [run; by eexists _, _|].
  destruct (negb _); [apply IH|].
  destruct (blank para); [apply IH|].
  destruct (_ <=? _)%nat; [|apply IH].
  unfold bind at 1.
  match goal with
  | |- context [dispatch' _ _ _ ?s w] =>
      destruct (dispatch_total p b paragraphs total s w Hp Hhttp)
        as (st2 & w1 & Hd)
  end.
  rewrite Hd. unfold bind at 1, suspend. apply IH.
Qed.

(** *** A flag that stays set *)

Abbreviation budget n w :=
  (requests (events w) + (S n - suspensions w))%nat.

Lemma requests_app a b : requests (a ++ b) = (requests a + requests b)%nat.
Proof. unfold requests. by rewrite List.filter_app, length_app. Qed.

Lemma requests_cached rows : requests (cached_events rows) = O.
Proof. by induction rows. Qed.

Lemma requests_progress b done total :
  requests (progress_events b done total) = O.
Proof. by destruct b. Qed.

Lemma requests_none evs :
  requests evs = O -> Forall (fun e => is_request e = false) evs.
Proof.
  unfold requests. induction evs as [|e evs IH]; [constructor|].
  cbn [List.filter]. destruct (is_request e) eqn:He; [done|].
  intros Hnone. constructor; [done|by apply IH].
Qed.

(** An await keeps the flag set once [cancel()] has been called. *)
Lemma sticky_flag n w :
  cancel_sticks interference n -> cancelled_since n w ->
  (n < S (suspensions w))%nat ->
  interference (suspensions w) (_cancel w) = true.
Proof.
  intros [Hset Hkeep] Hinv Hlt.
  destruct (decide (suspensions w = n)) as [->|Hne]; [apply Hset|].
  rewrite Hinv by lia. apply Hkeep. lia.
Qed.

Lemma report_keeps n b done total w :
  cancel_sticks interference n -> cancelled_since n w ->
  exists w1,
    report interference b done total w = (Returns tt, w1) /\
    cancelled_since n w1 /\
    (budget n w1 <= budget n w)%nat.
Proof.
  intros Hsticks Hinv. unfold report. destruct b.
  - run. eexists. split; [done|]. unfold cancelled_since.
    cbn [_cancel suspensions events]. split.
    + by apply sticky_flag.
    + rewrite requests_app. cbn. lia.
  - run. eexists. split; [done|]. by split.
Qed.

(** A chunk that is sent while the flag is clear takes one request
    from the budget, and the await of its call sets the flag when it
    is the await during which [cancel()] is called. *)
Lemma dispatch_keeps n b paragraphs total st w st2 w1 :
  cancel_sticks interference n -> cancelled_since n w ->
  _cancel w = false ->
  dispatch' b paragraphs total st w = (Returns st2, w1) ->
  cancelled_since n w1 /\ (budget n w1 <= budget n w)%nat.
Proof.
  unfold dispatch. intros Hsticks Hinv Hflag Hrun.
  assert (suspensions w <= n)%nat as Hle.
  { destruct (decide (n < suspensions w)%nat) as [Hlt|Hge]; [|lia].
    specialize (Hinv Hlt). congruence. }
  destruct provider as [p|] eqn:Hp.
  2:{ destruct (_call_api_batch_raises None target_lang http_post
                  interference (batch_texts st) w RuntimeError)
        as (e' & w' & Hraise); [by left|].
      unfold bind at 1 in Hrun. rewrite Hraise in Hrun. done. }
  destruct (http_post (batch_prompt target_lang (length (batch_texts st)))
                      (join BATCH_SEPARATOR (batch_texts st)))
    as [content|e] eqn:Hpost.
  2:{ destruct (_call_api_batch_raises (Some p) target_lang http_post
                  interference (batch_texts st) w e)
        as (e' & w' & Hraise); [by right|].
      unfold bind at 1 in Hrun. rewrite Hraise in Hrun. done. }
  unfold bind at 1 in Hrun.
  rewrite (_call_api_batch_spec (Some p) target_lang http_post interference
             (batch_texts st) w p content eq_refl Hpost) in Hrun.
  unfold bind at 1 in Hrun. rewrite store_batch_spec in Hrun.
  unfold bind at 1 in Hrun.
  cbn [cache _cancel suspensions events] in Hrun.
  match type of Hrun with
  | context [report ?i ?b ?d ?t ?w0] =>
      destruct (report_keeps n b d t w0 Hsticks)
        as (w' & Hrep & Hinv' & Hbudget)
  end.
  { unfold cancelled_since. cbn [_cancel suspensions].
    by apply sticky_flag. }
  rewrite Hrep in Hrun. unfold ret in Hrun.
  injection Hrun as <- <-. split; [done|].
  cbn [suspensions events] in Hbudget.
  rewrite !requests_app, requests_cached in Hbudget. cbn in Hbudget.
  lia.
Qed.

Lemma all_loop_keeps n on_progress paragraphs total paras :
  cancel_sticks interference n ->
  forall i st w st' w',
    cancelled_since n w ->
    all_loop' on_progress paragraphs total i paras st w = (Returns st', w') ->
    cancelled_since n w' /\ (budget n w' <= budget n w)%nat.
Proof.
  intros Hsticks. induction paras as [|para rest IH];
    intros i st w st' w' Hinv Hrun.
  { injection Hrun as <- <-. by split. }
  cbn [all_loop] in Hrun. unfold bind at 1, read_cancel in Hrun.
  destruct (_cancel w) eqn:Hflag.
  { run_in Hrun. injection Hrun as <- <-. unfold cancelled_since.
    cbn [_cancel suspensions events]. split; [done|].
    rewrite requests_app. cbn. lia. }
  destruct (negb (bool_decide (nth i (results st) [] = []))).
  { by apply (IH (S i) st w st' w'). }
  destruct (blank para).
  { exact (IH (S i) _ w st' w' Hinv Hrun). }
  match type of Hrun with
  | context [dispatch' _ _ _ ?s] => set (st1 := s) in *
  end.
  destruct (BATCH_MAX_PARAGRAPHS <=? length (batch_texts st1))%nat.
  2:{ by apply (IH (S i) st1 w st' w'). }
  unfold bind at 1 in Hrun.
  destruct (dispatch' on_progress paragraphs total st1 w) as [[st2|e] w1]
    eqn:Hdispatch; [|done].
  apply (dispatch_keeps n) in Hdispatch as [Hinv1 Hbudget1];
    [|done|done|done].
  unfold bind at 1, suspend in Hrun.
  match type of Hrun with
  | all_loop' _ _ _ _ _ ?st3 ?w3 = _ =>
      destruct (IH (S i) st3 w3 st' w') as [Hinv' Hbudget'];
      [|exact Hrun|]
  end.
  { unfold cancelled_since. cbn [_cancel suspensions].
    by apply sticky_flag. }
  split; [done|]. cbn [suspensions events] in Hbudget'. lia.
Qed.

Lemma translate_all_keeps n paragraphs on_progress w res w' :
  cancel_sticks interference n -> cancelled_since n w ->
  translate_all' paragraphs on_progress w = (Returns res, w') ->
  cancelled_since n w' /\ (budget n w' <= budget n w)%nat.
Proof.
  unfold translate_all. intros Hsticks Hinv Hrun.
  unfold bind at 1 in Hrun.
  destruct (all_cached_spec paragraphs O
              (replicate (length paragraphs) []) O w) as (r & d & Hcached).
  rewrite Hcached in Hrun. unfold bind at 1 in Hrun.
  destruct (report_keeps n on_progress d (length paragraphs) w Hsticks Hinv)
    as (w0 & Hrep & Hinv0 & Hbudget0).
  rewrite Hrep in Hrun. unfold bind at 1 in Hrun.
  destruct (all_loop' on_progress paragraphs (length paragraphs) O
                      paragraphs (mkLocals r d [] []) w0)
    as [[st|e] w1] eqn:Hloop; [|done].
  apply (all_loop_keeps n) in Hloop as [Hinv1 Hbudget1]; [|done|done].
  destruct (batch_texts st) as [|t ts] eqn:Htexts.
  { injection Hrun as <- <-. split; [done|lia]. }
  cbv iota in Hrun. unfold bind at 1, read_cancel in Hrun.
  destruct (_cancel w1) eqn:Hflag.
  { run_in Hrun. injection Hrun as <- <-. unfold cancelled_since.
    cbn [_cancel suspensions events]. split; [done|].
    rewrite requests_app. cbn. lia. }
  unfold bind at 1 in Hrun.
  destruct (dispatch' on_progress paragraphs (length paragraphs) st w1)
    as [[st2|e] w2] eqn:Hdispatch; [|done].
  injection Hrun as <- <-.
  apply (dispatch_keeps n) in Hdispatch as [Hinv2 Hbudget2];
    [|done|done|done].
  split; [done|lia].
Qed.

(** C6.  In a run of [translate_all] that returns, once the
    cancellation flag has been read as set, no request goes to the
    provider any more: neither a full chunk of 20 nor the trailing
    partial chunk.  Every chunk that was requested, whether or not the
    flag was set while its call was in flight, was answered and the
    result of each of its paragraphs was written to the cache before
    anything else happened; the cache at the end holds all these
    writes.  The flag is read as set only when it is: a run that has
    seen it ends with [_cancel] set.  And a flag that is set does
    stop the run: when [cancel()] is called during the await numbered
    [n] and the flag is not reset afterwards, the run ends with the
    flag set if it got that far, and it has sent no more requests
    than the awaits up to that one allow, [n + 1 - suspensions w]
    (none when that await was over before the run began): at most
    the chunk in flight is still sent.  Last, a run against a
    configured provider whose calls all succeed does return. *)
Theorem translate_all_cancellation paragraphs on_progress w :
  (forall res w',
      translate_all' paragraphs on_progress w = (Returns res, w') ->
      exists new,
        events w' = events w ++ new /\
        (forall pre post,
            new = pre ++ ECancelSeen :: post ->
            Forall (fun e => is_request e = false) post) /\
        (forall pre prompt text post,
            new = pre ++ ERequest prompt text :: post ->
            exists texts content rest,
              texts <> [] /\
              (length texts <= BATCH_MAX_PARAGRAPHS)%nat /\
              prompt = batch_prompt target_lang (length texts) /\
              text = join BATCH_SEPARATOR texts /\
              http_post prompt text = Answered content /\
              post = cached_events
                       (chunk_rows' (fit (length texts) (segments content))
                                    O texts)
                     ++ rest) /\
        cache w' = replay (cache w) new /\
        (ECancelSeen ∈ new -> _cancel w' = true) /\
        (forall n,
            cancel_sticks interference n -> cancelled_since n w ->
            cancelled_since n w' /\
            (requests new <= S n - suspensions w)%nat)) /\
  (is_Some provider ->
   (forall prompt text, answered (http_post prompt text)) ->
   exists res w',
     translate_all' paragraphs on_progress w = (Returns res, w')).
Proof.
  split.
  - intros res w' Hrun. pose proof Hrun as Hrun'.
    apply translate_all_trace in Hrun
      as (body & stops & Hev & Hbody & Hstops & Hcache & Hflag).
    exists (body ++ stops). split; [done|].
    split; [|split; [|split; [|split]]].
    + intros pre post Heq.
      apply cancel_in_stops in Heq as [front ->];
        [|by apply completed_no_cancel].
      apply Forall_app in Hstops as [_ Hstops].
      apply Forall_cons in Hstops as [_ Hstops].
      eapply Forall_impl; [exact Hstops|]. by intros e ->.
    + intros pre prompt text post Heq.
      by apply (request_completed body stops pre).
    + by rewrite <- replay_app, replay_stops.
    + intros Hseen. apply Hflag. intros ->.
      rewrite app_nil_r in Hseen.
      by apply (completed_no_cancel body).
    + intros n Hsticks Hinv.
      destruct (translate_all_keeps n paragraphs on_progress w res w'
                  Hsticks Hinv Hrun') as [Hinv' Hbudget].
      split; [done|].
      rewrite Hev, requests_app in Hbudget. lia.
  - intros [p Hp] Hhttp. unfold translate_all. unfold bind at 1.
    destruct (all_cached_spec paragraphs O
                (replicate (length paragraphs) []) O w)
      as (r & d & Hcached).
    rewrite Hcached. unfold bind at 1.
    destruct (report_spec on_progress d (length paragraphs) w)
      as (w0 & Hrep & _ & _).
    rewrite Hrep. unfold bind at 1.
    destruct (all_loop_total p on_progress paragraphs (length paragraphs)
                paragraphs Hp Hhttp O (mkLocals r d [] []) w0)
      as (st & w1 & Hloop).
    rewrite Hloop.
    destruct (batch_texts st); [by eexists _, _|].
    unfold bind at 1, read_cancel.
    destruct (_cancel w1); [run; by eexists _, _|].
    unfold bind at 1.
    destruct (dispatch_total p on_progress paragraphs (length paragraphs)
                st w1 Hp Hhttp) as (st2 & w2 & Hd).
    rewrite Hd. by eexists _, _.
Qed.

End Facts.

Lemma cancel_at_sticks n : cancel_sticks (Samples.cancel_at n) n.
Proof.
  unfold cancel_sticks, Samples.cancel_at. split.
  - intros flag. by rewrite Nat.eqb_refl.
  - intros k Hlt. by destruct (k =? n)%nat.
Qed.

Lemma translate_all_cancellation_witness :
  exists res w' pre,
    translate_all Samples.plain_digest (Some Samples.openai) Samples.zh
                  (Samples.answer (lit "t")) (Samples.cancel_at 0)
                  Samples.twenty_one false Samples.fresh
      = (Returns res, w') /\
    events w' = pre ++ [ECancelSeen] /\
    (requests (events w') <= 1)%nat /\
    _cancel w' = true.
Proof.
  destruct (translate_all Samples.plain_digest (Some Samples.openai)
              Samples.zh (Samples.answer (lit "t")) (Samples.cancel_at 0)
              Samples.twenty_one false Samples.fresh)
    as [[res|e] w'] eqn:Hrun; [|by vm_compute in Hrun].
  destruct (translate_all_cancellation
              Samples.plain_digest (Some Samples.openai) Samples.zh
              (Samples.answer (lit "t")) (Samples.cancel_at 0)
              Samples.twenty_one false Samples.fresh) as [Hreturned _].
  destruct (Hreturned res w' Hrun)
    as (new & Hev & Hstop & _ & _ & Hseen & Hsticky).
  destruct (Hsticky O (cancel_at_sticks O)) as [_ Hbound];
    [intros Hlt; cbn in Hlt; lia|].
  vm_compute in Hrun. injection Hrun as <- <-.
  vm_compute in Hev. subst new.
  match type of Hbound with
  | (requests ?log <= _)%nat =>
      pose proof (Hstop (take 21 log) [] eq_refl) as Hquiet;
      eexists _, _, (take 21 log)
  end.
  split; [reflexivity|].
  split; [reflexivity|]. split; [exact Hbound|].
  apply Hseen. by apply (list_elem_of_lookup_2 _ 21).
Defined.

(** The sample run: [cancel()] arrives while the call for the first 20
    paragraphs is in flight.  That chunk is stored (its first paragraph
    with the one segment of the response, the others with the empty
    string), the flag is then seen, and the last paragraph is neither
    requested nor cached. *)
Lemma translate_all_cancelled_in_flight :
  let run :=
    translate_all Samples.plain_digest (Some Samples.openai) Samples.zh
                  (Samples.answer (lit "t")) (Samples.cancel_at 0)
                  Samples.twenty_one false Samples.fresh in
  map (fun e => match e with
                | ERequest _ _ => 1 | ECached _ _ => 2
                | EProgress _ _ => 3 | ECancelSeen => 4
                end) (events run.2)
  = [1] ++ replicate 20 2 ++ [4] /\
  get_cached_in Samples.plain_digest Samples.zh (cache run.2) (lit "p0")
  = Some (lit "t") /\
  get_cached_in Samples.plain_digest Samples.zh (cache run.2) (lit "p19")
  = Some [] /\
  get_cached_in Samples.plain_digest Samples.zh (cache run.2) (lit "p20")
  = None.
Proof. vm_compute. done. Qed.

End CancelFacts.

(** * Bilingual export *)

Module ReaderFacts.
Import Reader.

Section Facts.
Variable sha256_hexdigest : str -> str.
Variable target_lang : str.
Variable db : gmap str Database.CacheRow.
Variable path_sibling : str -> str -> str.
Variable path_stem : str -> str.
Variable path_name : str -> str.
Variable _book : Book.

Abbreviation cached_of :=
  (Engine.get_cached_in sha256_hexdigest target_lang db).
Abbreviation translated :=
  (Engine.is_translated_in sha256_hexdigest target_lang db).
Abbreviation counted :=
  (Engine.count_translated_in sha256_hexdigest target_lang db).
Abbreviation para_parts :=
  (paragraph_parts sha256_hexdigest target_lang db).
Abbreviation ch_parts := (chapter_parts sha256_hexdigest target_lang db).
Abbreviation parts := (export_parts sha256_hexdigest target_lang db).
Abbreviation out_path := (export_path path_sibling path_stem _book).

Lemma total_is_length content :
  _total_paragraph_count (Some content)
  = length (_all_paragraphs (Some content)).
Proof.
  unfold _total_paragraph_count, _all_paragraphs.
  induction (chapters content) as [|ch chs IH]; simpl; [done|].
  by rewrite length_app, IH.
Qed.

Lemma counted_le paras : (counted paras <= length paras)%nat.
Proof.
  induction paras as [|p paras IH]; simpl; [done|].
  destruct (translated p); lia.
Qed.

Lemma counted_full paras :
  counted paras = length paras -> Forall (fun p => translated p = true) paras.
Proof.
  induction paras as [|p paras IH]; simpl; intros Hfull.
  { apply Forall_nil_2. }
  pose proof (counted_le paras) as Hle.
  destruct (translated p) eqn:Hp; [|lia].
  apply Forall_cons. split; [done|]. apply IH. lia.
Qed.

Lemma translated_cached para :
  translated para = true -> exists cached, cached_of para = Some cached.
Proof.
  unfold Engine.is_translated_in, Engine.get_cached_in.
  destruct (blank para); [by exists []|].
  destruct (Database.get_cached_translation _ _) as [c|]; [|done].
  by exists c.
Qed.

(** C7 (as amended).  With [done] the number of paragraphs that count
    as translated and [total] the number of paragraphs of the book:
    when [done < total] the export only issues a warning that carries
    [done] and [total], and writes nothing; when [done = total] it
    writes the bilingual document, in which every paragraph's text is
    followed by its translated line when its cached translation is not
    empty, and directly by the blank separator line when it is empty (a
    blank paragraph, or a paragraph cached with the empty string). *)
Theorem export_only_when_complete content o :
  let total := _total_paragraph_count (Some content) in
  let done :=
    _translated_count sha256_hexdigest target_lang db (Some content) in
  let after :=
    action_export_bilingual sha256_hexdigest target_lang db path_sibling
                            path_stem path_name _book (Some content) o in
  (done <= total)%nat /\
  ((done < total)%nat ->
   files after = files o /\
   notifications after
   = notifications o ++ [(incomplete_message done total, Warning)]) /\
  (done = total ->
   files after
   = <[out_path := join [NEWLINE] (parts content)]> (files o) /\
   forall chs1 ch chs2 ps1 para ps2,
     chapters content = chs1 ++ ch :: chs2 ->
     Paginator.paragraphs ch = ps1 ++ para :: ps2 ->
     exists cached,
       cached_of para = Some cached /\
       parts content
       = (concat (map ch_parts chs1)
          ++ [RULE; Paginator.title ch; RULE ++ [NEWLINE]]
          ++ concat (map para_parts ps1))
         ++ para
         :: (if bool_decide (cached = []) then []
             else [Paginator.TRANS_PREFIX ++ cached])
         ++ []
         :: (concat (map para_parts ps2) ++ concat (map ch_parts chs2))).
Proof.
  intros total done after.
  assert (done <= total)%nat as Hle.
  { subst done total. rewrite total_is_length. apply counted_le. }
  split; [done|]. subst after. unfold action_export_bilingual.
  fold total done. split.
  - intros Hlt. rewrite (proj2 (Nat.ltb_lt _ _) Hlt). done.
  - intros Heq. rewrite (proj2 (Nat.ltb_ge _ _)) by lia.
    split; [done|].
    intros chs1 ch chs2 ps1 para ps2 Hchs Hps.
    assert (translated para = true) as Hpara.
    { subst done total. rewrite total_is_length in Heq.
      apply counted_full in Heq.
      eapply (proj1 (Forall_forall _ _) Heq).
      unfold _all_paragraphs. rewrite Hchs, map_app, concat_app.
      simpl. rewrite Hps. set_solver. }
    destruct (translated_cached para Hpara) as [cached Hcached].
    exists cached. split; [done|].
    unfold export_parts. rewrite Hchs, map_app, concat_app. simpl.
    unfold chapter_parts at 2. rewrite Hps, map_app, concat_app. simpl.
    unfold paragraph_parts at 2. rewrite Hcached.
    rewrite <- !app_assoc. simpl. rewrite <- !app_assoc. done.
Qed.

End Facts.

(** C7, as the specification words it, fails: with the one paragraph of
    the sample book cached with the empty translation, every paragraph
    counts as translated and the export goes ahead, but no translated
    line follows the paragraph in the document. *)
Lemma export_without_translated_line :
  let db := Samples.hello_cached_empty in
  let parts :=
    export_parts Samples.plain_digest Samples.zh db Samples.hello_content in
  _translated_count Samples.plain_digest Samples.zh db
                    (Some Samples.hello_content)
  = _total_paragraph_count (Some Samples.hello_content) /\
  files (action_export_bilingual
           Samples.plain_digest Samples.zh db Samples.sibling Samples.stem
           Samples.base_name Samples.hello_book
           (Some Samples.hello_content) Samples.nothing_outside)
    !! lit "/books/hello_bilingual.txt"
  = Some (join [NEWLINE] parts) /\
  parts = [RULE; lit "Ch"; RULE ++ [NEWLINE]; lit "Hello"; []] /\
  ~ exists pre cached post,
      parts = pre ++ lit "Hello" :: (Paginator.TRANS_PREFIX ++ cached) :: post.
Proof.
  split; [reflexivity|]. split; [by vm_compute|]. split; [reflexivity|].
  intros (pre & cached & post & Hparts).
  vm_compute in Hparts.
  do 6 (destruct pre as [|? pre]; [discriminate Hparts|];
        try (injection Hparts as _ Hparts)).
  all: try discriminate Hparts.
Qed.

Lemma export_only_when_complete_witness :
  (* nothing translated: a warning with 0/1, nothing written *)
  (let after :=
     action_export_bilingual
       Samples.plain_digest Samples.zh ∅ Samples.sibling Samples.stem
       Samples.base_name Samples.hello_book
       (Some Samples.hello_content) Samples.nothing_outside in
   files after = ∅ /\
   notifications after
   = [(lit "Translation incomplete: 0/1 (0%)", Warning)]) /\
  (* the paragraph translated: the line follows it *)
  (exists cached,
      Engine.get_cached_in Samples.plain_digest Samples.zh
                           Samples.hello_cached (lit "Hello") = Some cached /\
      export_parts Samples.plain_digest Samples.zh Samples.hello_cached
                   Samples.hello_content
      = [RULE; lit "Ch"; RULE ++ [NEWLINE];
         lit "Hello"; Paginator.TRANS_PREFIX ++ cached; []]).
Proof.
  split.
  - destruct (export_only_when_complete
                Samples.plain_digest Samples.zh ∅ Samples.sibling
                Samples.stem Samples.base_name Samples.hello_book
                Samples.hello_content Samples.nothing_outside)
      as (_ & Hincomplete & _).
    apply Hincomplete. vm_compute. lia.
  - destruct (export_only_when_complete
                Samples.plain_digest Samples.zh Samples.hello_cached
                Samples.sibling Samples.stem Samples.base_name
                Samples.hello_book Samples.hello_content
                Samples.nothing_outside)
      as (_ & _ & Hcomplete).
    destruct (Hcomplete eq_refl) as [_ Hparts].
    destruct (Hparts [] (Paginator.mkChapter 0 (lit "Ch") [lit "Hello"]) []
                     [] (lit "Hello") [] eq_refl eq_refl)
      as (cached & Hcached & Hdoc).
    exists cached. split; [exact Hcached|].
    rewrite Hdoc. vm_compute in Hcached. injection Hcached as <-.
    reflexivity.
Defined.

End ReaderFacts.

(** * The deletion handler *)

Module LibraryFacts.
Import Library.

(** C9 (the code departs from it).  [_on_delete_confirmed] leaves the
    screen and the database as they were whatever answer the dialog
    gave: for a negative answer it returns, and the statements that
    remove the record, refresh the list and notify sit behind that
    [return], inside the same branch, so a confirmed deletion skips
    them. *)
Theorem delete_confirmed_no_effect
        (list_books : gmap str Reader.Book -> list str)
        (confirmed : option bool) (book_id : str) (s : Screen) :
  call (_on_delete_confirmed list_books confirmed book_id) s = s.
Proof.
  unfold call, _on_delete_confirmed, if_.
  destruct (falsy confirmed); [|done].
  unfold seq, return_. done.
Qed.

(** [action_delete_book] changes nothing either, whatever [str] makes
    of the row key and whatever the dialog answers: it returns, or
    calls the handler. *)
Lemma action_delete_book_no_effect
      (list_books : gmap str Reader.Book -> list str)
      (row_key_str : str -> str)
      (cursor : option str) (answer : option bool) (s : Screen) :
  call (action_delete_book list_books row_key_str cursor answer) s = s.
Proof.
  unfold call, action_delete_book.
  destruct cursor as [row_key|]; [|done].
  destruct (get_book s (row_key_str row_key)) as [book|]; [|done].
  unfold _on_delete_confirmed, if_.
  destruct (falsy answer); [|done].
  unfold seq, return_. done.
Qed.

(** A confirmed deletion of the book on the sample shelf: with the
    representation of the key object for [str(row_key)] the book is
    not found and no dialog opens; with the key's value the handler
    runs; either way the book is still in the database and nothing was
    notified. *)
Lemma delete_confirmed_keeps_book :
  get_book Samples.shelf (Samples.key_repr (lit "b1")) = None /\
  get_book Samples.shelf (Samples.key_value (lit "b1"))
  = Some Samples.hello_book /\
  forall row_key_str,
    row_key_str = Samples.key_repr \/ row_key_str = Samples.key_value ->
    let after :=
      call (action_delete_book Samples.shelf_order row_key_str
                               (Some (lit "b1")) (Some true))
           Samples.shelf in
    books after !! lit "b1" = Some Samples.hello_book /\
    table_rows after = [lit "b1"] /\
    notifications after = [].
Proof.
  split; [by vm_compute|]. split; [by vm_compute|].
  intros row_key_str [-> | ->]; by vm_compute.
Qed.

End LibraryFacts.

(** * More about the translation engine *)

Module EngineMore.
Import Engine Terms MoreTerms EngineFacts.

Section Facts.
Variable sha256_hexdigest : str -> str.
Variable target_lang : str.

Abbreviation cached_in := (get_cached_in sha256_hexdigest target_lang).
Abbreviation translated_in :=
  (is_translated_in sha256_hexdigest target_lang).
Abbreviation count_in := (count_translated_in sha256_hexdigest target_lang).
Abbreviation hash_of para := (_make_hash sha256_hexdigest para target_lang).
Abbreviation misses_in := (misses sha256_hexdigest target_lang).
Abbreviation miss_in := (is_miss sha256_hexdigest target_lang).

Lemma translated_iff_cached db text :
  translated_in db text = true <-> is_Some (cached_in db text).
Proof.
  unfold is_translated_in, get_cached_in.
  destruct (blank text); [by split; eauto|].
  destruct (Database.get_cached_translation _ _).
  - by split; eauto.
  - split; [done|]. by intros [? ?].
Qed.

Lemma count_le db paras : (count_in db paras <= length paras)%nat.
Proof.
  induction paras as [|p paras IH]; simpl; [done|].
  destruct (translated_in db p); lia.
Qed.

Lemma count_translated_hits db paras :
  Forall (fun p => is_Some (cached_in db p)) paras ->
  count_in db paras = length paras.
Proof.
  induction 1 as [|p paras Hp _ IH]; [done|].
  cbn [count_translated_in length]. rewrite IH.
  apply translated_iff_cached in Hp. by rewrite Hp.
Qed.

(** X1.  [is_translated] holds of a text exactly when [get_cached] has
    a value for it; [count_translated] never exceeds the number of
    paragraphs, reaches it exactly when [get_cached] has a value for
    every paragraph, and adds up over concatenation. *)
Theorem count_translated_counts_hits db :
  (forall text,
      is_translated_in sha256_hexdigest target_lang db text = true
      <-> is_Some (get_cached_in sha256_hexdigest target_lang db text)) /\
  (forall paras,
      (count_translated_in sha256_hexdigest target_lang db paras
       <= length paras)%nat) /\
  (forall paras,
      count_translated_in sha256_hexdigest target_lang db paras
      = length paras
      <-> Forall (fun p => is_Some (get_cached_in sha256_hexdigest
                                                  target_lang db p))
                 paras) /\
  (forall a b,
      count_translated_in sha256_hexdigest target_lang db (a ++ b)
      = (count_translated_in sha256_hexdigest target_lang db a
         + count_translated_in sha256_hexdigest target_lang db b)%nat).
Proof.
  split; [apply translated_iff_cached|]. split; [apply count_le|]. split.
  - induction paras as [|p paras IH]; simpl.
    { split; [constructor|done]. }
    pose proof (count_le db paras) as Hle.
    rewrite Forall_cons, <- translated_iff_cached, <- IH.
    destruct (translated_in db p).
    + split; [intros Heq; split; [done|lia] | intros [_ Heq]; lia].
    + split; [lia | by intros [? _]].
  - intros a b. induction a as [|p a IH]; simpl; [done|].
    rewrite IH. lia.
Qed.

(** X2.  A translation stored under the hash of a text and the target
    language is what [get_cached] then returns for that text (for a
    blank text it returns the empty string whatever is stored), the
    text counts as translated, and a text with another hash reads as
    before. *)
Theorem cached_translation_read_back provider_name text translated w :
  let w' :=
    (db_cache_translation (hash_of text) text translated target_lang
                          provider_name w).2 in
  cached_in (cache w') text
  = Some (if blank text then [] else translated) /\
  translated_in (cache w') text = true /\
  forall other,
    hash_of other <> hash_of text ->
    cached_in (cache w') other = cached_in (cache w) other.
Proof.
  intros w'. subst w'. unfold db_cache_translation. cbn [snd cache].
  unfold get_cached_in, is_translated_in, Database.get_cached_translation,
    Database.cache_translation.
  split; [|split].
  - destruct (blank text); [done|]. by rewrite lookup_insert_eq.
  - destruct (blank text); [done|]. by rewrite lookup_insert_eq.
  - intros other Hne. destruct (blank other); [done|].
    by rewrite lookup_insert_ne.
Qed.

Lemma no_miss_when_cached db paras :
  Forall (fun p => is_Some (cached_in db p)) paras ->
  misses_in db paras = [].
Proof.
  unfold misses. induction 1 as [|p paras [c Hc] _ IH]; [done|].
  simpl. unfold is_miss at 1. rewrite Hc, andb_false_r. exact IH.
Qed.

Lemma no_miss_indices db paras i :
  misses_in db paras = [] ->
  miss_indices sha256_hexdigest target_lang db i paras = [].
Proof.
  intros Hnone.
  pose proof (miss_indices_length sha256_hexdigest target_lang db paras i)
    as Hlen.
  rewrite Hnone in Hlen.
  by destruct (miss_indices sha256_hexdigest target_lang db i paras).
Qed.

(** X3.  When [get_cached] has a value for every paragraph (blank ones
    included), [translate_batch] returns those values in order without
    a request and without a cache write, whatever the provider
    configuration: the world is left as it was. *)
Theorem translate_batch_cache_first
        provider http_post interference paragraphs w :
  Forall (fun p => is_Some (cached_in (cache w) p)) paragraphs ->
  exists res,
    translate_batch sha256_hexdigest provider target_lang http_post
                    interference paragraphs w = (Returns res, w) /\
    length res = length paragraphs /\
    forall i para,
      paragraphs !! i = Some para ->
      res !! i = cached_in (cache w) para.
Proof.
  intros Hall. pose proof (no_miss_when_cached _ _ Hall) as Hnone.
  eexists. split; [by apply translate_batch_no_miss|].
  split.
  { by rewrite length_map, scanned_length, length_replicate. }
  intros i para Hi.
  pose proof (batch_result_lookup sha256_hexdigest target_lang (cache w)
                paragraphs [] i para Hi) as Hres.
  rewrite (no_miss_indices _ _ O Hnone) in Hres. cbn [stored] in Hres.
  etrans; [exact Hres|].
  assert (is_Some (cached_in (cache w) para)) as [c Hc].
  { eapply (proj1 (Forall_forall _ _) Hall).
    by eapply list_elem_of_lookup_2. }
  rewrite Hc. destruct (blank para) eqn:Hb; [|done].
  unfold get_cached_in in Hc. rewrite Hb in Hc. done.
Qed.

Lemma _call_api_batch_unconfigured http_post interference texts w :
  _call_api_batch None target_lang http_post interference texts w
  = (Raises RuntimeError, w).
Proof. unfold _call_api_batch, _call_api. by run. Qed.

Lemma _call_api_batch_fails p http_post interference texts w e :
  http_post (batch_prompt target_lang (length texts))
            (join BATCH_SEPARATOR texts) = Failed e ->
  _call_api_batch (Some p) target_lang http_post interference texts w
  = (Raises (if converted e then RuntimeError else e),
     mkWorld (cache w) (interference (suspensions w) (_cancel w))
             (S (suspensions w))
             (events w
              ++ [ERequest (batch_prompt target_lang (length texts))
                           (join BATCH_SEPARATOR texts)])).
Proof.
  intros Hpost. unfold _call_api_batch, _call_api. run. rewrite Hpost.
  destruct (converted e); by run.
Qed.

Lemma translate_batch_with_miss
      provider http_post interference paragraphs w e w' :
  misses_in (cache w) paragraphs <> [] ->
  _call_api_batch provider target_lang http_post interference
                  (misses_in (cache w) paragraphs) w = (Raises e, w') ->
  translate_batch sha256_hexdigest provider target_lang http_post
                  interference paragraphs w = (Raises e, w').
Proof.
  intros Hsome Hcall.
  unfold translate_batch. unfold bind at 1.
  rewrite batch_scan_spec. cbn [app].
  destruct (misses_in (cache w) paragraphs) as [|t ts] eqn:Htexts; [done|].
  cbv beta iota. unfold bind at 1. unfold bind at 1.
  rewrite Hcall. done.
Qed.

(** X4.  When there is a cache miss, [translate_batch] fails without
    writing to the cache.  With no provider configured it raises
    [RuntimeError] and nothing has happened at all.  When the request
    ends in an exception, it raises [RuntimeError] for the four
    [_call_api] has a handler for ([HTTPStatusError], [RequestError],
    [KeyError], [IndexError]) and lets any other through unchanged
    (a body that is not JSON, say); the only trace is the one
    request. *)
Theorem translate_batch_failure_writes_nothing
        provider http_post interference paragraphs w :
  let texts :=
    misses sha256_hexdigest target_lang (cache w) paragraphs in
  texts <> [] ->
  (provider = None ->
   translate_batch sha256_hexdigest provider target_lang http_post
                   interference paragraphs w
   = (Raises RuntimeError, w)) /\
  (forall p e,
      provider = Some p ->
      http_post (batch_prompt target_lang (length texts))
                (join BATCH_SEPARATOR texts) = Failed e ->
      exists w',
        translate_batch sha256_hexdigest provider target_lang http_post
                        interference paragraphs w
        = (Raises (if converted e then RuntimeError else e), w') /\
        cache w' = cache w /\
        events w'
        = events w
          ++ [ERequest (batch_prompt target_lang (length texts))
                       (join BATCH_SEPARATOR texts)]).
Proof.
  intros texts Hsome. subst texts. split.
  - intros ->. apply translate_batch_with_miss; [done|].
    apply _call_api_batch_unconfigured.
  - intros p e -> Hpost. eexists. split.
    + apply translate_batch_with_miss; [done|].
      by apply _call_api_batch_fails.
    + done.
Qed.

(** *** What a returning [translate_batch] has done *)

Lemma translate_batch_inv
      provider http_post interference paragraphs w res w' :
  translate_batch sha256_hexdigest provider target_lang http_post
                  interference paragraphs w = (Returns res, w') ->
  let texts := misses_in (cache w) paragraphs in
  let indices :=
    miss_indices sha256_hexdigest target_lang (cache w) O paragraphs in
  (texts = [] /\ w' = w) \/
  (exists p content,
      texts <> [] /\ provider = Some p /\
      http_post (batch_prompt target_lang (length texts))
                (join BATCH_SEPARATOR texts) = Answered content /\
      let rows :=
        written_rows sha256_hexdigest provider target_lang paragraphs
                     (fit (length texts) (segments content)) O indices in
      w' = mkWorld (apply_rows (cache w) rows)
                   (interference (suspensions w) (_cancel w))
                   (S (suspensions w))
                   (events w ++
                    ERequest (batch_prompt target_lang (length texts))
                             (join BATCH_SEPARATOR texts)
                      :: cached_events rows) /\
      res = map (fun r => default [] r)
                (stored Some (fit (length texts) (segments content)) O
                        indices
                        (scanned sha256_hexdigest target_lang (cache w) O
                                 paragraphs
                                 (replicate (length paragraphs) None)))).
Proof.
  intros Hrun texts indices. subst texts indices.
  destruct (misses_in (cache w) paragraphs) as [|t ts] eqn:Htexts.
  { left. split; [done|].
    rewrite (translate_batch_no_miss sha256_hexdigest provider target_lang
               http_post interference paragraphs w Htexts) in Hrun.
    by inversion Hrun. }
  right. rewrite <- Htexts in *.
  assert (misses_in (cache w) paragraphs <> []) as Hsome
      by (by rewrite Htexts).
  destruct provider as [p|] eqn:Hp.
  - destruct (http_post
                (batch_prompt target_lang
                   (length (misses_in (cache w) paragraphs)))
                (join BATCH_SEPARATOR (misses_in (cache w) paragraphs)))
      as [content|e] eqn:Hpost.
    + exists p, content. split; [done|]. split; [done|]. split; [done|].
      rewrite (translate_batch_miss sha256_hexdigest (Some p) target_lang
                 http_post interference paragraphs w p content
                 Hsome eq_refl Hpost) in Hrun.
      by inversion Hrun.
    + rewrite (translate_batch_with_miss _ _ _ _ _ _ _ Hsome
                 (_call_api_batch_fails p http_post interference _ w e
                    Hpost)) in Hrun.
      done.
  - rewrite (translate_batch_with_miss _ _ _ _ _ _ _ Hsome
               (_call_api_batch_unconfigured http_post interference _ w))
      in Hrun.
    done.
Qed.


Lemma apply_rows_snoc (db : gmap str Database.CacheRow)
      (rows : list (str * Database.CacheRow)) row :
  apply_rows db (rows ++ [row]) = <[row.1 := row.2]> (apply_rows db rows).
Proof. unfold apply_rows. by rewrite foldl_app. Qed.

Lemma apply_rows_lookup_other (rows : list (str * Database.CacheRow))
      (db : gmap str Database.CacheRow) (h : str) :
  h ∉ map fst rows -> apply_rows db rows !! h = db !! h.
Proof.
  induction rows as [|row rows IH] using rev_ind; [done|].
  rewrite map_app, apply_rows_snoc. intros Hnot.
  rewrite lookup_insert_ne.
  - apply IH. intros Hin. apply Hnot, elem_of_app. by left.
  - intros Heq. apply Hnot, elem_of_app. right. cbn.
    by apply list_elem_of_singleton.
Qed.

Lemma apply_rows_lookup_in (rows : list (str * Database.CacheRow))
      (db : gmap str Database.CacheRow) (h : str) :
  h ∈ map fst rows ->
  exists row, row ∈ rows /\ row.1 = h /\
              apply_rows db rows !! h = Some row.2.
Proof.
  induction rows as [|row rows IH] using rev_ind.
  { intros Hin. by apply elem_of_nil in Hin. }
  rewrite map_app, apply_rows_snoc. intros Hin.
  destruct (decide (row.1 = h)) as [Heq|Hne].
  - exists row.
    split; [apply elem_of_app; right; by apply list_elem_of_singleton|].
    split; [done|]. rewrite <- Heq. by rewrite lookup_insert_eq.
  - apply elem_of_app in Hin as [Hin|Hin].
    + destruct (IH Hin) as (r & Hr & Hk & Hl). exists r.
      split; [apply elem_of_app; by left|]. split; [done|].
      by rewrite lookup_insert_ne.
    + cbn in Hin. apply list_elem_of_singleton in Hin. done.
Qed.

Lemma miss_texts db paragraphs paras :
  forall i,
    drop i paragraphs = paras ->
    map (fun k => nth k paragraphs [])
        (miss_indices sha256_hexdigest target_lang db i paras)
    = misses_in db paras.
Proof.
  induction paras as [|para paras IH]; intros i Hdrop; [done|].
  assert (nth i paragraphs [] = para) as Hnth.
  { rewrite <- (take_drop i paragraphs) at 1. rewrite Hdrop.
    assert (i <= length paragraphs)%nat as Hle.
    { destruct (decide (i <= length paragraphs)%nat); [done|].
      rewrite drop_ge in Hdrop by lia. done. }
    rewrite app_nth2; rewrite length_take; [|lia].
    replace (i - i `min` length paragraphs)%nat with O by lia. done. }
  assert (drop (S i) paragraphs = paras) as Hdrop'.
  { replace (S i) with (i + 1)%nat by lia.
    rewrite <- drop_drop, Hdrop. done. }
  cbn [miss_indices]. unfold misses. cbn [List.filter].
  destruct (miss_in db para).
  - cbn [map]. rewrite Hnth. f_equal. by apply IH.
  - by apply IH.
Qed.

Lemma written_rows_keys provider paragraphs translated indices :
  forall j,
    map fst (written_rows sha256_hexdigest provider target_lang
                          paragraphs translated j indices)
    = map (fun k => hash_of (nth k paragraphs [])) indices.
Proof.
  induction indices as [|k indices IH]; intros j; [done|].
  cbn [written_rows map fst]. by rewrite IH.
Qed.

Lemma written_rows_row provider paragraphs translated indices :
  forall j row,
    row ∈ written_rows sha256_hexdigest provider target_lang
                       paragraphs translated j indices ->
    hash_of (Database.source_text row.2) = row.1 /\
    Database.target_lang row.2 = target_lang /\
    Database.provider row.2 = provider_name provider.
Proof.
  induction indices as [|k indices IH]; intros j row Hin.
  { by apply elem_of_nil in Hin. }
  cbn [written_rows] in Hin. apply elem_of_cons in Hin as [->|Hin].
  - done.
  - by eapply IH.
Qed.

Lemma miss_keys provider db paragraphs translated :
  map fst (written_rows sha256_hexdigest provider target_lang
             paragraphs translated O
             (miss_indices sha256_hexdigest target_lang db O paragraphs))
  = map (fun para => hash_of para) (misses_in db paragraphs).
Proof.
  rewrite written_rows_keys.
  rewrite <- (miss_texts db paragraphs paragraphs O eq_refl).
  by rewrite map_map.
Qed.


Lemma cached_after_rows db rows para :
  is_Some (cached_in db para) \/ hash_of para ∈ map fst rows ->
  is_Some (cached_in (apply_rows db rows) para).
Proof.
  unfold get_cached_in, Database.get_cached_translation.
  destruct (blank para); [by eauto|].
  destruct (decide (hash_of para ∈ map fst rows)) as [Hin|Hnot].
  - intros _. destruct (apply_rows_lookup_in rows db _ Hin)
      as (row & _ & _ & Hl).
    rewrite Hl. by eauto.
  - intros [Hc|Hin]; [|done].
    by rewrite (apply_rows_lookup_other rows db _ Hnot).
Qed.

(** X5.  After [translate_batch] has returned, [get_cached] has a value
    for every paragraph of the batch, so [count_translated] counts them
    all, and [translate_batch] on the same paragraphs returns again with
    no request and no write, even with no provider configured. *)
Theorem translate_batch_leaves_no_miss
        provider http_post interference paragraphs w res w' :
  translate_batch sha256_hexdigest provider target_lang http_post
                  interference paragraphs w = (Returns res, w') ->
  misses_in (cache w') paragraphs = [] /\
  count_in (cache w') paragraphs = length paragraphs /\
  forall provider' http_post' interference',
  exists res',
    translate_batch sha256_hexdigest provider' target_lang http_post'
                    interference' paragraphs w' = (Returns res', w').
Proof.
  intros Hrun.
  assert (Forall (fun p => is_Some (cached_in (cache w') p)) paragraphs)
    as Hall.
  { apply Forall_forall. intros para Hin.
    destruct (translate_batch_inv _ _ _ _ _ _ _ Hrun)
      as [[Hnone ->]|(p & content & _ & _ & _ & -> & _)].
    - destruct (cached_in (cache w) para) as [c|] eqn:Hc; [by eauto|].
      assert (para ∈ misses_in (cache w) paragraphs) as Hmiss.
      { apply miss_elem. split; [done|]. unfold is_miss. rewrite Hc.
        unfold get_cached_in in Hc.
        by destruct (blank para). }
      rewrite Hnone in Hmiss. by apply elem_of_nil in Hmiss.
    - cbn [cache]. apply cached_after_rows.
      destruct (cached_in (cache w) para) as [c|] eqn:Hc; [by eauto|].
      right. rewrite miss_keys.
      apply (list_elem_of_fmap_2 (fun para => hash_of para)).
      apply miss_elem. split; [done|]. unfold is_miss. rewrite Hc.
      unfold get_cached_in in Hc. by destruct (blank para). }
  pose proof (no_miss_when_cached _ _ Hall) as Hnone.
  split; [done|]. split.
  { by apply (count_translated_hits (cache w') paragraphs). }
  intros provider' http_post' interference'. eexists.
  by apply translate_batch_no_miss.
Qed.

(** X6.  A returning [translate_batch] changes the cache only under
    the hashes of the paragraphs it had to send out, and under each
    of them it leaves a row whose source text has that hash, with the
    target language and the name of the provider (["unknown"] when
    none is configured). *)
Theorem translate_batch_writes_only_misses
        provider http_post interference paragraphs w res w' :
  translate_batch sha256_hexdigest provider target_lang http_post
                  interference paragraphs w = (Returns res, w') ->
  (forall h,
      (forall para, para ∈ misses_in (cache w) paragraphs ->
                    hash_of para <> h) ->
      cache w' !! h = cache w !! h) /\
  (forall para,
      para ∈ misses_in (cache w) paragraphs ->
      exists row,
        cache w' !! hash_of para = Some row /\
        hash_of (Database.source_text row) = hash_of para /\
        Database.target_lang row = target_lang /\
        Database.provider row = provider_name provider).
Proof.
  intros Hrun.
  destruct (translate_batch_inv _ _ _ _ _ _ _ Hrun)
    as [[Hnone ->]|(p & content & _ & _ & _ & -> & _)].
  { split; [done|]. intros para Hin. rewrite Hnone in Hin.
    by apply elem_of_nil in Hin. }
  cbn [cache]. split.
  - intros h Hother. apply apply_rows_lookup_other.
    rewrite miss_keys. intros Hin.
    apply list_elem_of_fmap in Hin as (para & -> & Hpara).
    by apply (Hother para).
  - intros para Hin.
    assert (hash_of para
            ∈ map (fun para => hash_of para)
                  (misses_in (cache w) paragraphs)) as Hkey.
    { by apply (list_elem_of_fmap_2 (fun para => hash_of para)). }
    rewrite <- (miss_keys provider (cache w) paragraphs
                  (fit (length (misses_in (cache w) paragraphs))
                       (segments content))) in Hkey.
    destruct (apply_rows_lookup_in _ (cache w) _ Hkey)
      as (row & Hrow & Hk & Hl).
    exists row.2. split; [done|].
    destruct (written_rows_row _ _ _ _ _ _ Hrow) as (Hh & Hlang & Hprov).
    rewrite Hh, Hk. done.
Qed.

(** X7.  When [_call_api_batch] returns, it returns exactly as many
    parts as it was given texts: part [j] is the [j]-th stripped
    segment of the response, or the empty string when the response
    has fewer segments, and segments beyond the count are dropped.
    It has made one request and has not touched the cache. *)
Theorem call_api_batch_fits
        provider http_post interference texts w parts w' :
  _call_api_batch provider target_lang http_post interference texts w
  = (Returns parts, w') ->
  length parts = length texts /\
  cache w' = cache w /\
  exists content,
    http_post (batch_prompt target_lang (length texts))
              (join BATCH_SEPARATOR texts) = Answered content /\
    events w'
    = events w ++ [ERequest (batch_prompt target_lang (length texts))
                            (join BATCH_SEPARATOR texts)] /\
    forall j, (j < length texts)%nat ->
              nth j parts [] = nth j (segments content) [].
Proof.
  intros Hrun.
  destruct provider as [p|] eqn:Hp.
  - destruct (http_post (batch_prompt target_lang (length texts))
                        (join BATCH_SEPARATOR texts))
      as [content|e] eqn:Hpost.
    + rewrite (_call_api_batch_spec (Some p) target_lang http_post
                 interference texts w p content eq_refl Hpost) in Hrun.
      inversion Hrun; subst parts w'. cbn [cache events].
      split; [apply fit_length|]. split; [done|].
      exists content. split; [done|]. split; [done|].
      intros j Hj. by apply fit_nth.
    + by rewrite (_call_api_batch_fails p http_post interference
                    texts w e Hpost) in Hrun.
  - by rewrite (_call_api_batch_unconfigured http_post interference
                  texts w) in Hrun.
Qed.

End Facts.

Lemma count_translated_counts_hits_witness :
  is_translated_in Samples.plain_digest Samples.zh Samples.hello_cached
                   (lit "Hello") = true /\
  (count_translated_in Samples.plain_digest Samples.zh Samples.hello_cached
                       [lit "Hello"; lit "World"] <= 2)%nat.
Proof.
  destruct (count_translated_counts_hits
              Samples.plain_digest Samples.zh Samples.hello_cached)
    as (Hiff & Hle & _).
  split.
  - apply Hiff. vm_compute. by eexists.
  - apply (Hle [lit "Hello"; lit "World"]).
Defined.

Lemma cached_translation_read_back_witness :
  let w' :=
    (db_cache_translation
       (_make_hash Samples.plain_digest (lit "Hello") Samples.zh)
       (lit "Hello") (lit "t") Samples.zh (lit "openai") Samples.fresh).2 in
  get_cached_in Samples.plain_digest Samples.zh (cache w') (lit "Hello")
  = Some (lit "t") /\
  get_cached_in Samples.plain_digest Samples.zh (cache w') (lit "World")
  = get_cached_in Samples.plain_digest Samples.zh (cache Samples.fresh)
                  (lit "World").
Proof.
  intros w'.
  destruct (cached_translation_read_back
              Samples.plain_digest Samples.zh (lit "openai") (lit "Hello")
              (lit "t") Samples.fresh) as (Hget & _ & Hother).
  split; [exact Hget|]. apply Hother. by vm_compute.
Defined.

Lemma translate_batch_cache_first_witness :
  exists res,
    translate_batch Samples.plain_digest None Samples.zh Samples.offline
                    Samples.quiet [lit "Hello"; lit " "]
                    MoreSamples.hello_world
    = (Returns res, MoreSamples.hello_world) /\
    length res = 2%nat.
Proof.
  destruct (translate_batch_cache_first
              Samples.plain_digest Samples.zh None Samples.offline
              Samples.quiet [lit "Hello"; lit " "] MoreSamples.hello_world)
    as (res & Hrun & Hlen & _).
  { constructor; [vm_compute; by eexists|].
    constructor; [vm_compute; by eexists|]. constructor. }
  exists res. by split.
Defined.

Lemma translate_batch_failure_writes_nothing_witness :
  translate_batch Samples.plain_digest None Samples.zh Samples.offline
                  Samples.quiet Samples.four_paragraphs Samples.fresh
  = (Raises RuntimeError, Samples.fresh) /\
  (exists w',
      translate_batch Samples.plain_digest (Some Samples.openai) Samples.zh
                      Samples.offline Samples.quiet
                      Samples.four_paragraphs Samples.fresh
      = (Raises RuntimeError, w') /\
      cache w' = cache Samples.fresh) /\
  (exists w',
      translate_batch Samples.plain_digest (Some Samples.openai) Samples.zh
                      MoreSamples.garbled Samples.quiet
                      Samples.four_paragraphs Samples.fresh
      = (Raises JSONDecodeError, w') /\
      cache w' = cache Samples.fresh).
Proof.
  split; [|split].
  - destruct (translate_batch_failure_writes_nothing
                Samples.plain_digest Samples.zh None Samples.offline
                Samples.quiet Samples.four_paragraphs Samples.fresh)
      as [Hnone _]; [by vm_compute|].
    apply Hnone. reflexivity.
  - destruct (translate_batch_failure_writes_nothing
                Samples.plain_digest Samples.zh (Some Samples.openai)
                Samples.offline Samples.quiet Samples.four_paragraphs
                Samples.fresh) as [_ Hfailed]; [by vm_compute|].
    destruct (Hfailed Samples.openai RequestError eq_refl eq_refl)
      as (w' & Hrun & Hcache & _).
    exists w'. split; [exact Hrun|exact Hcache].
  - destruct (translate_batch_failure_writes_nothing
                Samples.plain_digest Samples.zh (Some Samples.openai)
                MoreSamples.garbled Samples.quiet Samples.four_paragraphs
                Samples.fresh) as [_ Hfailed]; [by vm_compute|].
    destruct (Hfailed Samples.openai JSONDecodeError eq_refl eq_refl)
      as (w' & Hrun & Hcache & _).
    exists w'. split; [exact Hrun|exact Hcache].
Defined.

Lemma translate_batch_leaves_no_miss_witness :
  exists res w',
    translate_batch Samples.plain_digest (Some Samples.openai) Samples.zh
                    (Samples.answer (lit "x---y")) Samples.quiet
                    Samples.four_paragraphs Samples.fresh
    = (Returns res, w') /\
    misses Samples.plain_digest Samples.zh (cache w')
           Samples.four_paragraphs = [].
Proof.
  destruct (translate_batch Samples.plain_digest (Some Samples.openai)
              Samples.zh (Samples.answer (lit "x---y")) Samples.quiet
              Samples.four_paragraphs Samples.fresh)
    as [[res|e] w'] eqn:Hrun; [|by vm_compute in Hrun].
  exists res, w'. split; [reflexivity|].
  apply (translate_batch_leaves_no_miss _ _ _ _ _ _ _ _ _ Hrun).
Defined.

Lemma translate_batch_writes_only_misses_witness :
  exists res w' row,
    translate_batch Samples.plain_digest (Some Samples.openai) Samples.zh
                    (Samples.answer (lit "x---y")) Samples.quiet
                    Samples.four_paragraphs Samples.fresh
    = (Returns res, w') /\
    cache w' !! _make_hash Samples.plain_digest (lit "World") Samples.zh
    = Some row /\
    Database.provider row = lit "openai".
Proof.
  destruct (translate_batch Samples.plain_digest (Some Samples.openai)
              Samples.zh (Samples.answer (lit "x---y")) Samples.quiet
              Samples.four_paragraphs Samples.fresh)
    as [[res|e] w'] eqn:Hrun; [|by vm_compute in Hrun].
  destruct (translate_batch_writes_only_misses _ _ _ _ _ _ _ _ _ Hrun)
    as [_ Hrows].
  destruct (Hrows (lit "World")) as (row & Hrow & _ & _ & Hprovider).
  { apply list_elem_of_In. vm_compute. tauto. }
  exists res, w', row. split; [reflexivity|]. by split.
Defined.

Lemma call_api_batch_fits_witness :
  exists parts w',
    _call_api_batch (Some Samples.openai) Samples.zh
                    (Samples.answer (lit "x---y")) Samples.quiet
                    [lit "a"; lit "b"; lit "c"] Samples.fresh
    = (Returns parts, w') /\
    length parts = 3%nat.
Proof.
  destruct (_call_api_batch (Some Samples.openai) Samples.zh
              (Samples.answer (lit "x---y")) Samples.quiet
              [lit "a"; lit "b"; lit "c"] Samples.fresh)
    as [[parts|e] w'] eqn:Hrun; [|by vm_compute in Hrun].
  exists parts, w'. split; [reflexivity|].
  apply (call_api_batch_fits _ _ _ _ _ _ _ _ Hrun).
Defined.

End EngineMore.

(** * More about [translate_all] *)

Module TranslateAllFacts.
Import Engine Terms MoreTerms EngineFacts CancelFacts.

Section Facts.
Variable sha256_hexdigest : str -> str.
Variable provider : option TranslationProviderConfig.
Variable target_lang : str.
Variable http_post : str -> str -> reply.
Variable interference : nat -> bool -> bool.

Abbreviation cached_in := (get_cached_in sha256_hexdigest target_lang).
Abbreviation resolved_in := (resolved sha256_hexdigest target_lang).
Abbreviation dispatch_ :=
  (dispatch sha256_hexdigest provider target_lang http_post interference).
Abbreviation all_loop_ :=
  (all_loop sha256_hexdigest provider target_lang http_post interference).
Abbreviation translate_all_ :=
  (translate_all sha256_hexdigest provider target_lang http_post
                 interference).

Lemma all_cached_resolved paras :
  forall i results done w,
  exists d,
    all_cached sha256_hexdigest target_lang i paras results done w
    = (Returns (resolved_in (cache w) i paras results, d), w).
Proof.
  induction paras as [|para rest IH]; intros i results done w.
  { by eexists. }
  cbn [all_cached resolved]. unfold bind, get_cached.
  destruct (get_cached_in _ _ _ _); apply IH.
Qed.

Lemma resolved_length db paras :
  forall i results,
    length (resolved_in db i paras results) = length results.
Proof.
  induction paras as [|para rest IH]; intros i results; [done|].
  cbn [resolved]. destruct (cached_in db para); rewrite IH;
    [apply length_insert|done].
Qed.

Lemma resolved_before db paras :
  forall i results k,
    (k < i)%nat -> resolved_in db i paras results !! k = results !! k.
Proof.
  induction paras as [|para rest IH]; intros i results k Hk; [done|].
  cbn [resolved]. destruct (cached_in db para).
  - rewrite IH by lia. apply list_lookup_insert_ne. lia.
  - apply IH. lia.
Qed.

Lemma resolved_lookup db paras :
  forall i results j para,
    (i + length paras <= length results)%nat ->
    paras !! j = Some para ->
    resolved_in db i paras results !! (i + j)%nat
    = match cached_in db para with
      | Some c => Some c
      | None => results !! (i + j)%nat
      end.
Proof.
  induction paras as [|p rest IH]; intros i results j para Hlen Hj;
    [done|].
  cbn [length] in Hlen. cbn [resolved]. destruct j as [|j].
  - injection Hj as ->. rewrite Nat.add_0_r.
    destruct (cached_in db para) as [c|].
    + rewrite resolved_before by lia.
      apply list_lookup_insert_eq. lia.
    + apply resolved_before. lia.
  - cbn in Hj. replace (i + S j)%nat with (S i + j)%nat by lia.
    destruct (cached_in db p) as [c|].
    + rewrite (IH (S i) (<[i := c]> results) j para);
        [|rewrite length_insert; lia|done].
      destruct (cached_in db para); [done|].
      apply list_lookup_insert_ne. lia.
    + rewrite (IH (S i) results j para); [done|lia|done].
Qed.

Lemma resolved_at db paragraphs i para :
  paragraphs !! i = Some para ->
  resolved_in db O paragraphs (replicate (length paragraphs) []) !! i
  = Some (default [] (cached_in db para)).
Proof.
  intros Hi.
  pose proof (resolved_lookup db paragraphs O
                (replicate (length paragraphs) []) i para) as Hl.
  cbn [Nat.add] in Hl.
  etrans; [apply Hl; [by rewrite length_replicate|done]|].
  destruct (cached_in db para); [done|]. cbn [default].
  apply lookup_replicate. split; [done|].
  by eapply lookup_lt_Some.
Qed.

Lemma dispatch_results_length b paragraphs total st w st2 w1 :
  dispatch_ b paragraphs total st w = (Returns st2, w1) ->
  length (results st2) = length (results st).
Proof.
  unfold dispatch. intros Hrun. unfold bind at 1 in Hrun.
  destruct (_call_api_batch provider target_lang http_post interference
              (batch_texts st) w) as [[translated|e] w0]; [|done].
  unfold bind at 1 in Hrun. rewrite store_batch_spec in Hrun.
  unfold bind at 1 in Hrun.
  match type of Hrun with
  | context [report ?i ?b ?d ?t ?w0] =>
      destruct (report_spec i b d t w0) as (w' & Hrep & _)
  end.
  rewrite Hrep in Hrun. unfold ret in Hrun.
  injection Hrun as <- <-. cbn [results]. apply stored_length.
Qed.

Lemma all_loop_results_length on_progress paragraphs total paras :
  forall i st w st' w',
    all_loop_ on_progress paragraphs total i paras st w
    = (Returns st', w') ->
    length (results st') = length (results st).
Proof.
  induction paras as [|para rest IH]; intros i st w st' w' Hrun.
  { by injection Hrun as <- <-. }
  cbn [all_loop] in Hrun. unfold bind at 1, read_cancel in Hrun.
  destruct (_cancel w).
  { run_in Hrun. by injection Hrun as <- <-. }
  destruct (negb (bool_decide (nth i (results st) [] = []))).
  { by apply (IH (S i) st w st' w'). }
  destruct (blank para).
  { rewrite (IH (S i) _ w st' w' Hrun). cbn [results].
    apply length_insert. }
  match type of Hrun with
  | context [dispatch_ _ _ _ ?s] => set (st1 := s) in *
  end.
  destruct (BATCH_MAX_PARAGRAPHS <=? length (batch_texts st1))%nat.
  2:{ by rewrite (IH (S i) st1 w st' w' Hrun). }
  unfold bind at 1 in Hrun.
  destruct (dispatch_ on_progress paragraphs total st1 w) as [[st2|e] w1]
    eqn:Hdispatch; [|done].
  apply dispatch_results_length in Hdispatch.
  unfold bind at 1, suspend in Hrun.
  rewrite (IH (S i) _ _ st' w' Hrun). cbn [results].
  rewrite Hdispatch. done.
Qed.

(** X8.  When [translate_all] returns, it returns one entry per
    paragraph, whether or not it was cancelled on the way and
    whatever the responses held. *)
Theorem translate_all_length paragraphs on_progress w res w' :
  translate_all sha256_hexdigest provider target_lang http_post
                interference paragraphs on_progress w
  = (Returns res, w') ->
  length res = length paragraphs.
Proof.
  unfold translate_all. intros Hrun. unfold bind at 1 in Hrun.
  destruct (all_cached_resolved paragraphs O
              (replicate (length paragraphs) []) O w) as [d Hfirst].
  rewrite Hfirst in Hrun. unfold bind at 1 in Hrun.
  destruct (report_spec interference on_progress d (length paragraphs) w)
    as (w1 & Hrep & _).
  rewrite Hrep in Hrun. unfold bind at 1 in Hrun.
  match type of Hrun with
  | context [all_loop_ _ _ _ _ _ ?s ?w0] =>
      destruct (all_loop_ on_progress paragraphs (length paragraphs) O
                          paragraphs s w0) as [[st|e] w2] eqn:Hloop;
      [|done]
  end.
  apply all_loop_results_length in Hloop. cbn [results] in Hloop.
  rewrite resolved_length, length_replicate in Hloop.
  destruct (batch_texts st).
  { injection Hrun as <- <-. done. }
  unfold bind at 1, read_cancel in Hrun.
  destruct (_cancel w2).
  { run_in Hrun. injection Hrun as <- <-. done. }
  unfold bind at 1 in Hrun.
  destruct (dispatch_ on_progress paragraphs (length paragraphs) st w2)
    as [[st2|e] w3] eqn:Hdispatch; [|done].
  apply dispatch_results_length in Hdispatch.
  injection Hrun as <- <-. by rewrite Hdispatch.
Qed.


Abbreviation count_in := (count_translated_in sha256_hexdigest target_lang).

Lemma all_cached_counts paras :
  forall i results done w,
    all_cached sha256_hexdigest target_lang i paras results done w
    = (Returns (resolved_in (cache w) i paras results,
                (done + count_in (cache w) paras)%nat), w).
Proof.
  induction paras as [|para rest IH]; intros i results done w.
  { cbn [all_cached resolved count_translated_in]. unfold ret.
    by rewrite Nat.add_0_r. }
  cbn [all_cached resolved count_translated_in]. unfold bind, get_cached.
  unfold is_translated_in, get_cached_in.
  destruct (blank para).
  - rewrite IH. cbn [Nat.add]. by rewrite Nat.add_succ_r.
  - destruct (Database.get_cached_translation _ _).
    + rewrite IH. cbn [Nat.add]. by rewrite Nat.add_succ_r.
    + by rewrite IH.
Qed.

Lemma report_world b done total w :
  exists w',
    report interference b done total w = (Returns tt, w') /\
    events w' = events w ++ progress_events b done total /\
    cache w' = cache w /\
    _cancel w'
    = (if b then interference (suspensions w) (_cancel w) else _cancel w).
Proof.
  unfold report. destruct b.
  - run. eexists. split; [done|]. simpl. done.
  - run. eexists. split; [done|]. simpl. by rewrite app_nil_r.
Qed.

(** The second loop when there is nothing to send: every remaining
    paragraph is blank or already has a non-empty result. *)
Lemma all_loop_skips on_progress paragraphs total paras :
  forall i st w,
    (forall j para,
        paras !! j = Some para ->
        (i + j < length (results st))%nat /\
        (blank para = true \/ nth (i + j) (results st) [] <> [])) ->
    exists d w' stops,
      all_loop_ on_progress paragraphs total i paras st w
      = (Returns (mkLocals (results st) d (batch_indices st)
                           (batch_texts st)), w') /\
      cache w' = cache w /\
      events w' = events w ++ stops /\
      Forall (fun e => e = ECancelSeen) stops.
Proof.
  induction paras as [|para rest IH]; intros i st w Hskip.
  { exists (done st), w, []. rewrite app_nil_r.
    split; [by destruct st|]. done. }
  cbn [all_loop]. unfold bind at 1, read_cancel.
  destruct (_cancel w).
  { run. eexists (done st), _, [ECancelSeen].
    split; [by destruct st|]. cbn [cache events].
    split; [done|]. split; [done|]. by constructor. }
  assert (forall j p, rest !! j = Some p ->
            (S i + j < length (results st))%nat /\
            (blank p = true \/ nth (S i + j) (results st) [] <> []))
    as Hrest.
  { intros j p Hj. replace (S i + j)%nat with (i + S j)%nat by lia.
    by apply Hskip. }
  destruct (Hskip O para eq_refl) as [Hlt Hcase].
  rewrite Nat.add_0_r in Hlt, Hcase.
  destruct (bool_decide (nth i (results st) [] = [])) eqn:Hempty;
    cbn [negb].
  2:{ by apply IH. }
  apply bool_decide_eq_true in Hempty.
  destruct Hcase as [Hblank|Hne]; [|done].
  rewrite Hblank.
  assert (<[i := []]> (results st) = results st) as Hid.
  { apply list_insert_id.
    destruct (lookup_lt_is_Some_2 _ _ Hlt) as [x Hx].
    rewrite Hx. f_equal. rewrite <- Hempty. symmetry.
    by apply nth_lookup_Some. }
  rewrite Hid.
  destruct (IH (S i)
              (mkLocals (results st) (S (done st)) (batch_indices st)
                        (batch_texts st)) w Hrest)
    as (d & w' & stops & Hrun & Hrest').
  exists d, w', stops. done.
Qed.


(** The second loop when the flag is set on entry. *)
Lemma all_loop_cancelled on_progress paragraphs total paras i st w :
  _cancel w = true ->
  exists d w' stops,
    all_loop_ on_progress paragraphs total i paras st w
    = (Returns (mkLocals (results st) d (batch_indices st)
                         (batch_texts st)), w') /\
    cache w' = cache w /\
    events w' = events w ++ stops /\
    Forall (fun e => e = ECancelSeen) stops.
Proof.
  intros Hflag. destruct paras as [|para rest].
  { exists (done st), w, []. rewrite app_nil_r.
    split; [by destruct st|]. done. }
  cbn [all_loop]. unfold bind at 1, read_cancel. rewrite Hflag.
  run. eexists (done st), _, [ECancelSeen].
  split; [by destruct st|]. cbn [cache events].
  split; [done|]. split; [done|]. by constructor.
Qed.

(** [translate_all] around a second loop that sends nothing. *)
Lemma translate_all_quiet paragraphs (on_progress : bool) w :
  let first :=
    resolved_in (cache w) O paragraphs
                (replicate (length paragraphs) []) in
  (forall done w1,
      cache w1 = cache w ->
      _cancel w1
      = (if on_progress then interference (suspensions w) (_cancel w)
         else _cancel w) ->
      exists d w' stops,
        all_loop_ on_progress paragraphs (length paragraphs) O paragraphs
                  (mkLocals first done [] []) w1
        = (Returns (mkLocals first d [] []), w') /\
        cache w' = cache w1 /\
        events w' = events w1 ++ stops /\
        Forall (fun e => e = ECancelSeen) stops) ->
  exists res w' stops,
    translate_all_ paragraphs on_progress w = (Returns res, w') /\
    cache w' = cache w /\
    events w'
    = events w
      ++ progress_events on_progress (count_in (cache w) paragraphs)
                         (length paragraphs)
      ++ stops /\
    Forall (fun e => e = ECancelSeen) stops /\
    forall i para,
      paragraphs !! i = Some para ->
      res !! i = Some (default [] (cached_in (cache w) para)).
Proof.
  intros first Hloop. unfold translate_all. unfold bind at 1.
  rewrite all_cached_counts. cbn [Nat.add]. unfold bind at 1.
  destruct (report_world on_progress (count_in (cache w) paragraphs)
              (length paragraphs) w) as (w1 & Hrep & Hev & Hcache & Hflag).
  rewrite Hrep. unfold bind at 1.
  destruct (Hloop (count_in (cache w) paragraphs) w1 Hcache Hflag)
    as (d & w' & stops & Hrun & Hcache' & Hev' & Hstops).
  subst first. rewrite Hrun. cbn [batch_texts results]. unfold ret.
  eexists _, w', stops. split; [done|].
  split; [by rewrite Hcache'|].
  split; [by rewrite Hev', Hev, <- app_assoc|].
  split; [done|]. intros i para Hi. by apply resolved_at.
Qed.

(** X9.  When the cancel flag is set as [translate_all] is called (and
    the progress callback, if any, leaves it set), no request is made
    and nothing is written: the progress callback gets the number
    [count_translated] gives, and the result holds the cached
    translation of each paragraph that has one and the empty string
    for the others. *)
Theorem translate_all_cancelled_on_entry paragraphs on_progress w :
  _cancel w = true ->
  (on_progress = true -> interference (suspensions w) true = true) ->
  exists res w' stops,
    translate_all sha256_hexdigest provider target_lang http_post
                  interference paragraphs on_progress w
    = (Returns res, w') /\
    cache w' = cache w /\
    events w'
    = events w
      ++ progress_events on_progress
           (count_translated_in sha256_hexdigest target_lang (cache w)
                                paragraphs)
           (length paragraphs)
      ++ stops /\
    Forall (fun e => e = ECancelSeen) stops /\
    forall i para,
      paragraphs !! i = Some para ->
      res !! i = Some (default [] (cached_in (cache w) para)).
Proof.
  intros Hflag Hkeep. apply translate_all_quiet.
  intros done w1 Hcache Hflag1.
  apply (all_loop_cancelled on_progress paragraphs (length paragraphs)
           paragraphs O (mkLocals _ done [] []) w1).
  rewrite Hflag1, Hflag. destruct on_progress; [by apply Hkeep|done].
Qed.

(** X10.  When every paragraph is blank or has a non-empty cached
    translation, [translate_all] makes no request and writes nothing,
    with or without a provider and whatever the cancel flag does:
    it returns the cached translations in order, after reporting
    all paragraphs as done. *)
Theorem translate_all_nothing_to_send paragraphs on_progress w :
  Forall (fun p => blank p = true \/
                   exists c, cached_in (cache w) p = Some c /\ c <> [])
         paragraphs ->
  exists res w' stops,
    translate_all sha256_hexdigest provider target_lang http_post
                  interference paragraphs on_progress w
    = (Returns res, w') /\
    cache w' = cache w /\
    events w'
    = events w
      ++ progress_events on_progress (length paragraphs)
                         (length paragraphs)
      ++ stops /\
    Forall (fun e => e = ECancelSeen) stops /\
    forall i para,
      paragraphs !! i = Some para ->
      res !! i = cached_in (cache w) para.
Proof.
  intros Hall.
  assert (forall para, para ∈ paragraphs ->
            is_Some (cached_in (cache w) para)) as Hsome.
  { intros para Hin.
    destruct (proj1 (Forall_forall _ _) Hall para Hin)
      as [Hb|(c & Hc & _)]; [|by eauto].
    unfold get_cached_in. rewrite Hb. by eauto. }
  assert (count_in (cache w) paragraphs = length paragraphs) as Hcount.
  { apply EngineMore.count_translated_hits.
    by apply Forall_forall. }
  destruct (translate_all_quiet paragraphs on_progress w)
    as (res & w' & stops & Hrun & Hcache & Hev & Hstops & Hres).
  { intros done w1 Hcache Hflag1.
    apply (all_loop_skips on_progress paragraphs (length paragraphs)
             paragraphs O (mkLocals _ done [] []) w1).
    intros j para Hj. cbn [results Nat.add].
    rewrite resolved_length, length_replicate.
    split; [by eapply lookup_lt_Some|].
    destruct (proj1 (Forall_forall _ _) Hall para)
      as [Hb|(c & Hc & Hne)];
      [by eapply list_elem_of_lookup_2|by left|right].
    pose proof (resolved_at (cache w) paragraphs j para Hj) as Hat.
    rewrite Hc in Hat. cbn [default] in Hat.
    intros Hnil. apply Hne. rewrite <- Hnil. symmetry.
    exact (nth_lookup_Some _ _ [] _ Hat). }
  exists res, w', stops. split; [done|]. split; [done|].
  split; [by rewrite Hev, Hcount|]. split; [done|].
  intros i para Hi. etrans; [exact (Hres i para Hi)|].
  destruct (Hsome para) as [c Hc]; [by eapply list_elem_of_lookup_2|].
  by rewrite Hc.
Qed.


(** *** What the progress callback is told *)

Abbreviation to_send_ := (to_send sha256_hexdigest target_lang).
Abbreviation send_indices_ := (send_indices sha256_hexdigest target_lang).

Lemma to_send_true db para :
  blank para = false -> default [] (cached_in db para) = [] ->
  to_send_ db para = true.
Proof.
  intros Hb He. unfold to_send. rewrite Hb.
  by rewrite (bool_decide_eq_true_2 _ He).
Qed.

Lemma to_send_false db para :
  blank para = true \/ default [] (cached_in db para) <> [] ->
  to_send_ db para = false.
Proof.
  unfold to_send. intros [Hb|Hne]; [by rewrite Hb|].
  by rewrite (bool_decide_eq_false_2 _ Hne), andb_false_r.
Qed.

Lemma blank_result db para :
  blank para = true -> default [] (cached_in db para) = [].
Proof. intros Hb. unfold get_cached_in. by rewrite Hb. Qed.

(** The second loop while the flag stays clear and the batch stays
    below its limit: it only collects. *)
Lemma all_loop_collects on_progress paragraphs total paras :
  forall i st w,
    _cancel w = false ->
    (forall j para,
        paras !! j = Some para ->
        results st !! (i + j)%nat
        = Some (default [] (cached_in (cache w) para))) ->
    (length (batch_texts st)
     + length (List.filter (to_send_ (cache w)) paras)
     < BATCH_MAX_PARAGRAPHS)%nat ->
    all_loop_ on_progress paragraphs total i paras st w
    = (Returns
         (mkLocals (results st)
                   (done st + length (List.filter blank paras))
                   (batch_indices st ++ send_indices_ (cache w) i paras)
                   (batch_texts st
                    ++ List.filter (to_send_ (cache w)) paras)), w).
Proof.
  induction paras as [|para rest IH]; intros i st w Hflag Hres Hlen.
  { cbn. unfold ret. rewrite Nat.add_0_r, !app_nil_r. by destruct st. }
  assert (forall j p, rest !! j = Some p ->
            results st !! (S i + j)%nat
            = Some (default [] (cached_in (cache w) p))) as Hrest.
  { intros j p Hj. replace (S i + j)%nat with (i + S j)%nat by lia.
    by apply Hres. }
  pose proof (Hres O para eq_refl) as Hi. rewrite Nat.add_0_r in Hi.
  pose proof (nth_lookup_Some _ _ [] _ Hi) as Hnth.
  cbn [all_loop]. unfold bind at 1, read_cancel. rewrite Hflag.
  cbn [List.filter send_indices] in *.
  destruct (decide (nth i (results st) [] = [])) as [Hn|Hn].
  - rewrite (bool_decide_eq_true_2 _ Hn). cbn [negb].
    assert (default [] (cached_in (cache w) para) = []) as He
        by (etrans; [symmetry; exact Hnth|exact Hn]).
    destruct (blank para) eqn:Hb.
    + (* blank: counted once more *)
      rewrite (to_send_false (cache w) para (or_introl Hb)) in *.
      assert (<[i := []]> (results st) = results st) as Hid.
      { apply list_insert_id. etrans; [exact Hi|]. by f_equal. }
      rewrite Hid.
      rewrite (IH (S i) (mkLocals (results st) (S (done st))
                                  (batch_indices st) (batch_texts st))
                  w Hflag Hrest Hlen).
      cbn [results done batch_indices batch_texts length].
      do 2 f_equal. f_equal. lia.
    + (* to be sent *)
      rewrite (to_send_true (cache w) para Hb He) in *.
      cbn [length] in Hlen. cbn [batch_texts].
      rewrite (proj2 (Nat.leb_gt _ _)).
      2:{ rewrite length_app. cbn [length].
          unfold BATCH_MAX_PARAGRAPHS in *. lia. }
      rewrite (IH (S i) (mkLocals (results st) (done st)
                                  (batch_indices st ++ [i])
                                  (batch_texts st ++ [para]))
                  w Hflag Hrest).
      2:{ cbn [batch_texts]. rewrite length_app. cbn [length].
          unfold BATCH_MAX_PARAGRAPHS in *. lia. }
      cbn [results done batch_indices batch_texts].
      by rewrite <- !app_assoc.
  - (* a result is there *)
    rewrite (bool_decide_eq_false_2 _ Hn). cbn [negb].
    assert (default [] (cached_in (cache w) para) <> []) as Hne.
    { intros He. apply Hn. etrans; [exact Hnth|exact He]. }
    assert (blank para = false) as Hb.
    { destruct (blank para) eqn:Hb; [|done].
      exfalso. apply Hne. by apply blank_result. }
    rewrite (to_send_false (cache w) para (or_intror Hne)) in *.
    rewrite Hb.
    by rewrite (IH (S i) st w Hflag Hrest Hlen).
Qed.


Lemma send_indices_length db paras :
  forall i,
    length (send_indices_ db i paras)
    = length (List.filter (to_send_ db) paras).
Proof.
  induction paras as [|para rest IH]; intros i; [done|].
  cbn [send_indices List.filter].
  destruct (to_send_ db para); cbn [length]; by rewrite IH.
Qed.

Lemma counted_or_sent db paras :
  (length paras
   <= count_in db paras + length (List.filter (to_send_ db) paras))%nat.
Proof.
  induction paras as [|para rest IH]; [done|].
  cbn [length count_translated_in List.filter].
  destruct (is_translated_in sha256_hexdigest target_lang db para)
    eqn:Htr.
  - destruct (to_send_ db para); cbn [length]; lia.
  - rewrite to_send_true; [cbn [length]; lia| |].
    + unfold is_translated_in in Htr. by destruct (blank para).
    + unfold is_translated_in, get_cached_in in *.
      destruct (blank para); [done|].
      by destruct (Database.get_cached_translation _ _).
Qed.

(** X11.  With a progress callback, no cancellation and fewer than
    twenty paragraphs to send, [translate_all] ends by reporting
    [done = count_translated + blank paragraphs + paragraphs sent]:
    a blank paragraph is counted in the first loop and again in the
    second, so the reported [done] is at least the total plus the
    number of blank paragraphs, and exceeds the total whenever the
    list has a blank paragraph. *)
Theorem translate_all_final_progress p paragraphs w content :
  provider = Some p -> _cancel w = false ->
  (forall k, interference k false = false) ->
  let sent := List.filter (to_send sha256_hexdigest target_lang (cache w))
                          paragraphs in
  let blanks := length (List.filter blank paragraphs) in
  sent <> [] -> (length sent < BATCH_MAX_PARAGRAPHS)%nat ->
  http_post (batch_prompt target_lang (length sent))
            (join BATCH_SEPARATOR sent) = Answered content ->
  exists res w' d,
    translate_all sha256_hexdigest provider target_lang http_post
                  interference paragraphs true w = (Returns res, w') /\
    last (events w') = Some (EProgress d (length paragraphs)) /\
    d = (count_translated_in sha256_hexdigest target_lang (cache w)
                             paragraphs + blanks + length sent)%nat /\
    (length paragraphs + blanks <= d)%nat.
Proof.
  intros Hp Hflag Hquiet sent blanks Hsome Hfew Hpost.
  unfold translate_all. unfold bind at 1.
  rewrite all_cached_counts. cbn [Nat.add]. unfold bind at 1.
  unfold report at 1. run. rewrite Hflag, Hquiet.
  match goal with
  | |- context [all_loop_ _ _ _ _ _ ?st0 ?w0] =>
      pose proof (all_loop_collects true paragraphs (length paragraphs)
                    paragraphs O st0 w0) as Hloop
  end.
  cbn [cache _cancel results done batch_indices batch_texts app length
       Nat.add] in Hloop.
  rewrite Hloop; [|done|by intros j para Hj; apply resolved_at|exact Hfew].
  clear Hloop. cbn [batch_texts]. fold sent.
  destruct sent as [|t ts] eqn:Hsent; [done|]. rewrite <- Hsent in *.
  cbn [_cancel]. unfold dispatch.
  cbn [batch_texts batch_indices results done]. run.
  rewrite (_call_api_batch_spec provider target_lang http_post
             interference sent _ p content Hp Hpost).
  rewrite store_batch_spec. unfold report. run.
  eexists _, _, _. split; [done|]. cbn [events].
  split; [apply last_snoc|].
  rewrite send_indices_length. fold sent. split; [done|].
  pose proof (counted_or_sent (cache w) paragraphs) as Hall.
  fold sent in Hall. subst blanks. lia.
Qed.

End Facts.

Lemma translate_all_length_witness :
  exists res w',
    translate_all Samples.plain_digest (Some Samples.openai) Samples.zh
                  (Samples.answer (lit "x---y")) Samples.quiet
                  Samples.four_paragraphs true Samples.fresh
    = (Returns res, w') /\
    length res = 4%nat.
Proof.
  destruct (translate_all Samples.plain_digest (Some Samples.openai)
              Samples.zh (Samples.answer (lit "x---y")) Samples.quiet
              Samples.four_paragraphs true Samples.fresh)
    as [[res|e] w'] eqn:Hrun; [|by vm_compute in Hrun].
  exists res, w'. split; [reflexivity|].
  apply (translate_all_length _ _ _ _ _ _ _ _ _ _ Hrun).
Defined.

Lemma translate_all_cancelled_on_entry_witness :
  exists res w' stops,
    translate_all Samples.plain_digest (Some Samples.openai) Samples.zh
                  (Samples.answer (lit "x---y")) Samples.quiet
                  Samples.four_paragraphs false MoreSamples.cancelled
    = (Returns res, w') /\
    cache w' = cache MoreSamples.cancelled /\
    events w' = events MoreSamples.cancelled ++ [] ++ stops /\
    Forall (fun e => e = ECancelSeen) stops.
Proof.
  destruct (translate_all_cancelled_on_entry
              Samples.plain_digest (Some Samples.openai) Samples.zh
              (Samples.answer (lit "x---y")) Samples.quiet
              Samples.four_paragraphs false MoreSamples.cancelled)
    as (res & w' & stops & Hrun & Hcache & Hev & Hstops & _).
  - reflexivity.
  - discriminate.
  - exists res, w', stops. split; [exact Hrun|]. split; [exact Hcache|].
    split; [exact Hev|exact Hstops].
Defined.

Lemma translate_all_nothing_to_send_witness :
  exists res w' stops,
    translate_all Samples.plain_digest None Samples.zh Samples.offline
                  Samples.quiet [lit "Hello"; lit " "] true
                  MoreSamples.hello_world
    = (Returns res, w') /\
    cache w' = cache MoreSamples.hello_world /\
    events w'
    = events MoreSamples.hello_world ++ [EProgress 2 2] ++ stops.
Proof.
  destruct (translate_all_nothing_to_send
              Samples.plain_digest None Samples.zh Samples.offline
              Samples.quiet [lit "Hello"; lit " "] true
              MoreSamples.hello_world)
    as (res & w' & stops & Hrun & Hcache & Hev & _).
  { constructor.
    - right. eexists. split; [vm_compute; reflexivity|by vm_compute].
    - constructor; [left; reflexivity|constructor]. }
  exists res, w', stops. split; [exact Hrun|]. split; [exact Hcache|].
  exact Hev.
Defined.

Lemma translate_all_final_progress_witness :
  exists res w',
    translate_all Samples.plain_digest (Some Samples.openai) Samples.zh
                  (Samples.answer (lit "x---y")) Samples.quiet
                  Samples.four_paragraphs true Samples.fresh
    = (Returns res, w') /\
    last (events w') = Some (EProgress 5 4).
Proof.
  destruct (translate_all_final_progress
              Samples.plain_digest (Some Samples.openai) Samples.zh
              (Samples.answer (lit "x---y")) Samples.quiet
              Samples.openai Samples.four_paragraphs Samples.fresh
              (lit "x---y"))
    as (res & w' & d & Hrun & Hlast & Hd & _).
  - reflexivity.
  - reflexivity.
  - intros k. reflexivity.
  - by vm_compute.
  - vm_compute. lia.
  - reflexivity.
  - exists res, w'. split; [exact Hrun|].
    rewrite Hlast, Hd. reflexivity.
Defined.

End TranslateAllFacts.

(** * More about the pagination engine *)

Module PaginatorMore.
Import Paginator MoreTerms PaginatorFacts.

Lemma chunks_concat {A} (l : list A) (h : nat) :
  forall n,
    concat (map (fun i => slice l i (i + h))
                (map (fun k => (k * h)%nat) (seq 0 n)))
    = take (n * h) l.
Proof.
  induction n as [|n IH]; [done|].
  rewrite seq_S, !map_app, concat_app, IH. cbn [map concat Nat.add].
  rewrite app_nil_r. unfold slice.
  replace (n * h + h - n * h)%nat with h by lia.
  replace (S n * h)%nat with (n * h + h)%nat by lia.
  by rewrite take_take_drop.
Qed.

Lemma pages_concat {A} (l : list A) (h : nat) :
  (0 < h)%nat ->
  concat (map (fun i => slice l i (i + h)) (range_step (length l) h)) = l.
Proof.
  intros Hh. unfold range_step. rewrite chunks_concat.
  apply take_ge.
  pose proof (Nat.div_mod_eq (length l + Nat.pred h) h) as Hdm.
  pose proof (Nat.mod_upper_bound (length l + Nat.pred h) h) as Hlt.
  nia.
Qed.

Section Facts.
Variable east_asian_wide : char -> bool.
Variable textwrap_wrap : str -> Z -> list str.
Variable get_cached : str -> option str.

Abbreviation dw := (_display_width east_asian_wide).
Abbreviation block :=
  (paragraph_block east_asian_wide textwrap_wrap get_cached).
Abbreviation wrap_from_ :=
  (wrap_from east_asian_wide textwrap_wrap get_cached).

Lemma display_width_spaces n :
  east_asian_wide SPACE = false ->
  dw (replicate n SPACE) = Z.of_nat n.
Proof.
  intros Hspace. induction n as [|n IH]; [done|].
  cbn [replicate _display_width]. rewrite IH.
  unfold char_width. rewrite Hspace. lia.
Qed.

Lemma pad_display_width text width :
  east_asian_wide SPACE = false ->
  dw (_pad_to_width east_asian_wide text width) = Z.max width (dw text).
Proof.
  intros Hspace. unfold _pad_to_width.
  rewrite (display_width_app east_asian_wide),
    (display_width_spaces _ Hspace). lia.
Qed.

(** X12.  Where the space is a narrow character, [_pad_to_width]
    gives a text of display width [max(width, display width of the
    text)]: it pads with spaces on the right up to [width] and never
    cuts, so a text wider than [width] comes back unchanged. *)
Theorem pad_to_width_exact text width :
  east_asian_wide SPACE = false ->
  _display_width east_asian_wide
                 (_pad_to_width east_asian_wide text width)
  = Z.max width (_display_width east_asian_wide text) /\
  take (length text) (_pad_to_width east_asian_wide text width) = text /\
  (width <= _display_width east_asian_wide text ->
   _pad_to_width east_asian_wide text width = text).
Proof.
  intros Hspace. unfold _pad_to_width.
  split; [|split].
  - by apply pad_display_width.
  - by rewrite take_app_length.
  - intros Hle.
    replace (Z.to_nat (Z.max 0 (width - dw text))) with O by lia.
    cbn [replicate]. by rewrite app_nil_r.
Qed.

Lemma wrap_paragraph_lines tm ls width n i para :
  (wrap_paragraph east_asian_wide textwrap_wrap get_cached
                  tm ls width n i para).1
  = block tm width para
    ++ (if (Z.of_nat i <? Z.of_nat n - 1)
        then replicate (Z.to_nat ls) [] else []).
Proof.
  unfold wrap_paragraph, paragraph_block.
  destruct tm.
  - destruct (get_cached para) as [c|].
    + destruct (bool_decide (c = []));
        destruct (Z.of_nat i <? Z.of_nat n - 1); cbn [fst];
        by rewrite ?app_nil_r.
    + destruct (Z.of_nat i <? Z.of_nat n - 1); cbn [fst];
        by rewrite ?app_nil_r.
  - destruct (Z.of_nat i <? Z.of_nat n - 1); cbn [fst];
      by rewrite ?app_nil_r.
Qed.

Lemma wrap_from_cons tm ls width n i para rest :
  (wrap_from_ tm ls width n i (para :: rest)).1
  = (wrap_paragraph east_asian_wide textwrap_wrap get_cached
                    tm ls width n i para).1
    ++ (wrap_from_ tm ls width n (S i) rest).1.
Proof.
  cbn [wrap_from].
  destruct (wrap_paragraph _ _ _ tm ls width n i para).
  by destruct (wrap_from_ tm ls width n (S i) rest).
Qed.

Lemma wrap_from_blocks tm ls width n paras :
  forall i,
    n = (i + length paras)%nat ->
    (wrap_from_ tm ls width n i paras).1
    = join_blocks (replicate (Z.to_nat ls) []) (map (block tm width) paras).
Proof.
  induction paras as [|para rest IH]; intros i Hn; [done|].
  rewrite wrap_from_cons, wrap_paragraph_lines.
  cbn [length] in Hn. rewrite (IH (S i)) by lia.
  destruct rest as [|next rest].
  - cbn [length] in Hn.
    replace (Z.of_nat i <? Z.of_nat n - 1) with false
      by (symmetry; apply Z.ltb_ge; lia).
    cbn [map join_blocks]. by rewrite !app_nil_r.
  - cbn [length] in Hn.
    replace (Z.of_nat i <? Z.of_nat n - 1) with true
      by (symmetry; apply Z.ltb_lt; lia).
    cbn [map join_blocks]. by rewrite <- app_assoc.
Qed.

Lemma wrap_chapter_lines tm ls chapter width :
  (_wrap_chapter east_asian_wide textwrap_wrap get_cached
                 tm ls chapter width).1
  = join_blocks (replicate (Z.to_nat ls) [])
                (map (block tm width) (paragraphs chapter)).
Proof. unfold _wrap_chapter. by apply wrap_from_blocks. Qed.

(** X13.  The lines [_wrap_chapter] lays out are the blocks of the
    paragraphs in order (the wrapped paragraph, directly followed in
    translate mode by its wrapped, marked translation when a
    non-empty one is cached), with [line_spacing] blank lines between
    two blocks and none after the last. *)
Theorem wrap_chapter_blocks tm ls chapter width :
  (_wrap_chapter east_asian_wide textwrap_wrap get_cached
                 tm ls chapter width).1
  = join_blocks (replicate (Z.to_nat ls) [])
                (map (paragraph_block east_asian_wide textwrap_wrap
                                      get_cached tm width)
                     (paragraphs chapter)).
Proof. unfold _wrap_chapter. by apply wrap_from_blocks. Qed.

(** X14.  [_reflow] cuts the lines of a chapter into pages without
    losing, repeating or reordering any: the pages put end to end
    are the lines [_wrap_chapter] laid out, there are
    [ceil(lines / height)] of them, and there is one paragraph range
    per page.  A chapter without paragraphs gives the single
    placeholder page. *)
Theorem reflow_pages_partition tm dual ls size chapter :
  let dims := _get_content_dimensions size in
  let h := Z.to_nat dims.2 in
  let lines :=
    (_wrap_chapter east_asian_wide textwrap_wrap get_cached
                   tm ls chapter (page_width_of dual dims.1)).1 in
  let result :=
    _reflow east_asian_wide textwrap_wrap get_cached
            tm dual ls size (Some chapter) in
  length result.1 = length result.2 /\
  (paragraphs chapter <> [] ->
   concat result.1 = lines /\
   length result.1 = ((length lines + Nat.pred h) / h)%nat) /\
  (paragraphs chapter = [] -> result = ([[EMPTY_PAGE]], [(O, O)])).
Proof.
  intros dims h lines result.
  pose proof (dimensions_bounds size) as [_ Hh]. fold dims in Hh.
  assert (0 < h)%nat as Hpos by (subst h; lia).
  assert (result
          = paginate lines
              (_wrap_chapter east_asian_wide textwrap_wrap get_cached
                 tm ls chapter (page_width_of dual dims.1)).2 h)
    as Hresult.
  { subst result lines h dims. rewrite reflow_chapter. cbv zeta.
    by rewrite Z.max_r by lia. }
  assert (paragraphs chapter = [] -> lines = []) as Hempty.
  { intros Hnil. subst lines. unfold _wrap_chapter. by rewrite Hnil. }
  assert (paragraphs chapter <> [] -> lines <> []) as Hfull.
  { intros Hne. subst lines. unfold _wrap_chapter.
    destruct (paragraphs chapter) as [|para rest]; [done|].
    apply wrap_from_nonempty. }
  rewrite Hresult. split; [|split].
  - destruct (paragraphs chapter) as [|para rest] eqn:Hparas.
    + by rewrite paginate_empty
        by (first [exact Hpos | by apply Hempty]).
    + rewrite paginate_nonempty
        by (first [exact Hpos | by apply Hfull]).
      cbn [fst snd]. by rewrite !length_map.
  - intros Hne.
    rewrite paginate_nonempty by (first [exact Hpos | by apply Hfull]).
    cbn [fst]. split; [by apply pages_concat|].
    unfold range_step. by rewrite !length_map, length_seq.
  - intros Hnil.
    by rewrite paginate_empty by (first [exact Hpos | by apply Hempty]).
Qed.

Lemma join_blocks_Forall {A} (P : A -> Prop) sep blocks :
  Forall P sep -> Forall (Forall P) blocks ->
  Forall P (join_blocks sep blocks).
Proof.
  intros Hsep Hblocks.
  induction Hblocks as [|b blocks Hb Hrest IH]; [constructor|].
  destruct blocks as [|b' blocks]; [done|].
  change (Forall P (b ++ sep ++ join_blocks sep (b' :: blocks))).
  by rewrite !Forall_app.
Qed.

(** *** The two columns of the dual-page view *)

Section Aligned.

(** No ASCII character is wide in the East-Asian-Width table. *)
Hypothesis ascii_narrow :
  forall c, (c < 128)%N -> east_asian_wide c = false.

(** The contract of [textwrap.wrap] with its defaults. *)
Hypothesis textwrap_bound :
  forall text width line,
    isascii text = true -> 1 <= width ->
    line ∈ textwrap_wrap text width ->
    Z.of_nat (length line) <= width /\ isascii line = true.

Lemma wrap_cjk_fits text width :
  2 <= width ->
  Forall (fun line => dw line <= width)
         (_wrap_cjk east_asian_wide textwrap_wrap text width).
Proof.
  intros Hwidth. unfold _wrap_cjk.
  destruct (blank text); [apply Forall_singleton; simpl; lia|].
  destruct (isascii text) eqn:Hascii.
  - apply or_blank_Forall; [simpl; lia|].
    apply Forall_forall. intros line Hin.
    destruct (textwrap_bound text width line Hascii) as [Hlen Hline];
      [lia|done|].
    rewrite (display_width_ascii east_asian_wide ascii_narrow)
      by done.
    done.
  - apply or_blank_Forall; [simpl; lia|]. by apply cjk_lines_bound.
Qed.

Lemma block_fits tm width para :
  2 <= width ->
  Forall (fun line => dw line <= width) (block tm width para).
Proof.
  intros Hwidth. unfold paragraph_block. apply Forall_app.
  split; [by apply wrap_cjk_fits|].
  destruct tm; [|constructor].
  destruct (get_cached para) as [c|]; [|constructor].
  destruct (bool_decide (c = [])); [constructor|].
  by apply wrap_cjk_fits.
Qed.

Lemma reflow_lines_fit tm dual ls size chapter page line :
  let pw := page_width_of dual (_get_content_dimensions size).1 in
  page ∈ (_reflow east_asian_wide textwrap_wrap get_cached
                  tm dual ls size chapter).1 ->
  line ∈ page ->
  dw line <= pw.
Proof.
  intros pw Hpage Hline.
  assert (20 <= pw) as Hpw.
  { subst pw. unfold page_width_of. destruct dual; lia. }
  assert (dw EMPTY_PAGE <= pw) as Hplaceholder.
  { rewrite (display_width_ascii east_asian_wide ascii_narrow)
      by done.
    cbn. lia. }
  destruct chapter as [chapter|].
  2:{ cbn in Hpage. apply list_elem_of_singleton in Hpage as ->.
      by apply list_elem_of_singleton in Hline as ->. }
  pose proof (dimensions_bounds size) as [_ Hh].
  rewrite reflow_chapter in Hpage. cbv zeta in Hpage.
  set (wrapped :=
         _wrap_chapter east_asian_wide textwrap_wrap get_cached
                       tm ls chapter pw) in *.
  fold pw in Hpage.
  assert (Forall (fun line => dw line <= pw) wrapped.1) as Hfit.
  { subst wrapped. rewrite wrap_chapter_lines.
    apply join_blocks_Forall.
    - apply Forall_forall. intros l Hl.
      apply elem_of_replicate in Hl as [-> _]. cbn. lia.
    - apply Forall_forall. intros b Hb.
      apply list_elem_of_fmap in Hb as (para & -> & _).
      apply block_fits. lia. }
  destruct (decide (wrapped.1 = [])) as [Hnil|Hne].
  - rewrite paginate_empty in Hpage by (lia || done). cbn in Hpage.
    apply list_elem_of_singleton in Hpage as ->.
    by apply list_elem_of_singleton in Hline as ->.
  - rewrite paginate_nonempty in Hpage by (lia || done).
    cbn [fst] in Hpage.
    apply list_elem_of_fmap in Hpage as (i & -> & _).
    unfold slice in Hline.
    apply (proj1 (Forall_forall _ _) Hfit).
    eapply subseteq_drop, subseteq_take, Hline.
Qed.

Lemma reflow_pages_nonempty tm dual ls size chapter :
  (_reflow east_asian_wide textwrap_wrap get_cached
           tm dual ls size chapter).1 <> [].
Proof.
  destruct chapter as [chapter|]; [|done].
  rewrite reflow_chapter. cbv zeta. unfold paginate.
  by destruct (map _ (range_step _ _)).
Qed.

(** X15.  In dual-page mode the rows [_render_page] draws from the
    pages of [_reflow] line up: there is one row per viewport
    line, and in every row the left page's line is padded to
    exactly the column width before the separator, the right
    page's line following it (empty where the right page or the
    line is missing). *)
Theorem dual_rows_aligned tm ls size chapter page_idx :
  let dims := _get_content_dimensions size in
  let pw := Z.max 20 ((dims.1 - 3) / 2) in
  let pages :=
    (_reflow east_asian_wide textwrap_wrap get_cached
             tm true ls size chapter).1 in
  let left_of j := default [] (default [] (pages !! page_idx) !! j) in
  let right_of j :=
    default [] (default [] (pages !! S page_idx) !! j) in
  exists rows,
    _render_rows east_asian_wide true size pages page_idx = Some rows /\
    length rows = Z.to_nat dims.2 /\
    forall j row,
      rows !! j = Some row ->
      exists left,
        row = left ++ [32; 9474; 32]%N ++ right_of j /\
        _display_width east_asian_wide left = pw /\
        take (length (left_of j)) left = left_of j.
Proof.
  intros dims pw pages left_of right_of. subst left_of right_of.
  cbv beta.
  pose proof (reflow_pages_nonempty tm true ls size chapter) as Hne.
  fold pages in Hne. unfold _render_rows. fold dims.
  destruct pages as [|page0 rest] eqn:Hpages; [done|].
  rewrite <- Hpages. clear Hne.
  destruct dims as [cw ch] eqn:Hdims. cbn [fst snd] in *.
  eexists. split; [done|]. split.
  { by rewrite length_map, length_seq. }
  intros j row Hj. rewrite list_lookup_fmap in Hj.
  destruct (seq 0 (Z.to_nat ch) !! j) as [j'|] eqn:Hseq; [|done].
  apply lookup_seq in Hseq as [-> _]. cbn in Hj.
  injection Hj as <-. fold pw.
  eexists. split; [done|]. split.
  - rewrite pad_display_width by (apply ascii_narrow; done).
    assert (dw (default [] (default [] (pages !! page_idx) !! j))
            <= pw); [|unfold str, char in *; lia].
    assert (20 <= pw) as Hpw by (unfold pw; lia).
    destruct (pages !! page_idx) as [page|] eqn:Hpage;
      [|cbn [default from_option id];
        change (dw (default [] (@nil str !! j)) <= pw);
        rewrite lookup_nil; cbn; lia].
    cbn [default from_option id].
    destruct (page !! j) as [line|] eqn:Hline; [|cbn; lia].
    cbn [default from_option id].
    pose proof (reflow_lines_fit tm true ls size chapter page line)
      as Hfit.
    cbv zeta in Hfit. unfold page_width_of in Hfit.
    fold dims in Hfit. rewrite Hdims in Hfit. cbn [fst] in Hfit.
    apply Hfit.
    + exact (list_elem_of_lookup_2 _ _ _ Hpage).
    + by eapply list_elem_of_lookup_2.
  - unfold _pad_to_width. by rewrite take_app_length.
Qed.

End Aligned.

End Facts.

Lemma pad_to_width_exact_witness :
  _display_width Samples.wide (_pad_to_width Samples.wide (lit "ab") 5) = 5
  /\ _pad_to_width Samples.wide (Samples.zhong 3) 5 = Samples.zhong 3.
Proof.
  split.
  - destruct (pad_to_width_exact Samples.wide (lit "ab") 5) as (Hdw & _);
      [reflexivity|exact Hdw].
  - destruct (pad_to_width_exact Samples.wide (Samples.zhong 3) 5)
      as (_ & _ & Hkeep); [reflexivity|].
    apply Hkeep. vm_compute. discriminate.
Defined.

Lemma reflow_pages_partition_witness :
  concat (_reflow Samples.wide Samples.hard_wrap Samples.no_cache
                  false false 1 (Some (30, 3))
                  (Some Samples.chapter_three)).1
  = [lit "ab"; []; Samples.zhong 2; []; lit "cd"].
Proof.
  destruct (reflow_pages_partition
              Samples.wide Samples.hard_wrap Samples.no_cache
              false false 1 (Some (30, 3)) Samples.chapter_three)
    as (_ & Hfull & _).
  destruct Hfull as [Hconcat _]; [discriminate|].
  rewrite Hconcat. reflexivity.
Defined.

Lemma dual_rows_aligned_witness :
  exists rows,
    _render_rows Samples.wide true (Some (104, 20))
      (_reflow Samples.wide Samples.hard_wrap Samples.no_cache
               false true 1 (Some (104, 20))
               (Some Samples.chapter_three)).1 0
    = Some rows /\
    length rows = 20%nat.
Proof.
  destruct (dual_rows_aligned
              Samples.wide Samples.hard_wrap Samples.no_cache
              samples_wide_ascii hard_wrap_bound
              false 1 (Some (104, 20)) (Some Samples.chapter_three) 0)
    as (rows & Hrows & Hlen & _).
  exists rows. split; [exact Hrows|exact Hlen].
Defined.

End PaginatorMore.

(** * The reader session: cursor and navigation *)

Module SessionFacts.
Import Session MoreTerms.

(** [lia] after the aliases of the string types are folded away. *)
Ltac zlia := unfold str, char in *; lia.

Lemma py_index_is_Some {A} (l : list A) (i : Z) :
  is_Some (py_index l i)
  <-> - Z.of_nat (length l) <= i < Z.of_nat (length l).
Proof.
  unfold py_index.
  destruct (0 <=? i) eqn:Hpos.
  - apply Z.leb_le in Hpos. rewrite lookup_lt_is_Some. lia.
  - apply Z.leb_gt in Hpos.
    destruct (- Z.of_nat (length l) <=? i) eqn:Hlow.
    + apply Z.leb_le in Hlow. rewrite lookup_lt_is_Some. lia.
    + apply Z.leb_gt in Hlow. split; [by intros [? ?]|lia].
Qed.

Lemma clamp_spec (n p : Z) (dual : bool) :
  1 <= n ->
  let p1 := Z.max 0 (Z.min p (n - 1)) in
  let p2 := if dual && negb (p1 mod 2 =? 0) then Z.max 0 (p1 - 1) else p1 in
  (0 <= p2 < n) /\
  (dual = true -> p2 mod 2 = 0) /\
  (0 <= p < n -> (dual = true -> p mod 2 = 0) -> p2 = p).
Proof.
  intros Hn p1 p2.
  assert (0 <= p1 < n) as Hp1 by (subst p1; lia).
  destruct dual; cbn [andb] in p2.
  - destruct (p1 mod 2 =? 0) eqn:Heven; cbn [negb] in p2; subst p2.
    + apply Z.eqb_eq in Heven. split; [done|]. split; [done|].
      intros Hp _. subst p1. lia.
    + apply Z.eqb_neq in Heven.
      split; [lia|]. split.
      * intros _. revert Heven. generalize p1. intros q Hq.
        Z.div_mod_to_equations. lia.
      * intros Hp Hev. specialize (Hev eq_refl).
        exfalso. apply Heven. subst p1.
        by replace (Z.max 0 (Z.min p (n - 1))) with p by lia.
  - subst p2. split; [done|]. split; [done|].
    intros Hp _. subst p1. lia.
Qed.

Section Facts.
Variable east_asian_wide : char -> bool.
Variable textwrap_wrap : str -> Z -> list str.
Variable sha256_hexdigest : str -> str.
Variable target_lang : str.
Variable db : gmap str Database.CacheRow.
Variable size : option (Z * Z).
Variable _content : option Reader.BookContent.

Abbreviation reflow_ :=
  (_reflow east_asian_wide textwrap_wrap sha256_hexdigest target_lang
           db size _content).
Abbreviation render_ :=
  (_reflow_and_render east_asian_wide textwrap_wrap sha256_hexdigest
                      target_lang db size _content).
Abbreviation press_ :=
  (press east_asian_wide textwrap_wrap sha256_hexdigest target_lang
         db size _content).

Lemma reflow_unfold s :
  reflow_ s
  = set_pages
      (Paginator._reflow east_asian_wide textwrap_wrap
         (Engine.get_cached_in sha256_hexdigest target_lang db)
         (_translate_mode s) (_dual_mode s) (_line_spacing s) size
         (current_chapter _content s)).1
      (Paginator._reflow east_asian_wide textwrap_wrap
         (Engine.get_cached_in sha256_hexdigest target_lang db)
         (_translate_mode s) (_dual_mode s) (_line_spacing s) size
         (current_chapter _content s)).2
      s.
Proof. unfold _reflow. by destruct (Paginator._reflow _ _ _ _ _ _ _ _). Qed.

Lemma reflow_pages_ne s : (1 <= Z.of_nat (length (_pages (reflow_ s)))).
Proof.
  rewrite reflow_unfold. cbn [_pages set_pages].
  pose proof (PaginatorMore.reflow_pages_nonempty east_asian_wide
                textwrap_wrap
                (Engine.get_cached_in sha256_hexdigest target_lang db)
                (_translate_mode s) (_dual_mode s) (_line_spacing s) size
                (current_chapter _content s)) as Hne.
  destruct (Paginator._reflow _ _ _ _ _ _ _ _).1; [done|].
  cbn [length]. lia.
Qed.

Lemma book_is_Some : chapters _content <> [] -> is_Some _content.
Proof. unfold chapters. destruct _content; [by eauto|done]. Qed.

Lemma reflow_no_chapters s :
  chapters _content = [] -> length (_pages (reflow_ s)) = 1%nat.
Proof.
  intros Hnone. rewrite reflow_unfold. cbn [_pages set_pages].
  assert (current_chapter _content s = None) as ->; [|done].
  unfold current_chapter, chapters in *.
  destruct _content as [c|]; [|done]. rewrite Hnone. cbn [length].
  destruct (0 <=? _chapter_idx s) eqn:Hpos; [|done].
  apply Z.leb_le in Hpos.
  by rewrite (proj2 (Z.ltb_ge _ _)) by lia.
Qed.

Lemma update_header_ok s :
  header_ok _content s -> _update_header _content s = Some tt.
Proof.
  unfold header_ok, _update_header, chapters. intros Hok.
  destruct _content as [c|]; [|done].
  destruct (Hok (mk_is_Some _ _ eq_refl)) as [Hbook Hls].
  cbv zeta.
  replace (length (Reader.chapters c) =? 0)%nat with false
    by (symmetry; apply Nat.eqb_neq; by destruct (Reader.chapters c)).
  rewrite andb_false_r.
  destruct (proj2 (py_index_is_Some SPACING_LABELS (_line_spacing s)))
    as [label Hlabel].
  { cbn. lia. }
  by rewrite Hlabel.
Qed.

Lemma update_header_fails s :
  is_Some _content ->
  ~ (-4 <= _line_spacing s <= 3) \/
  (chapters _content = [] /\ _pages s <> []) ->
  _update_header _content s = None.
Proof.
  unfold _update_header, chapters. intros [c ->] Hout. cbv zeta.
  destruct ((0 <? length (_pages s))%nat
            && (length (Reader.chapters c) =? 0)%nat) eqn:Hdiv; [done|].
  destruct Hout as [Hout|[Hnone Hpages]].
  - destruct (py_index SPACING_LABELS (_line_spacing s)) as [label|]
      eqn:Hlabel; [|done].
    exfalso. apply Hout.
    pose proof (proj1 (py_index_is_Some SPACING_LABELS (_line_spacing s))
                  (mk_is_Some _ _ Hlabel)) as Hrange.
    cbn in Hrange. lia.
  - exfalso. rewrite Hnone in Hdiv.
    by destruct (_pages s).
Qed.

Lemma page_at_ok s i :
  0 <= i -> is_Some (page_at s i).
Proof.
  intros Hi. unfold page_at.
  destruct (i <? Z.of_nat (length (_pages s))) eqn:Hlt; [|by eauto].
  apply Z.ltb_lt in Hlt. apply py_index_is_Some. lia.
Qed.

Lemma render_page_ok s : 0 <= _page_idx s -> _render_page s = Some tt.
Proof.
  intros Hi. unfold _render_page.
  destruct (_pages s) as [|page0 rest] eqn:Hpages; [done|].
  destruct (page_at_ok s (_page_idx s) Hi) as [left Hleft].
  destruct (page_at_ok s (_page_idx s + 1)) as [right Hright]; [lia|].
  rewrite Hleft. cbn. rewrite Hright. by destruct (_dual_mode s).
Qed.

Lemma draw_ok s :
  0 <= _page_idx s -> header_ok _content s -> draw _content s = Some s.
Proof.
  intros Hi Hok. unfold draw.
  by rewrite render_page_ok, (update_header_ok s Hok).
Qed.

Lemma draw_Some s s' : draw _content s = Some s' -> s' = s.
Proof.
  unfold draw. destruct (_render_page s); [|done]. cbn.
  destruct (_update_header _content s); [|done]. cbn. congruence.
Qed.

Lemma draw_header_fails s :
  is_Some _content ->
  ~ (-4 <= _line_spacing s <= 3) \/
  (chapters _content = [] /\ _pages s <> []) ->
  draw _content s = None.
Proof.
  intros Hc Hout. unfold draw.
  destruct (_render_page s); [|done]. cbn.
  by rewrite update_header_fails.
Qed.


Lemma reflow_fields s :
  _chapter_idx (reflow_ s) = _chapter_idx s /\
  _page_idx (reflow_ s) = _page_idx s /\
  _dual_mode (reflow_ s) = _dual_mode s /\
  _line_spacing (reflow_ s) = _line_spacing s /\
  _loaded (reflow_ s) = _loaded s /\
  _translate_mode (reflow_ s) = _translate_mode s /\
  cancel_flag (reflow_ s) = cancel_flag s /\
  progress (reflow_ s) = progress s /\
  prefetches (reflow_ s) = prefetches s /\
  notifications (reflow_ s) = notifications s.
Proof. rewrite reflow_unfold. by repeat split. Qed.

(** [_reflow_and_render] on a loaded reader: the pages are laid out
    anew and the cursor is put on one of them. *)
Lemma render_spec s :
  _loaded s = true -> chapters _content <> [] ->
  -4 <= _line_spacing s <= 3 ->
  exists p,
    render_ s = Some (set_cursor (_chapter_idx s) p (reflow_ s)) /\
    0 <= p < Z.of_nat (length (_pages (reflow_ s))) /\
    (_dual_mode s = true -> p mod 2 = 0) /\
    (0 <= _page_idx s < Z.of_nat (length (_pages (reflow_ s))) ->
     (_dual_mode s = true -> _page_idx s mod 2 = 0) ->
     p = _page_idx s).
Proof.
  intros Hloaded Hbook Hls. unfold _reflow_and_render.
  rewrite Hloaded, (bool_decide_eq_true_2 _ (book_is_Some Hbook)).
  cbn [negb orb]. cbv zeta.
  destruct (reflow_fields s)
    as (Hch & Hpg & Hdual & Hsp & _).
  rewrite Hch, Hpg, Hdual.
  destruct (clamp_spec (Z.of_nat (length (_pages (reflow_ s))))
                       (_page_idx s) (_dual_mode s) (reflow_pages_ne s))
    as (Hrange & Heven & Hkeep).
  cbv zeta in Hrange, Heven, Hkeep.
  eexists. split; [|split; [exact Hrange|split; [exact Heven|exact Hkeep]]].
  apply draw_ok.
  - cbn [_page_idx set_cursor]. lia.
  - intros _. split; [done|].
    cbn [_line_spacing set_cursor]. by rewrite Hsp.
Qed.

Lemma render_fails s :
  _loaded s = true -> is_Some _content ->
  ~ (-4 <= _line_spacing s <= 3) \/ chapters _content = [] ->
  render_ s = None.
Proof.
  intros Hloaded Hc Hout. unfold _reflow_and_render.
  rewrite Hloaded, (bool_decide_eq_true_2 _ Hc). cbn [negb orb].
  cbv zeta. apply draw_header_fails; [done|].
  cbn [_line_spacing _pages set_cursor].
  destruct (reflow_fields s) as (_ & _ & _ & -> & _).
  destruct Hout as [Hout|Hnone]; [by left|right].
  split; [done|]. pose proof (reflow_pages_ne s) as Hne.
  intros Hnil. rewrite Hnil in Hne. cbn in Hne. lia.
Qed.

Lemma render_not_loaded s :
  _loaded s = false \/ _content = None -> render_ s = Some s.
Proof.
  unfold _reflow_and_render. intros [->| ->]; [done|].
  by rewrite orb_true_r.
Qed.

(** X16.  On a loaded reader with a book, [_reflow_and_render] lays
    the current chapter out anew and leaves the cursor on a page:
    within the new pages and, in dual-page mode, on an even (left)
    page, wherever it pointed before; a cursor that already is on
    such a page stays.  This is what it does when the book has a
    chapter and the line spacing a label (it is within [-4..3]); in
    every other case it raises, in drawing the header: an
    [IndexError] for a spacing without a label, a
    [ZeroDivisionError] for a book without chapters. *)
Theorem reflow_and_render_clamps s :
  _loaded s = true -> is_Some _content ->
  (chapters _content <> [] -> -4 <= _line_spacing s <= 3 ->
   exists s',
     _reflow_and_render east_asian_wide textwrap_wrap sha256_hexdigest
                        target_lang db size _content s = Some s' /\
     cursor_ok s' /\
     _chapter_idx s' = _chapter_idx s /\
     _pages s' = _pages (reflow_ s) /\
     _page_para_ranges s' = _page_para_ranges (reflow_ s) /\
     (0 <= _page_idx s < Z.of_nat (length (_pages (reflow_ s))) ->
      (_dual_mode s = true -> _page_idx s mod 2 = 0) ->
      _page_idx s' = _page_idx s)) /\
  (chapters _content = [] \/ ~ (-4 <= _line_spacing s <= 3) ->
   _reflow_and_render east_asian_wide textwrap_wrap sha256_hexdigest
                      target_lang db size _content s = None).
Proof.
  intros Hloaded Hc. split.
  - intros Hbook Hls.
    destruct (render_spec s Hloaded Hbook Hls)
      as (p & Hrun & Hrange & Heven & Hkeep).
    eexists. split; [exact Hrun|].
    destruct (reflow_fields s) as (_ & _ & Hdual & _).
    unfold cursor_ok. cbn [_page_idx _pages _dual_mode _chapter_idx
                           _page_para_ranges set_cursor].
    rewrite Hdual. done.
  - intros Hout. apply render_fails; [done|done|]. tauto.
Qed.


(** *** The navigation keys *)

Lemma well_formed_view s s' :
  _page_idx s' = _page_idx s -> _pages s' = _pages s ->
  _dual_mode s' = _dual_mode s -> _line_spacing s' = _line_spacing s ->
  _loaded s' = _loaded s ->
  well_formed s -> well_formed s'.
Proof.
  unfold well_formed, cursor_ok.
  by intros -> -> -> -> ->.
Qed.

Lemma save_progress_view s :
  _chapter_idx (_save_progress _content s) = _chapter_idx s /\
  _page_idx (_save_progress _content s) = _page_idx s /\
  _pages (_save_progress _content s) = _pages s /\
  _dual_mode (_save_progress _content s) = _dual_mode s /\
  _line_spacing (_save_progress _content s) = _line_spacing s /\
  _loaded (_save_progress _content s) = _loaded s /\
  _translate_mode (_save_progress _content s) = _translate_mode s.
Proof. unfold _save_progress. by destruct _content. Qed.

Lemma prefetch_view s :
  _chapter_idx (prefetch_if_translating s) = _chapter_idx s /\
  _page_idx (prefetch_if_translating s) = _page_idx s /\
  _pages (prefetch_if_translating s) = _pages s /\
  _dual_mode (prefetch_if_translating s) = _dual_mode s /\
  _line_spacing (prefetch_if_translating s) = _line_spacing s /\
  _loaded (prefetch_if_translating s) = _loaded s /\
  progress (prefetch_if_translating s) = progress s.
Proof.
  unfold prefetch_if_translating, _translate_current_and_prefetch.
  by destruct (_translate_mode s).
Qed.

Lemma well_formed_saved s :
  well_formed s -> well_formed (_save_progress _content s).
Proof.
  destruct (save_progress_view s) as (_ & ? & ? & ? & ? & ? & _).
  by apply well_formed_view.
Qed.

Lemma well_formed_prefetch s :
  well_formed s -> well_formed (prefetch_if_translating s).
Proof.
  destruct (prefetch_view s) as (_ & ? & ? & ? & ? & ? & _).
  by apply well_formed_view.
Qed.

Lemma render_well_formed s :
  _loaded s = true -> chapters _content <> [] ->
  0 <= _line_spacing s <= 3 ->
  exists s',
    render_ s = Some s' /\ well_formed s' /\
    _chapter_idx s' = _chapter_idx s /\
    _translate_mode s' = _translate_mode s /\
    _dual_mode s' = _dual_mode s /\
    _line_spacing s' = _line_spacing s /\
    _pages s' = _pages (reflow_ s) /\
    (_page_idx s = 0 -> _page_idx s' = 0).
Proof.
  intros Hloaded Hc Hls.
  destruct (render_spec s Hloaded Hc)
    as (p & Hrun & Hrange & Heven & Hkeep); [lia|].
  eexists. split; [exact Hrun|].
  destruct (reflow_fields s) as (_ & _ & Hdual & Hsp & Hld & Htm & _).
  unfold well_formed, cursor_ok.
  cbn [_page_idx _pages _dual_mode _chapter_idx _line_spacing _loaded
       _translate_mode set_cursor].
  rewrite Hdual, Hsp, Hld, Htm. repeat split; try done; try lia.
  intros Hzero. rewrite Hzero in Hkeep. apply Hkeep; [lia|done].
Qed.

(** Moving within the chapter. *)
Lemma move_well_formed s p :
  (is_Some _content -> chapters _content <> []) ->
  well_formed s ->
  0 <= p < Z.of_nat (length (_pages s)) ->
  (_dual_mode s = true -> p mod 2 = 0) ->
  draw _content (set_cursor (_chapter_idx s) p s)
  = Some (set_cursor (_chapter_idx s) p s) /\
  well_formed (set_cursor (_chapter_idx s) p s).
Proof.
  intros Hbook (_ & Hls & Hloaded) Hp Heven. split.
  - apply draw_ok; [cbn; lia|]. intros Hc. cbn.
    split; [by apply Hbook|lia].
  - unfold well_formed, cursor_ok. cbn. done.
Qed.

(** The page [action_prev_page] lands on in the previous chapter. *)
Lemma last_spec (n : Z) (dual : bool) :
  1 <= n ->
  let last := Z.max 0 (n - 1) in
  let last :=
    if dual && negb (last mod 2 =? 0) then Z.max 0 (last - 1) else last in
  0 <= last < n /\ (dual = true -> last mod 2 = 0) /\ n - 2 <= last /\
  (dual = false -> last = n - 1).
Proof.
  intros Hn.
  destruct (clamp_spec n (n - 1) dual Hn) as (Hrange & Heven & _).
  cbv zeta in *. rewrite Z.min_id in Hrange, Heven.
  split; [done|]. split; [done|]. split.
  - destruct (dual && negb (Z.max 0 (n - 1) mod 2 =? 0)); lia.
  - intros ->. cbn [andb]. lia.
Qed.


Abbreviation next_page_ :=
  (action_next_page east_asian_wide textwrap_wrap sha256_hexdigest
                    target_lang db size _content).
Abbreviation prev_page_ :=
  (action_prev_page east_asian_wide textwrap_wrap sha256_hexdigest
                    target_lang db size _content).
Abbreviation next_chapter_ :=
  (action_next_chapter east_asian_wide textwrap_wrap sha256_hexdigest
                       target_lang db size _content).
Abbreviation prev_chapter_ :=
  (action_prev_chapter east_asian_wide textwrap_wrap sha256_hexdigest
                       target_lang db size _content).
Abbreviation settled s := (prefetch_if_translating (_save_progress _content s)).

Lemma step_cases s : step s = 1 /\ _dual_mode s = false \/
                     step s = 2 /\ _dual_mode s = true.
Proof. unfold step. destruct (_dual_mode s); [by right|by left]. Qed.

Lemma next_page_within s :
  (is_Some _content -> chapters _content <> []) ->
  well_formed s ->
  _page_idx s + step s < Z.of_nat (length (_pages s)) ->
  next_page_ s
  = Some (settled (set_cursor (_chapter_idx s) (_page_idx s + step s) s))
  /\ well_formed (set_cursor (_chapter_idx s) (_page_idx s + step s) s).
Proof.
  intros Hbook Hwf Hlt. unfold action_next_page.
  rewrite (proj2 (Z.ltb_lt _ _) Hlt).
  destruct Hwf as ((Hrange & Heven) & Hrest).
  destruct (move_well_formed s (_page_idx s + step s))
    as [Hdraw Hwf']; [done|done| | |].
  - destruct (step_cases s) as [[Hs _]|[Hs _]]; rewrite Hs in *; zlia.
  - intros Hdual. specialize (Heven Hdual).
    destruct (step_cases s) as [[_ Hd]|[Hs _]]; [congruence|].
    rewrite Hs in *.
    revert Heven. generalize (_page_idx s). intros q Hq.
    Z.div_mod_to_equations. lia.
  - by rewrite Hdraw.
Qed.

Lemma prev_page_within s :
  (is_Some _content -> chapters _content <> []) ->
  well_formed s ->
  0 <= _page_idx s - step s ->
  prev_page_ s
  = Some (_save_progress _content
            (set_cursor (_chapter_idx s) (_page_idx s - step s) s))
  /\ well_formed (set_cursor (_chapter_idx s) (_page_idx s - step s) s).
Proof.
  intros Hbook Hwf Hge. unfold action_prev_page.
  rewrite (proj2 (Z.leb_le _ _) Hge).
  destruct Hwf as ((Hrange & Heven) & Hrest).
  destruct (move_well_formed s (_page_idx s - step s))
    as [Hdraw Hwf']; [done|done| | |].
  - destruct (step_cases s) as [[Hs _]|[Hs _]]; rewrite Hs in *; zlia.
  - intros Hdual. specialize (Heven Hdual).
    destruct (step_cases s) as [[_ Hd]|[Hs _]]; [congruence|].
    rewrite Hs in *.
    revert Heven. generalize (_page_idx s). intros q Hq.
    Z.div_mod_to_equations. lia.
  - by rewrite Hdraw.
Qed.

(** Entering a chapter at its first page. *)
Lemma enter_chapter s ch p :
  chapters _content <> [] -> well_formed s ->
  exists s1,
    render_ (set_cursor ch p s) = Some s1 /\ well_formed s1 /\
    _chapter_idx s1 = ch /\ (p = 0 -> _page_idx s1 = 0) /\
    _dual_mode s1 = _dual_mode s /\
    _line_spacing s1 = _line_spacing s.
Proof.
  intros Hc (_ & Hls & Hloaded).
  destruct (render_well_formed (set_cursor ch p s))
    as (s1 & Hrun & Hwf & Hch & _ & Hdual & Hsp & _ & Hzero);
    [done|done|done|].
  cbn in Hch, Hdual, Hsp, Hzero.
  exists s1. split; [done|]. split; [done|]. split; [done|].
  split; [done|]. by split.
Qed.

Lemma next_page_crossing s :
  chapters _content <> [] -> well_formed s ->
  ~ (_page_idx s + step s < Z.of_nat (length (_pages s))) ->
  _chapter_idx s < Z.of_nat (length (chapters _content)) - 1 ->
  exists s1,
    next_page_ s = Some (settled s1) /\ well_formed s1 /\
    _chapter_idx s1 = _chapter_idx s + 1 /\ _page_idx s1 = 0.
Proof.
  intros Hc Hwf Hge Hch. unfold action_next_page.
  rewrite (proj2 (Z.ltb_ge _ _)) by lia.
  rewrite (bool_decide_eq_true_2 _ (book_is_Some Hc)),
    (proj2 (Z.ltb_lt _ _) Hch).
  cbn [andb].
  destruct (enter_chapter s (_chapter_idx s + 1) 0 Hc Hwf)
    as (s1 & Hrun & Hwf1 & Hch1 & Hzero & _).
  rewrite Hrun. exists s1. split; [done|]. split; [done|].
  split; [done|]. by apply Hzero.
Qed.

Lemma next_page_at_end s :
  ~ (_page_idx s + step s < Z.of_nat (length (_pages s))) ->
  ~ (_chapter_idx s < Z.of_nat (length (chapters _content)) - 1) ->
  next_page_ s = Some s.
Proof.
  intros Hge Hch. unfold action_next_page.
  rewrite (proj2 (Z.ltb_ge _ _)) by lia.
  rewrite (proj2 (Z.ltb_ge _ (Z.of_nat (length (chapters _content)) - 1)))
    by lia.
  by rewrite andb_false_r.
Qed.

Lemma prev_page_crossing s :
  (is_Some _content -> chapters _content <> []) ->
  well_formed s ->
  _page_idx s - step s < 0 -> 0 < _chapter_idx s ->
  exists s1,
    prev_page_ s = Some (_save_progress _content s1) /\ well_formed s1 /\
    _chapter_idx s1 = _chapter_idx s - 1 /\
    _dual_mode s1 = _dual_mode s /\
    _pages s1
    = _pages (reflow_ (set_cursor (_chapter_idx s - 1) (_page_idx s) s))
    /\
    Z.of_nat (length (_pages s1)) - 2 <= _page_idx s1 /\
    (_dual_mode s = false ->
     _page_idx s1 = Z.of_nat (length (_pages s1)) - 1).
Proof.
  intros Hbook (_ & Hls & Hloaded) Hlt Hch. unfold action_prev_page.
  rewrite (proj2 (Z.leb_gt _ _) Hlt), (proj2 (Z.ltb_lt _ _) Hch).
  cbv zeta.
  set (s0 := reflow_ (set_cursor (_chapter_idx s - 1) (_page_idx s) s)).
  destruct (reflow_fields (set_cursor (_chapter_idx s - 1) (_page_idx s) s))
    as (Hch0 & _ & Hdual0 & Hsp0 & Hld0 & _).
  fold s0 in Hch0, Hdual0, Hsp0, Hld0. cbn in Hch0, Hdual0, Hsp0, Hld0.
  destruct (last_spec (Z.of_nat (length (_pages s0))) (_dual_mode s0))
    as (Hrange & Heven & Hlast & Hsingle).
  { apply reflow_pages_ne. }
  cbv zeta in Hrange, Heven, Hlast, Hsingle.
  eexists. split.
  - rewrite draw_ok; [done|cbn; lia|].
    intros Hc. cbn. rewrite Hsp0. split; [by apply Hbook|lia].
  - unfold well_formed, cursor_ok. cbn.
    rewrite Hsp0, Hld0, Hch0. split; [done|]. split; [done|].
    split; [done|]. split; [done|]. split; [done|].
    intros Hd. apply Hsingle. by rewrite Hdual0.
Qed.

Lemma prev_page_at_start s :
  _page_idx s - step s < 0 -> ~ (0 < _chapter_idx s) ->
  prev_page_ s = Some s.
Proof.
  intros Hlt Hch. unfold action_prev_page.
  by rewrite (proj2 (Z.leb_gt _ _) Hlt), (proj2 (Z.ltb_ge _ _)) by lia.
Qed.


Lemma settled_cursor s :
  _chapter_idx (settled s) = _chapter_idx s /\
  _page_idx (settled s) = _page_idx s /\
  _pages (settled s) = _pages s.
Proof.
  destruct (prefetch_view (_save_progress _content s))
    as (-> & -> & -> & _).
  by destruct (save_progress_view s) as (-> & -> & -> & _).
Qed.

Lemma well_formed_settled s : well_formed s -> well_formed (settled s).
Proof. intros Hwf. by apply well_formed_prefetch, well_formed_saved. Qed.

Lemma relayout_well_formed s dual ls :
  chapters _content <> [] -> well_formed s -> 0 <= ls <= 3 ->
  exists s',
    render_ (set_layout dual ls s) = Some s' /\ well_formed s' /\
    _chapter_idx s' = _chapter_idx s /\
    _dual_mode s' = dual /\ _line_spacing s' = ls.
Proof.
  intros Hc (_ & _ & Hloaded) Hls.
  destruct (render_well_formed (set_layout dual ls s))
    as (s' & Hrun & Hwf & Hch & _ & Hdual & Hsp & _);
    [done|done|done|].
  cbn in Hch, Hdual, Hsp.
  exists s'. split; [done|]. split; [done|]. split; [done|]. by split.
Qed.

(** X17.  From a well-formed state of a reader (loaded, cursor on a
    page and on a left page in dual-page mode, line spacing 0..3)
    whose book has at least one chapter, no key raises and every key
    leaves the state well-formed.  The page, chapter, spacing and dual keys and a
    resize keep the chapter index within the book when it was; a
    selection in the table of contents or the bookmark list sets it
    to the selected index. *)
Theorem navigation_keeps_cursor k s :
  chapters _content <> [] -> well_formed s ->
  exists s',
    press east_asian_wide textwrap_wrap sha256_hexdigest target_lang
          db size _content k s = Some s' /\
    well_formed s' /\
    match k with
    | TocItem c | BookmarkItem c _ => _chapter_idx s' = c
    | _ =>
        0 <= _chapter_idx s < Z.of_nat (length (chapters _content)) ->
        0 <= _chapter_idx s' < Z.of_nat (length (chapters _content))
    end.
Proof.
  intros Hc Hwf. destruct k; cbn [press].
  - (* left *)
    destruct (Z_lt_le_dec (_page_idx s - step s) 0) as [Hlt|Hge].
    + destruct (Z_lt_le_dec 0 (_chapter_idx s)) as [Hch|Hch].
      * destruct (prev_page_crossing s (fun _ => Hc) Hwf Hlt Hch)
          as (s1 & Hrun & Hwf1 & Hch1 & _).
        eexists. split; [exact Hrun|].
        split; [by apply well_formed_saved|].
        destruct (save_progress_view s1) as (-> & _). lia.
      * rewrite prev_page_at_start by lia. by eauto.
    + destruct (prev_page_within s (fun _ => Hc) Hwf Hge) as [Hrun Hwf1].
      eexists. split; [exact Hrun|].
      split; [by apply well_formed_saved|].
      by destruct (save_progress_view
                     (set_cursor (_chapter_idx s)
                                 (_page_idx s - step s) s)) as (-> & _).
  - (* right *)
    destruct (Z_lt_le_dec (_page_idx s + step s)
                          (Z.of_nat (length (_pages s)))) as [Hlt|Hge].
    + destruct (next_page_within s (fun _ => Hc) Hwf Hlt) as [Hrun Hwf1].
      eexists. split; [exact Hrun|].
      split; [by apply well_formed_settled|].
      by destruct (settled_cursor
                     (set_cursor (_chapter_idx s)
                                 (_page_idx s + step s) s)) as (-> & _).
    + destruct (Z_lt_le_dec (_chapter_idx s)
                  (Z.of_nat (length (chapters _content)) - 1))
        as [Hch|Hch].
      * destruct (next_page_crossing s Hc Hwf) as
          (s1 & Hrun & Hwf1 & Hch1 & _); [lia|done|].
        eexists. split; [exact Hrun|].
        split; [by apply well_formed_settled|].
        destruct (settled_cursor s1) as (-> & _). lia.
      * rewrite next_page_at_end by lia. by eauto.
  - (* comma *)
    unfold action_prev_chapter.
    destruct (0 <? _chapter_idx s) eqn:Hch; [|by eauto].
    apply Z.ltb_lt in Hch.
    destruct (enter_chapter s (_chapter_idx s - 1) 0 Hc Hwf)
      as (s1 & Hrun & Hwf1 & Hch1 & _).
    rewrite Hrun. eexists. split; [done|].
    split; [by apply well_formed_saved|].
    destruct (save_progress_view s1) as (-> & _). lia.
  - (* full stop *)
    unfold action_next_chapter.
    rewrite (bool_decide_eq_true_2 _ (book_is_Some Hc)). cbn [andb].
    destruct (_chapter_idx s <? Z.of_nat (length (chapters _content)) - 1)
      eqn:Hch; [|by eauto].
    apply Z.ltb_lt in Hch.
    destruct (enter_chapter s (_chapter_idx s + 1) 0 Hc Hwf)
      as (s1 & Hrun & Hwf1 & Hch1 & _).
    rewrite Hrun. eexists. split; [done|].
    split; [by apply well_formed_settled|].
    destruct (settled_cursor s1) as (-> & _). lia.
  - (* equals *)
    unfold action_increase_spacing.
    destruct (_line_spacing s <? 3) eqn:Hsp; [|by eauto].
    apply Z.ltb_lt in Hsp.
    destruct (relayout_well_formed s (_dual_mode s) (_line_spacing s + 1)
                Hc Hwf) as (s1 & Hrun & Hwf1 & Hch1 & _).
    { destruct Hwf as (_ & Hls & _). lia. }
    exists s1. split; [done|]. split; [done|]. by rewrite Hch1.
  - (* minus *)
    unfold action_decrease_spacing.
    destruct (0 <? _line_spacing s) eqn:Hsp; [|by eauto].
    apply Z.ltb_lt in Hsp.
    destruct (relayout_well_formed s (_dual_mode s) (_line_spacing s - 1)
                Hc Hwf) as (s1 & Hrun & Hwf1 & Hch1 & _).
    { destruct Hwf as (_ & Hls & _). lia. }
    exists s1. split; [done|]. split; [done|]. by rewrite Hch1.
  - (* dual *)
    unfold action_toggle_dual.
    destruct (relayout_well_formed s (negb (_dual_mode s))
                (_line_spacing s) Hc Hwf) as (s1 & Hrun & Hwf1 & Hch1 & _).
    { by destruct Hwf as (_ & Hls & _). }
    exists s1. split; [done|]. split; [done|]. by rewrite Hch1.
  - (* resize *)
    unfold on_resize.
    destruct (render_well_formed s) as (s1 & Hrun & Hwf1 & Hch1 & _);
      [by destruct Hwf as (_ & _ & ?)|done
      |by destruct Hwf as (_ & ? & _)|].
    exists s1. split; [done|]. split; [done|]. by rewrite Hch1.
  - (* table of contents *)
    unfold on_toc_selected.
    destruct (enter_chapter s ch_idx 0 Hc Hwf)
      as (s1 & Hrun & Hwf1 & Hch1 & _).
    rewrite Hrun. eexists. split; [done|].
    split; [by apply well_formed_saved|].
    by destruct (save_progress_view s1) as (-> & _).
  - (* bookmark *)
    unfold on_bookmark_selected.
    destruct (enter_chapter s chapter_index scroll_offset Hc Hwf)
      as (s1 & Hrun & Hwf1 & Hch1 & _).
    rewrite Hrun. eexists. split; [done|].
    split; [by apply well_formed_saved|].
    by destruct (save_progress_view s1) as (-> & _).
Qed.


Lemma step_set_cursor ch p s : step (set_cursor ch p s) = step s.
Proof. done. Qed.

Lemma step_settled s : step (settled s) = step s.
Proof.
  unfold step.
  destruct (prefetch_view (_save_progress _content s))
    as (_ & _ & _ & -> & _).
  by destruct (save_progress_view s) as (_ & _ & _ & -> & _).
Qed.

Lemma step_saved s : step (_save_progress _content s) = step s.
Proof.
  unfold step.
  by destruct (save_progress_view s) as (_ & _ & _ & -> & _).
Qed.

(** X18.  Within a chapter, turning the page forward and then back
    (or back and then forward) returns to the page one started
    from, in single- and in dual-page mode, with the same pages and
    the same chapter.  This holds without a book and with a book
    that has a chapter.  For a book without chapters the layout is
    the single placeholder page, so there is no page to turn to; in
    a state that had more pages all the same, the turn would raise
    in drawing the header. *)
Theorem page_turn_round_trip s :
  well_formed s ->
  ((is_Some _content -> chapters _content <> []) ->
   (_page_idx s + step s < Z.of_nat (length (_pages s)) ->
    exists s1 s2,
      action_next_page east_asian_wide textwrap_wrap sha256_hexdigest
                       target_lang db size _content s = Some s1 /\
      action_prev_page east_asian_wide textwrap_wrap sha256_hexdigest
                       target_lang db size _content s1 = Some s2 /\
      _page_idx s1 = _page_idx s + step s /\
      _page_idx s2 = _page_idx s /\
      _chapter_idx s2 = _chapter_idx s /\ _pages s2 = _pages s) /\
   (0 <= _page_idx s - step s ->
    exists s1 s2,
      action_prev_page east_asian_wide textwrap_wrap sha256_hexdigest
                       target_lang db size _content s = Some s1 /\
      action_next_page east_asian_wide textwrap_wrap sha256_hexdigest
                       target_lang db size _content s1 = Some s2 /\
      _page_idx s1 = _page_idx s - step s /\
      _page_idx s2 = _page_idx s /\
      _chapter_idx s2 = _chapter_idx s /\ _pages s2 = _pages s)) /\
  (is_Some _content -> chapters _content = [] ->
   length (_pages (_reflow east_asian_wide textwrap_wrap sha256_hexdigest
                           target_lang db size _content s)) = 1%nat /\
   (_page_idx s + step s < Z.of_nat (length (_pages s)) ->
    action_next_page east_asian_wide textwrap_wrap sha256_hexdigest
                     target_lang db size _content s = None) /\
   (0 <= _page_idx s - step s ->
    action_prev_page east_asian_wide textwrap_wrap sha256_hexdigest
                     target_lang db size _content s = None)).
Proof.
  intros Hwf. split; [intros Hbook; split|].
  - intros Hlt.
    destruct (next_page_within s Hbook Hwf Hlt) as [Hnext Hwf1].
    set (s1 := settled (set_cursor (_chapter_idx s)
                                   (_page_idx s + step s) s)) in *.
    destruct (settled_cursor (set_cursor (_chapter_idx s)
                                         (_page_idx s + step s) s))
      as (Hch1 & Hpg1 & Hpages1).
    fold s1 in Hch1, Hpg1, Hpages1. cbn in Hch1, Hpg1, Hpages1.
    assert (step s1 = step s) as Hstep
        by (subst s1; by rewrite step_settled).
    assert (well_formed s1) as Hwf1'
        by (subst s1; by apply well_formed_settled).
    destruct (prev_page_within s1 Hbook Hwf1') as [Hprev _].
    { rewrite Hpg1, Hstep. destruct Hwf as ((? & _) & _). lia. }
    eexists s1, _. split; [done|]. split; [exact Hprev|].
    split; [done|].
    destruct (save_progress_view
                (set_cursor (_chapter_idx s1)
                            (_page_idx s1 - step s1) s1))
      as (-> & -> & -> & _).
    cbn. rewrite Hpg1, Hstep, Hch1, Hpages1.
    split; [lia|done].
  - intros Hge.
    destruct (prev_page_within s Hbook Hwf Hge) as [Hprev Hwf1].
    set (s1 := _save_progress _content
                 (set_cursor (_chapter_idx s)
                             (_page_idx s - step s) s)) in *.
    destruct (save_progress_view (set_cursor (_chapter_idx s)
                                             (_page_idx s - step s) s))
      as (Hch1 & Hpg1 & Hpages1 & _).
    fold s1 in Hch1, Hpg1, Hpages1. cbn in Hch1, Hpg1, Hpages1.
    assert (step s1 = step s) as Hstep
        by (subst s1; by rewrite step_saved).
    assert (well_formed s1) as Hwf1'
        by (subst s1; by apply well_formed_saved).
    destruct (next_page_within s1 Hbook Hwf1') as [Hnext _].
    { rewrite Hpg1, Hstep, Hpages1.
      destruct Hwf as ((? & _) & _). lia. }
    eexists s1, _. split; [done|]. split; [exact Hnext|].
    split; [done|].
    destruct (settled_cursor
                (set_cursor (_chapter_idx s1)
                            (_page_idx s1 + step s1) s1))
      as (-> & -> & ->).
    cbn. rewrite Hpg1, Hstep, Hch1, Hpages1.
    split; [lia|done].
  - intros Hc Hnone.
    assert (_pages s <> []) as Hpages.
    { destruct Hwf as ((Hrange & _) & _).
      intros Hnil. rewrite Hnil in Hrange. cbn in Hrange. lia. }
    split; [by apply reflow_no_chapters|]. split.
    + intros Hlt. unfold action_next_page.
      rewrite (proj2 (Z.ltb_lt _ _) Hlt).
      rewrite draw_header_fails; [done|done|by right].
    + intros Hge. unfold action_prev_page.
      rewrite (proj2 (Z.leb_le _ _) Hge).
      rewrite draw_header_fails; [done|done|by right].
Qed.

Lemma saved_progress s :
  is_Some _content ->
  progress (_save_progress _content s)
  = Some (_chapter_idx s, _page_idx s).
Proof. intros [c ->]. done. Qed.

Lemma settled_progress s :
  is_Some _content ->
  progress (settled s) = Some (_chapter_idx s, _page_idx s).
Proof.
  intros Hc.
  destruct (prefetch_view (_save_progress _content s))
    as (_ & _ & _ & _ & _ & _ & ->).
  by apply saved_progress.
Qed.

(** X19.  At the edges of a chapter, in a book with at least one
    chapter: turning forward from the last page (or spread) enters
    the next chapter at its first page, and does nothing in the last
    chapter; turning back from the first page enters the previous
    chapter at its last page (in dual-page mode at the left page of
    its last spread: the even page among its last two), and does
    nothing in the first chapter.  Each move that happens is saved
    as the reading progress. *)
Theorem page_turn_at_chapter_edge s :
  chapters _content <> [] -> well_formed s ->
  let n := Z.of_nat (length (chapters _content)) in
  (Z.of_nat (length (_pages s)) <= _page_idx s + step s ->
   (n - 1 <= _chapter_idx s ->
    action_next_page east_asian_wide textwrap_wrap sha256_hexdigest
                     target_lang db size _content s = Some s) /\
   (_chapter_idx s < n - 1 ->
    exists s',
      action_next_page east_asian_wide textwrap_wrap sha256_hexdigest
                       target_lang db size _content s = Some s' /\
      _chapter_idx s' = _chapter_idx s + 1 /\ _page_idx s' = 0 /\
      cursor_ok s' /\
      progress s' = Some (_chapter_idx s + 1, 0))) /\
  (_page_idx s - step s < 0 ->
   (_chapter_idx s <= 0 ->
    action_prev_page east_asian_wide textwrap_wrap sha256_hexdigest
                     target_lang db size _content s = Some s) /\
   (0 < _chapter_idx s ->
    exists s',
      action_prev_page east_asian_wide textwrap_wrap sha256_hexdigest
                       target_lang db size _content s = Some s' /\
      _chapter_idx s' = _chapter_idx s - 1 /\
      _pages s'
      = _pages (_reflow east_asian_wide textwrap_wrap sha256_hexdigest
                        target_lang db size _content
                        (set_cursor (_chapter_idx s - 1) (_page_idx s) s))
      /\
      (if _dual_mode s
       then _page_idx s' mod 2 = 0 /\
            Z.of_nat (length (_pages s')) - 2 <= _page_idx s'
            < Z.of_nat (length (_pages s'))
       else _page_idx s' = Z.of_nat (length (_pages s')) - 1) /\
      cursor_ok s' /\
      progress s' = Some (_chapter_idx s - 1, _page_idx s'))).
Proof.
  intros Hbook Hwf n. pose proof (book_is_Some Hbook) as Hc. split.
  - intros Hlast. split.
    + intros Hch. apply next_page_at_end; zlia.
    + intros Hch.
      destruct (next_page_crossing s Hbook Hwf)
        as (s1 & Hrun & Hwf1 & Hch1 & Hpg1); [zlia|done|].
      eexists. split; [exact Hrun|].
      destruct (settled_cursor s1) as (Hch' & Hpg' & _).
      rewrite Hch', Hpg', Hch1, Hpg1. split; [done|]. split; [done|].
      split; [by apply well_formed_settled|].
      by rewrite settled_progress, Hch1, Hpg1.
  - intros Hfirst. split.
    + intros Hch. apply prev_page_at_start; lia.
    + intros Hch.
      destruct (prev_page_crossing s (fun _ => Hbook) Hwf Hfirst Hch)
        as (s1 & Hrun & Hwf1 & Hch1 & Hdual1 & Hpages1 & Hlast & Hsingle).
      eexists. split; [exact Hrun|].
      destruct (save_progress_view s1) as (Hch' & Hpg' & Hpages' & _).
      rewrite Hch', Hpg', Hpages', Hch1. split; [done|].
      split; [done|]. split.
      { destruct Hwf1 as ((Hrange & Heven) & _).
        destruct (_dual_mode s) eqn:Hd.
        - split; [apply Heven; by rewrite Hdual1|lia].
        - by apply Hsingle. }
      split; [by apply well_formed_saved|].
      by rewrite saved_progress, Hch1.
Qed.


(** What a returning [_reflow_and_render] can have done. *)
Lemma render_inv s s' :
  render_ s = Some s' ->
  s' = s \/ exists p, s' = set_cursor (_chapter_idx s) p (reflow_ s).
Proof.
  unfold _reflow_and_render.
  destruct (negb (_loaded s) || negb (bool_decide (is_Some _content))).
  { intros [= <-]. by left. }
  cbv zeta. intros Hdraw. apply draw_Some in Hdraw. right.
  destruct (reflow_fields s) as (Hch & _).
  rewrite Hch in Hdraw. by eexists.
Qed.

Lemma render_keeps s s' :
  render_ s = Some s' ->
  _chapter_idx s' = _chapter_idx s /\
  _dual_mode s' = _dual_mode s /\
  _line_spacing s' = _line_spacing s /\
  _loaded s' = _loaded s /\
  _translate_mode s' = _translate_mode s /\
  cancel_flag s' = cancel_flag s /\
  progress s' = progress s /\
  prefetches s' = prefetches s /\
  notifications s' = notifications s.
Proof.
  intros Hrun. destruct (render_inv s s' Hrun) as [->|[p ->]]; [done|].
  destruct (reflow_fields s)
    as (_ & _ & ? & ? & ? & ? & ? & ? & ? & ?).
  cbn. done.
Qed.

(** X20.  Whenever a page or chapter key, or a selection in the table
    of contents or the bookmark list, changes the state of a reader
    with a book, the reading progress it saves is the chapter and
    page the cursor ends on. *)
Theorem navigation_saves_cursor k s s' :
  is_Some _content ->
  match k with
  | KeyLeft | KeyRight | KeyComma | KeyFullStop
  | TocItem _ | BookmarkItem _ _ => True
  | _ => False
  end ->
  press east_asian_wide textwrap_wrap sha256_hexdigest target_lang
        db size _content k s = Some s' ->
  s' = s \/ progress s' = Some (_chapter_idx s', _page_idx s').
Proof.
  intros Hc Hk.
  assert (forall s1, progress (_save_progress _content s1)
                     = Some (_chapter_idx (_save_progress _content s1),
                             _page_idx (_save_progress _content s1)))
    as Hsaved.
  { intros s1. rewrite saved_progress by done.
    by destruct (save_progress_view s1) as (-> & -> & _). }
  assert (forall s1, progress (settled s1)
                     = Some (_chapter_idx (settled s1),
                             _page_idx (settled s1)))
    as Hsettled.
  { intros s1. rewrite settled_progress by done.
    by destruct (settled_cursor s1) as (-> & -> & _). }
  destruct k; try done; cbn [press].
  - unfold action_prev_page.
    destruct (0 <=? _page_idx s - step s).
    { destruct (draw _content _) as [s1|]; [|done].
      cbn. intros [= <-]. by right. }
    destruct (0 <? _chapter_idx s); [|intros [= <-]; by left].
    cbv zeta. destruct (draw _content _) as [s1|]; [|done].
    cbn. intros [= <-]. by right.
  - unfold action_next_page.
    destruct (_page_idx s + step s <? Z.of_nat (length (_pages s))).
    { destruct (draw _content _) as [s1|]; [|done].
      cbn. intros [= <-]. by right. }
    destruct (bool_decide (is_Some _content) && _);
      [|intros [= <-]; by left].
    destruct (render_ _) as [s1|]; [|done].
    cbn. intros [= <-]. by right.
  - unfold action_prev_chapter.
    destruct (0 <? _chapter_idx s); [|intros [= <-]; by left].
    destruct (render_ _) as [s1|]; [|done].
    cbn. intros [= <-]. by right.
  - unfold action_next_chapter.
    destruct (bool_decide (is_Some _content) && _);
      [|intros [= <-]; by left].
    destruct (render_ _) as [s1|]; [|done].
    cbn. intros [= <-]. by right.
  - unfold on_toc_selected.
    destruct (render_ _) as [s1|]; [|done].
    cbn. intros [= <-]. by right.
  - unfold on_bookmark_selected.
    destruct (render_ _) as [s1|]; [|done].
    cbn. intros [= <-]. by right.
Qed.

(** X21.  In a reader whose book has at least one chapter the line
    spacing stays within 0..3: [action_increase_spacing] adds one up
    to 3 and [action_decrease_spacing] takes one off down to 0, each
    leaving the state untouched at its bound; neither raises, and
    neither changes the chapter or the page mode. *)
Theorem spacing_saturates s :
  chapters _content <> [] -> well_formed s ->
  exists up down,
    action_increase_spacing east_asian_wide textwrap_wrap
      sha256_hexdigest target_lang db size _content s = Some up /\
    action_decrease_spacing east_asian_wide textwrap_wrap
      sha256_hexdigest target_lang db size _content s = Some down /\
    _line_spacing up = Z.min 3 (_line_spacing s + 1) /\
    _line_spacing down = Z.max 0 (_line_spacing s - 1) /\
    (_line_spacing s = 3 -> up = s) /\
    (_line_spacing s = 0 -> down = s) /\
    _chapter_idx up = _chapter_idx s /\
    _chapter_idx down = _chapter_idx s /\
    _dual_mode up = _dual_mode s /\ _dual_mode down = _dual_mode s.
Proof.
  intros Hc Hwf. pose proof Hwf as (_ & Hls & _).
  unfold action_increase_spacing, action_decrease_spacing.
  destruct (_line_spacing s <? 3) eqn:Hup;
    destruct (0 <? _line_spacing s) eqn:Hdown;
    try apply Z.ltb_lt in Hup; try apply Z.ltb_ge in Hup;
    try apply Z.ltb_lt in Hdown; try apply Z.ltb_ge in Hdown.
  - destruct (relayout_well_formed s (_dual_mode s) (_line_spacing s + 1)
                Hc Hwf) as (up & -> & _ & ? & ? & ?); [lia|].
    destruct (relayout_well_formed s (_dual_mode s) (_line_spacing s - 1)
                Hc Hwf) as (down & -> & _ & ? & ? & ?); [lia|].
    exists up, down. repeat split; try done; lia.
  - destruct (relayout_well_formed s (_dual_mode s) (_line_spacing s + 1)
                Hc Hwf) as (up & -> & _ & ? & ? & ?); [lia|].
    exists up, s. repeat split; try done; lia.
  - destruct (relayout_well_formed s (_dual_mode s) (_line_spacing s - 1)
                Hc Hwf) as (down & -> & _ & ? & ? & ?); [lia|].
    exists s, down. repeat split; try done; lia.
  - lia.
Qed.


Lemma render_zero s s' :
  render_ s = Some s' -> _page_idx s = 0 -> _page_idx s' = 0.
Proof.
  unfold _reflow_and_render.
  destruct (negb (_loaded s) || negb (bool_decide (is_Some _content))).
  { by intros [= <-]. }
  cbv zeta. intros Hdraw Hzero. apply draw_Some in Hdraw. subst s'.
  cbn [_page_idx set_cursor].
  destruct (reflow_fields s) as (_ & Hpg & _). rewrite Hpg, Hzero.
  destruct (clamp_spec (Z.of_nat (length (_pages (reflow_ s)))) 0
                       (_dual_mode (reflow_ s)) (reflow_pages_ne s))
    as (_ & _ & Hkeep).
  cbv zeta in Hkeep. apply Hkeep; [|done].
  pose proof (reflow_pages_ne s). lia.
Qed.

(** *** Switching translation mode *)

Section Translate.
Variable provider : option Engine.TranslationProviderConfig.
Variable translate_provider : str.

Abbreviation has_gap_ :=
  (_has_untranslated_before_current sha256_hexdigest target_lang db
                                    _content).

(** X22.  [action_toggle_translate] without a configured provider
    only reports an error and changes nothing else.  With one, it
    flips the translation mode: switching off sets the engine's
    cancel flag and starts no translation; switching on clears
    the flag and starts one translation task, after moving the
    cursor to the first page of the first chapter (and saving
    that as the progress) when something before the current page
    is untranslated, and without moving it otherwise. *)
Theorem toggle_translate_outcome s s' :
  action_toggle_translate east_asian_wide textwrap_wrap
    sha256_hexdigest target_lang db size provider translate_provider
    _content s = Some s' ->
  (is_configured provider = false ->
   s' = notify (not_configured_message provider translate_provider)
               Reader.Error s) /\
  (is_configured provider = true ->
   _translate_mode s' = negb (_translate_mode s) /\
   cancel_flag s' = _translate_mode s /\
   prefetches s'
   = (prefetches s + (if _translate_mode s then 0 else 1))%nat /\
   (_translate_mode s = false ->
    (_has_untranslated_before_current sha256_hexdigest target_lang db
                                      _content s = Some true ->
     _chapter_idx s' = 0 /\ _page_idx s' = 0 /\
     progress s' = Some (0, 0)) /\
    (_has_untranslated_before_current sha256_hexdigest target_lang db
                                      _content s = Some false ->
     _chapter_idx s' = _chapter_idx s /\ _page_idx s' = _page_idx s /\
     _pages s' = _pages s /\ progress s' = progress s))).
Proof.
  unfold action_toggle_translate.
  destruct (is_configured provider); cbn [negb].
  2:{ intros [= <-]. by split. }
  intros Hrun. split; [done|]. intros _.
  destruct (_translate_mode s) eqn:Hmode.
  - destruct (render_ (set_translate false true s)) as [s1|] eqn:Hr;
      [|done].
    cbn in Hrun. injection Hrun as <-.
    destruct (render_keeps _ _ Hr)
      as (_ & _ & _ & _ & Htm & Hcf & _ & Hpf & _).
    cbn in Htm, Hcf, Hpf. cbn. rewrite Htm, Hcf, Hpf.
    split; [done|]. split; [done|]. split; [lia|]. by intros [=].
  - set (s0 := notify (lit "Translation mode ON") Reader.Information
                      (set_translate true (cancel_flag s) s)) in *.
    assert (has_gap_ s0 = has_gap_ s) as Hsame by done.
    rewrite Hsame in Hrun.
    destruct (has_gap_ s) as [[|]|] eqn:Hgap; [| |done];
      cbn in Hrun.
    + destruct (render_ (set_cursor 0 0 s0)) as [s1|] eqn:Hr;
        [|done].
      cbn in Hrun. injection Hrun as <-.
      destruct (render_keeps _ _ Hr)
        as (Hch & _ & _ & _ & Htm & _ & _ & Hpf & _).
      pose proof (render_zero _ _ Hr eq_refl) as Hpg.
      cbn in Hch, Htm, Hpf.
      assert (is_Some _content) as Hc.
      { unfold _has_untranslated_before_current in Hgap.
        destruct _content; [by eauto|done]. }
      destruct Hc as [c Hc].
      unfold _translate_current_and_prefetch, _save_progress.
      rewrite Hc. cbn. rewrite Htm. cbn. rewrite Hpf, Hch, Hpg.
      split; [done|]. split; [done|]. split; [lia|].
      intros _. split; [done|]. by intros [=].
    + injection Hrun as <-. cbn.
      split; [done|]. split; [done|]. split; [lia|].
      intros _. split; [by intros [=]|done].
Qed.

End Translate.


(** *** Untranslated text before the cursor *)

Abbreviation untranslated_ :=
  (untranslated sha256_hexdigest target_lang db).

Lemma py_index_elem {A} (l : list A) (i : Z) (x : A) :
  py_index l i = Some x -> x ∈ l.
Proof.
  unfold py_index. destruct (0 <=? i).
  - apply list_elem_of_lookup_2.
  - destruct (- Z.of_nat (length l) <=? i); [|done].
    apply list_elem_of_lookup_2.
Qed.

Lemma elem_of_concat {A} (x : A) (l : list A) (ls : list (list A)) :
  x ∈ l -> l ∈ ls -> x ∈ concat ls.
Proof.
  intros Hx Hl. induction ls as [|l' ls IH];
    [by apply elem_of_nil in Hl|].
  cbn [concat]. apply elem_of_app.
  apply elem_of_cons in Hl as [<-|Hl]; [by left|right; by apply IH].
Qed.

Lemma earlier_chapters_gap cis :
  earlier_chapters sha256_hexdigest target_lang db _content cis
  = Some true ->
  exists ch para,
    ch ∈ chapters _content /\ para ∈ Paginator.paragraphs ch /\
    untranslated_ para = true.
Proof.
  induction cis as [|ci cis IH]; [done|]. cbn [earlier_chapters].
  destruct (chapters _content !! ci) as [ch|] eqn:Hch; [|done].
  destruct (existsb untranslated_ (Paginator.paragraphs ch)) eqn:Hex;
    [|exact IH].
  intros _. apply existsb_exists in Hex as (para & Hin & Hun).
  exists ch, para. split; [by eapply list_elem_of_lookup_2|].
  split; [by apply list_elem_of_In|done].
Qed.

Lemma earlier_paragraphs_gap paragraphs pis :
  earlier_paragraphs sha256_hexdigest target_lang db paragraphs pis
  = Some true ->
  exists para, para ∈ paragraphs /\ untranslated_ para = true.
Proof.
  induction pis as [|pi pis IH]; [done|]. cbn [earlier_paragraphs].
  destruct (paragraphs !! pi) as [para|] eqn:Hpara; [|done].
  destruct (untranslated_ para) eqn:Hun; [|exact IH].
  intros _. exists para. split; [by eapply list_elem_of_lookup_2|done].
Qed.

Lemma count_misses_one paras para :
  para ∈ paras -> untranslated_ para = true ->
  (Engine.count_translated_in sha256_hexdigest target_lang db paras
   < length paras)%nat.
Proof.
  intros Hin Hun. unfold untranslated in Hun.
  apply negb_true_iff in Hun.
  induction paras as [|p paras IH]; [by apply elem_of_nil in Hin|].
  cbn [Engine.count_translated_in length].
  pose proof (EngineMore.count_le sha256_hexdigest target_lang db paras)
    as Hle.
  apply elem_of_cons in Hin as [<-|Hin].
  - rewrite Hun. lia.
  - specialize (IH Hin).
    destruct (Engine.is_translated_in _ _ _ p); lia.
Qed.

(** X23.  When [_has_untranslated_before_current] answers yes, some
    paragraph of the book is not translated: [_translated_count] is
    below [_total_paragraph_count], so the bilingual export would
    refuse. *)
Theorem gap_means_incomplete s :
  _has_untranslated_before_current sha256_hexdigest target_lang db
                                   _content s = Some true ->
  (Reader._translated_count sha256_hexdigest target_lang db _content
   < Reader._total_paragraph_count _content)%nat.
Proof.
  unfold _has_untranslated_before_current.
  destruct _content as [content|] eqn:Hc; [|done]. rewrite <- Hc.
  intros Hgap.
  assert (exists ch para,
             ch ∈ chapters _content /\ para ∈ Paginator.paragraphs ch /\
             untranslated_ para = true) as (ch & para & Hch & Hpara & Hun).
  { destruct (earlier_chapters _ _ _ _ _) as [[|]|] eqn:Hearlier;
      [by eapply earlier_chapters_gap| |done].
    destruct (py_index (chapters _content) (_chapter_idx s)) as [ch|]
      eqn:Hch; [|done].
    destruct (if _page_idx s <? _ then _ else _) as [n|]; [|done].
    apply earlier_paragraphs_gap in Hgap as (para & Hpara & Hun).
    exists ch, para. split; [by eapply py_index_elem|done]. }
  rewrite Hc in *. unfold Reader._translated_count.
  rewrite ReaderFacts.total_is_length.
  apply (count_misses_one _ para); [|done].
  unfold Reader._all_paragraphs. cbn [chapters] in Hch.
  apply (elem_of_concat _ (Paginator.paragraphs ch)); [done|].
  by apply (list_elem_of_fmap_2 Paginator.paragraphs).
Qed.


(** *** The paragraphs of a page *)

Lemma slice_elem {A} (l : list A) (x y p : nat) (a : A) :
  (x <= p <= y)%nat -> l !! p = Some a -> a ∈ slice l x (y + 1).
Proof.
  intros Hp Ha. unfold slice.
  apply (list_elem_of_lookup_2 _ (p - x)%nat).
  rewrite lookup_take_lt by lia. rewrite lookup_drop.
  by replace (x + (p - x))%nat with p by lia.
Qed.

Lemma py_index_nat {A} (l : list A) (k : nat) :
  py_index l (Z.of_nat k) = l !! k.
Proof.
  unfold py_index. rewrite (proj2 (Z.leb_le _ _)) by lia.
  by rewrite Nat2Z.id.
Qed.

(** X24.  After [_reflow] of a chapter with paragraphs, the pages
    collect every paragraph of the chapter for translation: each
    paragraph is among those [_get_page_paragraphs] returns for some
    page.  For a page index past the last page it returns the empty
    list, and it raises for no index from 0 on. *)
Theorem page_paragraphs_cover s chapter :
  current_chapter _content s = Some chapter ->
  Paginator.paragraphs chapter <> [] ->
  let s' :=
    _reflow east_asian_wide textwrap_wrap sha256_hexdigest target_lang
            db size _content s in
  (forall para,
      para ∈ Paginator.paragraphs chapter ->
      exists (k : nat) paras,
        (k < length (_page_para_ranges s'))%nat /\
        _get_page_paragraphs _content s' (Z.of_nat k) = Some paras /\
        para ∈ paras) /\
  (forall k,
      Z.of_nat (length (_page_para_ranges s')) <= k ->
      _get_page_paragraphs _content s' k = Some []) /\
  (forall k, 0 <= k -> is_Some (_get_page_paragraphs _content s' k)).
Proof.
  intros Hchapter Hne s'.
  assert (current_chapter _content s' = Some chapter) as Hchapter'.
  { subst s'. unfold current_chapter in *.
    destruct (reflow_fields s) as (-> & _). done. }
  assert (_page_para_ranges s'
          = (Paginator._reflow east_asian_wide textwrap_wrap
               (Engine.get_cached_in sha256_hexdigest target_lang db)
               (_translate_mode s) (_dual_mode s) (_line_spacing s) size
               (Some chapter)).2) as Hranges.
  { subst s'. rewrite reflow_unfold, Hchapter. done. }
  split; [|split].
  - intros para Hin.
    apply list_elem_of_lookup_1 in Hin as [p Hp].
    destruct (PaginatorFacts.reflow_ranges_lookup east_asian_wide
                textwrap_wrap
                (Engine.get_cached_in sha256_hexdigest target_lang db)
                (_translate_mode s) (_dual_mode s) (_line_spacing s)
                size chapter Hne)
      as (l2p & h & Hh & Hsorted & Hcovers & Hlookup).
    destruct (Hcovers p) as [j Hj]; [by eapply lookup_lt_Some|].
    pose proof (lookup_lt_Some _ _ _ Hj) as Hjlt.
    pose proof (Nat.div_mod_eq j h) as Hdm.
    pose proof (Nat.mod_upper_bound j h) as Hmod.
    set (k := (j / h)%nat) in *.
    assert (k * h < length l2p)%nat as Hk by nia.
    specialize (Hlookup k). rewrite decide_True in Hlookup by done.
    destruct (PaginatorFacts.page_range_spec l2p h (k * h) Hh Hk)
      as (x & y & Hrange & Hx & Hy).
    rewrite Hrange in Hlookup. rewrite <- Hranges in Hlookup.
    exists k, (slice (Paginator.paragraphs chapter) x (y + 1)).
    split; [by eapply lookup_lt_Some|]. split.
    + unfold _get_page_paragraphs. rewrite Hchapter'.
      rewrite (proj2 (Z.leb_gt _ _)).
      2:{ apply lookup_lt_Some in Hlookup. zlia. }
      by rewrite py_index_nat, Hlookup.
    + apply (slice_elem _ x y p); [|done]. split.
      * apply (Hsorted (k * h)%nat j); [nia|done|done].
      * apply (Hsorted j (Nat.min (k * h + h - 1) (length l2p - 1)));
          [nia|done|done].
  - intros k Hk. unfold _get_page_paragraphs. rewrite Hchapter'.
    by rewrite (proj2 (Z.leb_le _ _)) by done.
  - intros k Hk. unfold _get_page_paragraphs. rewrite Hchapter'.
    destruct (Z.of_nat (length (_page_para_ranges s')) <=? k) eqn:Hlt;
      [by eauto|].
    apply Z.leb_gt in Hlt.
    destruct (proj2 (py_index_is_Some (_page_para_ranges s') k))
      as [[x y] Hxy]; [lia|].
    rewrite Hxy. by eauto.
Qed.


(** *** Opening a book *)

(** X25.  [_after_load] of a parsed book with at least one chapter
    leaves the reader well-formed whatever reading progress was
    stored: the stored chapter index is cut to the last chapter, the
    stored page is put back on a page of the chapter as it is laid
    out now (and kept when it still is one), and without a stored
    row the reader starts at the first page of the first chapter.
    It raises, in drawing the header, for a book without chapters
    (the division by their number) and when the line spacing taken
    from the configuration has no label (outside [-4..3]). *)
Theorem after_load_well_formed stored s :
  is_Some _content ->
  (chapters _content <> [] -> 0 <= _line_spacing s <= 3 ->
   exists s',
     _after_load east_asian_wide textwrap_wrap sha256_hexdigest
                 target_lang db size _content stored s = Some s' /\
     well_formed s' /\
     _chapter_idx s'
     = match stored with
       | Some (chapter_index, _) =>
           Z.min chapter_index
                 (Z.of_nat (length (chapters _content)) - 1)
       | None => 0
       end /\
     (stored = None -> _page_idx s' = 0) /\
     (forall chapter_index scroll_offset,
         stored = Some (chapter_index, scroll_offset) ->
         0 <= scroll_offset < Z.of_nat (length (_pages s')) ->
         (_dual_mode s = true -> scroll_offset mod 2 = 0) ->
         _page_idx s' = scroll_offset)) /\
  (chapters _content = [] \/ ~ (-4 <= _line_spacing s <= 3) ->
   _after_load east_asian_wide textwrap_wrap sha256_hexdigest
               target_lang db size _content stored s = None).
Proof.
  intros Hc. unfold _after_load. destruct Hc as [content Hc].
  rewrite Hc. rewrite <- Hc.
  assert (is_Some _content) as Hsome by (rewrite Hc; by eauto).
  set (s0 := match stored with
             | Some (chapter_index, scroll_offset) =>
                 set_cursor
                   (Z.min chapter_index
                          (Z.of_nat (length (chapters _content)) - 1))
                   scroll_offset s
             | None => set_cursor 0 0 s
             end).
  assert (_line_spacing (set_loaded true s0) = _line_spacing s
          /\ _dual_mode (set_loaded true s0) = _dual_mode s)
    as [Hsp Hdual].
  { subst s0. by destruct stored as [[c o]|]. }
  split.
  - intros Hbook Hls.
    destruct (render_spec (set_loaded true s0))
      as (p & Hrun & Hrange & Heven & Hkeep);
      [done|done|rewrite Hsp; lia|].
    eexists. split; [exact Hrun|].
    destruct (reflow_fields (set_loaded true s0))
      as (_ & Hpg0 & Hdual0 & Hsp0 & Hld0 & _).
    split.
    { unfold well_formed, cursor_ok.
      cbn [_page_idx _pages _dual_mode _line_spacing _loaded set_cursor].
      rewrite Hdual0, Hsp0, Hld0, Hsp. done. }
    cbn [_chapter_idx _page_idx _pages set_cursor set_loaded].
    split; [subst s0; by destruct stored as [[c o]|]|].
    split.
    + intros ->. subst s0. apply Hkeep; [|done].
      cbn. pose proof (reflow_pages_ne (set_loaded true (set_cursor 0 0 s))).
      lia.
    + intros c o -> Ho Hev. subst s0. apply Hkeep; [done|].
      by rewrite Hdual.
  - intros Hout. apply render_fails; [done|done|].
    rewrite Hsp. tauto.
Qed.

End Facts.

Lemma reflow_and_render_clamps_witness :
  (exists s',
      _reflow_and_render Samples.wide Samples.hard_wrap Samples.plain_digest
                         Samples.zh ∅ (Some (30, 3))
                         (Some MoreSamples.two_chapters) MoreSamples.beyond
      = Some s' /\
      cursor_ok s') /\
  _reflow_and_render Samples.wide Samples.hard_wrap Samples.plain_digest
                     Samples.zh ∅ (Some (30, 3))
                     (Some MoreSamples.no_chapters) MoreSamples.beyond
  = None.
Proof.
  split.
  - destruct (reflow_and_render_clamps
                Samples.wide Samples.hard_wrap Samples.plain_digest
                Samples.zh ∅ (Some (30, 3)) (Some MoreSamples.two_chapters)
                MoreSamples.beyond) as [Hok _].
    + reflexivity.
    + by eexists.
    + destruct Hok as (s' & Hrun & Hcursor & _);
        [discriminate|cbn; lia|].
      exists s'. split; [exact Hrun|exact Hcursor].
  - destruct (reflow_and_render_clamps
                Samples.wide Samples.hard_wrap Samples.plain_digest
                Samples.zh ∅ (Some (30, 3)) (Some MoreSamples.no_chapters)
                MoreSamples.beyond) as [_ Hraise].
    + reflexivity.
    + by eexists.
    + apply Hraise. left. reflexivity.
Defined.

Lemma navigation_keeps_cursor_witness :
  exists s',
    press Samples.wide Samples.hard_wrap Samples.plain_digest Samples.zh ∅
          (Some (30, 3)) (Some MoreSamples.two_chapters) KeyFullStop
          MoreSamples.three_pages = Some s' /\
    well_formed s'.
Proof.
  destruct (navigation_keeps_cursor
              Samples.wide Samples.hard_wrap Samples.plain_digest
              Samples.zh ∅ (Some (30, 3)) (Some MoreSamples.two_chapters)
              KeyFullStop MoreSamples.three_pages)
    as (s' & Hrun & Hwf & _).
  - discriminate.
  - split; [split; [cbn; lia|discriminate]|].
    split; [cbn; lia|reflexivity].
  - exists s'. split; [exact Hrun|exact Hwf].
Defined.

Lemma page_turn_round_trip_witness :
  (exists s1 s2,
      action_next_page Samples.wide Samples.hard_wrap Samples.plain_digest
                       Samples.zh ∅ (Some (30, 3))
                       (Some MoreSamples.two_chapters)
                       MoreSamples.three_pages = Some s1 /\
      action_prev_page Samples.wide Samples.hard_wrap Samples.plain_digest
                       Samples.zh ∅ (Some (30, 3))
                       (Some MoreSamples.two_chapters) s1 = Some s2 /\
      _page_idx s1 = 1 /\ _page_idx s2 = 0) /\
  length (_pages (_reflow Samples.wide Samples.hard_wrap
                          Samples.plain_digest Samples.zh ∅ (Some (30, 3))
                          (Some MoreSamples.no_chapters)
                          MoreSamples.three_pages)) = 1%nat.
Proof.
  split.
  - destruct (page_turn_round_trip
                Samples.wide Samples.hard_wrap Samples.plain_digest
                Samples.zh ∅ (Some (30, 3)) (Some MoreSamples.two_chapters)
                MoreSamples.three_pages) as [Hturn _].
    + split; [split; [cbn; lia|discriminate]|].
      split; [cbn; lia|reflexivity].
    + destruct Hturn as [Hforward _]; [intros _; discriminate|].
      destruct Hforward as (s1 & s2 & Hnext & Hprev & Hp1 & Hp2 & _);
        [cbn; lia|].
      exists s1, s2. split; [exact Hnext|]. split; [exact Hprev|].
      split; [exact Hp1|exact Hp2].
  - destruct (page_turn_round_trip
                Samples.wide Samples.hard_wrap Samples.plain_digest
                Samples.zh ∅ (Some (30, 3)) (Some MoreSamples.no_chapters)
                MoreSamples.three_pages) as [_ Hnone].
    + split; [split; [cbn; lia|discriminate]|].
      split; [cbn; lia|reflexivity].
    + destruct Hnone as [Hone _]; [by eexists|reflexivity|].
      exact Hone.
Defined.

Lemma page_turn_at_chapter_edge_witness :
  action_prev_page Samples.wide Samples.hard_wrap Samples.plain_digest
                   Samples.zh ∅ (Some (30, 3))
                   (Some MoreSamples.two_chapters) MoreSamples.three_pages
  = Some MoreSamples.three_pages /\
  exists s',
    action_prev_page Samples.wide Samples.hard_wrap Samples.plain_digest
                     Samples.zh ∅ (Some (30, 3))
                     (Some MoreSamples.two_chapters)
                     MoreSamples.second_chapter = Some s' /\
    _chapter_idx s' = 0 /\
    _page_idx s' = Z.of_nat (length (_pages s')) - 1 /\
    cursor_ok s'.
Proof.
  split.
  - destruct (page_turn_at_chapter_edge
                Samples.wide Samples.hard_wrap Samples.plain_digest
                Samples.zh ∅ (Some (30, 3)) (Some MoreSamples.two_chapters)
                MoreSamples.three_pages) as [_ Hback].
    + discriminate.
    + split; [split; [cbn; lia|discriminate]|].
      split; [cbn; lia|reflexivity].
    + destruct Hback as [Hstart _]; [cbn; lia|].
      apply Hstart. cbn. lia.
  - destruct (page_turn_at_chapter_edge
                Samples.wide Samples.hard_wrap Samples.plain_digest
                Samples.zh ∅ (Some (30, 3)) (Some MoreSamples.two_chapters)
                MoreSamples.second_chapter) as [_ Hback].
    + discriminate.
    + split; [split; [cbn; lia|discriminate]|].
      split; [cbn; lia|reflexivity].
    + destruct Hback as [_ Hcross]; [cbn; lia|].
      destruct Hcross as (s' & Hrun & Hch & _ & Hlast & Hcursor & _);
        [cbn; lia|].
      exists s'. split; [exact Hrun|]. split; [exact Hch|].
      split; [exact Hlast|exact Hcursor].
Defined.

Lemma navigation_saves_cursor_witness :
  exists s',
    press Samples.wide Samples.hard_wrap Samples.plain_digest Samples.zh ∅
          (Some (30, 3)) (Some MoreSamples.two_chapters) KeyRight
          MoreSamples.three_pages = Some s' /\
    (s' = MoreSamples.three_pages \/
     progress s' = Some (_chapter_idx s', _page_idx s')).
Proof.
  destruct (press Samples.wide Samples.hard_wrap Samples.plain_digest
                  Samples.zh ∅ (Some (30, 3))
                  (Some MoreSamples.two_chapters) KeyRight
                  MoreSamples.three_pages) as [s'|] eqn:Hrun;
    [|by vm_compute in Hrun].
  exists s'. split; [reflexivity|].
  apply (navigation_saves_cursor _ _ _ _ _ _ _ KeyRight _ _
           (mk_is_Some _ _ eq_refl) I Hrun).
Defined.

Lemma spacing_saturates_witness :
  exists up down,
    action_increase_spacing Samples.wide Samples.hard_wrap
      Samples.plain_digest Samples.zh ∅ (Some (30, 3))
      (Some MoreSamples.two_chapters) MoreSamples.three_pages = Some up /\
    action_decrease_spacing Samples.wide Samples.hard_wrap
      Samples.plain_digest Samples.zh ∅ (Some (30, 3))
      (Some MoreSamples.two_chapters) MoreSamples.three_pages = Some down /\
    _line_spacing up = 2 /\ _line_spacing down = 0.
Proof.
  destruct (spacing_saturates
              Samples.wide Samples.hard_wrap Samples.plain_digest
              Samples.zh ∅ (Some (30, 3)) (Some MoreSamples.two_chapters)
              MoreSamples.three_pages)
    as (up & down & Hup & Hdown & Hu & Hd & _).
  - discriminate.
  - split; [split; [cbn; lia|discriminate]|].
    split; [cbn; lia|reflexivity].
  - exists up, down. split; [exact Hup|]. split; [exact Hdown|].
    split; [exact Hu|exact Hd].
Defined.

Lemma toggle_translate_outcome_witness :
  exists s',
    action_toggle_translate Samples.wide Samples.hard_wrap
      Samples.plain_digest Samples.zh ∅ (Some (30, 3))
      (Some Samples.openai) (lit "openai")
      (Some MoreSamples.two_chapters) MoreSamples.second_chapter = Some s' /\
    _translate_mode s' = true /\ cancel_flag s' = false /\
    _chapter_idx s' = 0 /\ _page_idx s' = 0.
Proof.
  destruct (action_toggle_translate Samples.wide Samples.hard_wrap
              Samples.plain_digest Samples.zh ∅ (Some (30, 3))
              (Some Samples.openai) (lit "openai")
              (Some MoreSamples.two_chapters) MoreSamples.second_chapter)
    as [s'|] eqn:Hrun; [|by vm_compute in Hrun].
  exists s'. split; [reflexivity|].
  destruct (toggle_translate_outcome _ _ _ _ _ _ _ _ _ _ _ Hrun)
    as [_ Hon].
  destruct Hon as (Hmode & Hflag & _ & Hmove); [reflexivity|].
  destruct Hmove as [Hgap _]; [reflexivity|].
  destruct Hgap as (Hch & Hpg & _); [reflexivity|].
  split; [exact Hmode|]. split; [exact Hflag|]. split; [exact Hch|exact Hpg].
Defined.

Lemma gap_means_incomplete_witness :
  (Reader._translated_count Samples.plain_digest Samples.zh ∅
                            (Some MoreSamples.two_chapters)
   < Reader._total_paragraph_count (Some MoreSamples.two_chapters))%nat.
Proof.
  apply (gap_means_incomplete Samples.plain_digest Samples.zh ∅
           (Some MoreSamples.two_chapters) MoreSamples.second_chapter).
  reflexivity.
Defined.

Lemma page_paragraphs_cover_witness :
  exists (k : nat) paras,
    _get_page_paragraphs
      (Some MoreSamples.two_chapters)
      (_reflow Samples.wide Samples.hard_wrap Samples.plain_digest
               Samples.zh ∅ (Some (30, 3))
               (Some MoreSamples.two_chapters) MoreSamples.three_pages)
      (Z.of_nat k) = Some paras /\
    lit "cd" ∈ paras.
Proof.
  destruct (page_paragraphs_cover
              Samples.wide Samples.hard_wrap Samples.plain_digest
              Samples.zh ∅ (Some (30, 3)) (Some MoreSamples.two_chapters)
              MoreSamples.three_pages
              (Paginator.mkChapter 0 (lit "One")
                 [lit "ab"; Samples.zhong 2; lit "cd"]))
    as (Hcover & _).
  - reflexivity.
  - discriminate.
  - destruct (Hcover (lit "cd")) as (k & paras & _ & Hget & Hin).
    { apply list_elem_of_In. cbn. tauto. }
    exists k, paras. split; [exact Hget|exact Hin].
Defined.

Lemma after_load_well_formed_witness :
  (exists s',
      _after_load Samples.wide Samples.hard_wrap Samples.plain_digest
                  Samples.zh ∅ (Some (30, 3))
                  (Some MoreSamples.two_chapters) (Some (5, 9))
                  MoreSamples.beyond = Some s' /\
      well_formed s' /\ _chapter_idx s' = 1) /\
  _after_load Samples.wide Samples.hard_wrap Samples.plain_digest
              Samples.zh ∅ (Some (30, 3))
              (Some MoreSamples.no_chapters) None MoreSamples.beyond
  = None.
Proof.
  split.
  - destruct (after_load_well_formed
                Samples.wide Samples.hard_wrap Samples.plain_digest
                Samples.zh ∅ (Some (30, 3)) (Some MoreSamples.two_chapters)
                (Some (5, 9)) MoreSamples.beyond) as [Hok _].
    + by eexists.
    + destruct Hok as (s' & Hrun & Hwf & Hch & _);
        [discriminate|cbn; lia|].
      exists s'. split; [exact Hrun|]. split; [exact Hwf|exact Hch].
  - destruct (after_load_well_formed
                Samples.wide Samples.hard_wrap Samples.plain_digest
                Samples.zh ∅ (Some (30, 3)) (Some MoreSamples.no_chapters)
                None MoreSamples.beyond) as [_ Hraise].
    + by eexists.
    + apply Hraise. left. reflexivity.
Defined.

End SessionFacts.

(** * Choosing a parser *)

Module ParsersFacts.
Import Parsers.

(** Membership in a list of literal extensions, case by case. *)
Ltac ext_cases H :=
  repeat (apply elem_of_cons in H as [H|H]);
  [..|by apply elem_of_nil in H].

Ltac ext_clash :=
  match goal with
  | H : lit _ = lit _ |- _ => by vm_compute in H
  | H : lit _ ∈ _ |- _ => ext_cases H; ext_clash
  end.

Lemma all_parsers p : In p parsers.
Proof. destruct p; cbn; tauto. Qed.

Lemma extensions_disjoint p q ext :
  ext ∈ SUPPORTED_EXTENSIONS p -> ext ∈ SUPPORTED_EXTENSIONS q -> p = q.
Proof.
  intros Hp Hq.
  destruct p; cbn [SUPPORTED_EXTENSIONS] in Hp; ext_cases Hp; subst ext;
    destruct q; cbn [SUPPORTED_EXTENSIONS] in Hq; try done; ext_clash.
Qed.

Section Facts.
Variable lower : str -> str.

Lemma get_parser_Some suffix p :
  get_parser lower suffix = Some p ->
  lower suffix ∈ SUPPORTED_EXTENSIONS p.
Proof.
  unfold get_parser. intros Hfind.
  apply find_some in Hfind as [_ Hcan].
  unfold can_handle in Hcan. by apply bool_decide_eq_true in Hcan.
Qed.

Lemma get_parser_of suffix p :
  lower suffix ∈ SUPPORTED_EXTENSIONS p ->
  get_parser lower suffix = Some p.
Proof.
  intros Hp. unfold get_parser.
  destruct (find _ parsers) as [q|] eqn:Hfind.
  - f_equal. apply (extensions_disjoint q p (lower suffix)); [|done].
    by apply get_parser_Some.
  - pose proof (find_none _ _ Hfind p (all_parsers p)) as Hcan.
    unfold can_handle in Hcan.
    by apply bool_decide_eq_false in Hcan.
Qed.

(** X26.  [get_parser] picks a parser by the lower-cased suffix alone:
    it returns the one parser whose [SUPPORTED_EXTENSIONS] hold the
    suffix (no extension belongs to two parsers, so the order of the
    list does not matter) and raises when none does.  Every file the
    picker shows has a parser; the files with a parser that the
    picker hides are those ending in [.markdown], [.text], [.azw]
    and [.azw3]. *)
Theorem get_parser_by_extension suffix :
  (forall p,
      get_parser lower suffix = Some p
      <-> lower suffix ∈ SUPPORTED_EXTENSIONS p) /\
  (get_parser lower suffix = None
   <-> forall p, lower suffix ∉ SUPPORTED_EXTENSIONS p) /\
  (shown_in_picker lower false suffix = true ->
   is_Some (get_parser lower suffix)) /\
  (is_Some (get_parser lower suffix)
   /\ shown_in_picker lower false suffix = false
   <-> lower suffix
       ∈ [lit ".markdown"; lit ".text"; lit ".azw"; lit ".azw3"]).
Proof.
  split; [|split; [|split]].
  - intros p. split; [apply get_parser_Some|apply get_parser_of].
  - split.
    + intros Hnone p Hp. apply get_parser_of in Hp. congruence.
    + intros Hnone.
      destruct (get_parser lower suffix) as [p|] eqn:Hp; [|done].
      apply get_parser_Some in Hp. by apply Hnone in Hp.
  - unfold shown_in_picker. cbn [orb]. intros Hshown.
    apply bool_decide_eq_true in Hshown.
    unfold BOOK_EXTENSIONS in Hshown. ext_cases Hshown.
    + rewrite (get_parser_of suffix EpubParser); [by eauto|].
      rewrite Hshown. cbn. set_solver.
    + rewrite (get_parser_of suffix MobiParser); [by eauto|].
      rewrite Hshown. cbn. set_solver.
    + rewrite (get_parser_of suffix PdfParser); [by eauto|].
      rewrite Hshown. cbn. set_solver.
    + rewrite (get_parser_of suffix DocxParser); [by eauto|].
      rewrite Hshown. cbn. set_solver.
    + rewrite (get_parser_of suffix MarkdownParser); [by eauto|].
      rewrite Hshown. cbn. set_solver.
    + rewrite (get_parser_of suffix TxtParser); [by eauto|].
      rewrite Hshown. cbn. set_solver.
  - unfold shown_in_picker. cbn [orb]. split.
    + intros [[p Hp] Hhidden]. apply get_parser_Some in Hp.
      apply bool_decide_eq_false in Hhidden.
      unfold BOOK_EXTENSIONS in Hhidden.
      destruct p; cbn [SUPPORTED_EXTENSIONS] in Hp; ext_cases Hp;
        rewrite Hp in *; set_solver.
    + intros Hin. ext_cases Hin; rewrite Hin; split.
      * rewrite (get_parser_of suffix MarkdownParser); [by eauto|].
        rewrite Hin. cbn. set_solver.
      * apply bool_decide_eq_false. intros Hb.
        unfold BOOK_EXTENSIONS in Hb. ext_clash.
      * rewrite (get_parser_of suffix TxtParser); [by eauto|].
        rewrite Hin. cbn. set_solver.
      * apply bool_decide_eq_false. intros Hb.
        unfold BOOK_EXTENSIONS in Hb. ext_clash.
      * rewrite (get_parser_of suffix MobiParser); [by eauto|].
        rewrite Hin. cbn. set_solver.
      * apply bool_decide_eq_false. intros Hb.
        unfold BOOK_EXTENSIONS in Hb. ext_clash.
      * rewrite (get_parser_of suffix MobiParser); [by eauto|].
        rewrite Hin. cbn. set_solver.
      * apply bool_decide_eq_false. intros Hb.
        unfold BOOK_EXTENSIONS in Hb. ext_clash.
Qed.

End Facts.

Lemma get_parser_by_extension_witness :
  get_parser MoreSamples.as_is (lit ".azw3") = Some MobiParser /\
  is_Some (get_parser MoreSamples.as_is (lit ".md")) /\
  get_parser MoreSamples.as_is (lit ".djvu") = None.
Proof.
  split; [|split].
  - destruct (get_parser_by_extension MoreSamples.as_is (lit ".azw3"))
      as (Hsome & _).
    apply Hsome. apply list_elem_of_In. vm_compute. tauto.
  - destruct (get_parser_by_extension MoreSamples.as_is (lit ".md"))
      as (_ & _ & Hshown & _).
    apply Hshown. reflexivity.
  - destruct (get_parser_by_extension MoreSamples.as_is (lit ".djvu"))
      as (_ & Hnone & _).
    apply Hnone. intros p Hp. apply list_elem_of_In in Hp.
    destruct p; vm_compute in Hp; intuition discriminate.
Defined.

End ParsersFacts.
